(** * AntMazeEnv: the maze layer of [sac/envs/ant_maze_env.py]

    A shallow embedding of the class [AntMazeEnv] and the properties of its
    scene compiler, range sensor, observation composer and collision/reset
    manager.

    Conventions of the embedding.
    - Python floats are idealised as exact rationals ([Q]); integers that
      index the grid are [nat], other integers are [Z].
    - Exceptions are values of [exn]; a method that can raise returns a
      [result].
    - The physics engine ([self.wrapped_env], an [AntEnv]) and the module
      [maze_env_utils] are collaborators whose code is not part of this
      file: they are interfaces ([PhysicsEngine], [MazeEnvUtils]).
    - The XML document is kept as the list of elements the constructor
      appends, with attribute dictionaries in keyword order; an attribute
      rendered with [%f] is kept as the tuple of numbers it renders. *)

From Stdlib Require Import ZArith QArith Qabs Qminmax Qround Qfield Lqa String Ascii DecimalString DecimalNat Lia.
From stdpp Require Import base tactics option list strings.

Local Open Scope string_scope.
Local Open Scope list_scope.

(** ** Exceptions and fallible computations *)

Inductive exn : Type :=
  | IndexError
  | ValueError
  | AttributeError
  | AssertionError (msg : string)
  | Exception (msg : string).

Inductive result (A : Type) : Type :=
  | Ok (a : A)
  | Raise (e : exn).
Arguments Ok {A} a.
Arguments Raise {A} e.

#[global] Instance exn_eq_dec : EqDecision exn.
Proof. solve_decision. Defined.
#[global] Instance result_eq_dec `{EqDecision A} : EqDecision (result A).
Proof. solve_decision. Defined.

#[global] Instance result_ret : MRet result := @Ok.
#[global] Instance result_bind : MBind result := λ A B f m,
  match m with
  | Ok a => f a
  | Raise e => Raise e
  end.

Definition raises {A} (m : result A) : Prop := ∃ e, m = Raise e.

(** A [for] loop without early exit, threading the loop state. *)
Fixpoint for_each {A S} (body : A → S → result S) (l : list A) (s : S) : result S :=
  match l with
  | [] => Ok s
  | a :: l' => s' ← body a s; for_each body l' s'
  end.

(** [l[i]] for a non-negative index. *)
Definition getitem {A} (l : list A) (i : nat) : result A :=
  match l !! i with
  | Some a => Ok a
  | None => Raise IndexError
  end.

(** ** Cell tags and the maze grid *)

(** The tags of a maze structure are Python values: integers ([0], [1],
    [-1], and whatever [maze_env_utils.Move] uses) and the string ['r']. *)
Inductive value : Type :=
  | VInt (n : Z)
  | VStr (s : string).

#[global] Instance value_eq_dec : EqDecision value.
Proof. solve_decision. Defined.

(** Python [==] on tags. *)
Definition py_eq (a b : value) : bool := bool_decide (a = b).

(** [x in [a, b, ...]] *)
Definition py_in (x : value) (l : list value) : bool := existsb (py_eq x) l.

Definition grid : Type := list (list value).

Definition WALL : value := VInt 1.
Definition CHASM : value := VInt (-1).
Definition ROBOT : value := VStr "r".

(** [structure[i][j]] *)
Definition cell (structure : grid) (i j : nat) : result value :=
  row ← getitem structure i; getitem row j.

(** The index pairs visited by
    [for i in range(len(structure)): for j in range(len(structure[0])):],
    in visiting order. [structure[0]] is only evaluated inside the outer
    loop, so an empty structure yields no iteration. *)
Definition ncols (structure : grid) : nat := length (default [] (structure !! 0%nat)).
Definition cell_range (structure : grid) : list (nat * nat) :=
  i ← seq 0 (length structure); pair i <$> seq 0 (ncols structure).

(** A 2-D array: every row has the length of row 0. *)
Definition rectangular (structure : grid) : Prop :=
  Forall (λ row, length row = ncols structure) structure.

(** The tag [c] sits at row [i], column [j]. *)
Definition tag_at (structure : grid) (i j : nat) (c : value) : Prop :=
  ∃ row, structure !! i = Some row ∧ row !! j = Some c.

(** Integer to float conversion of a loop index. *)
Definition num (n : nat) : Q := inject_Z (Z.of_nat n).

(** ** [_find_robot] and [_find_all_robots] *)

(** The world coordinates of a cell before the robot is moved to the
    origin: column times scale, row times scale. *)
Definition robot_coords (size_scaling : Q) (ij : nat * nat) : Q * Q :=
  (num ij.2 * size_scaling, num ij.1 * size_scaling)%Q.

Fixpoint _find_robot_from (structure : grid) (size_scaling : Q)
    (cells : list (nat * nat)) : result (Q * Q) :=
  match cells with
  | [] => Raise (AssertionError "No robot in maze specification.")
  | (i, j) :: cells' =>
      c ← cell structure i j;
      if py_eq c ROBOT
      then Ok (num j * size_scaling, num i * size_scaling)%Q
      else _find_robot_from structure size_scaling cells'
  end.

(** [self._find_robot()], reading [self.MAZE_STRUCTURE] and
    [self.MAZE_SIZE_SCALING]. *)
Definition _find_robot (structure : grid) (size_scaling : Q) : result (Q * Q) :=
  _find_robot_from structure size_scaling (cell_range structure).

(** The robot-start cells the loops visit, in visiting order. *)
Definition robot_cells (structure : grid) : list (nat * nat) :=
  filter (λ ij, cell structure ij.1 ij.2 = Ok ROBOT) (cell_range structure).

Definition _find_all_robots (structure : grid) (size_scaling : Q)
    : result (list (Q * Q)) :=
  for_each (λ '(i, j) coords,
      c ← cell structure i j;
      Ok (if py_eq c ROBOT
          then coords ++ [(num j * size_scaling, num i * size_scaling)%Q]
          else coords))
    (cell_range structure) [].

(** ** Collaborators *)

(** A ray is its origin and its angle; a segment is its two end points. *)
Definition point : Type := (Q * Q)%type.
Definition ray : Type := (point * Q)%type.
Definition segment : Type := (point * point)%type.

(** The part of the module [sac.envs.maze_env_utils] that [AntMazeEnv]
    calls. Its code is not part of the sources, so the class takes it as
    given: the maze builder, the [Move] tag of a spinning block, the
    predicates on tags and the two geometric helpers of the range sensor.
    [ray_segment_intersect] returns [None] when the ray misses. *)
Class MazeEnvUtils : Type := {
  construct_maze : string → result grid;
  Move_SpinXY : value;
  can_move_x : value → bool;
  can_move_y : value → bool;
  can_move_z : value → bool;
  can_spin : value → bool;
  can_move : value → bool;
  ray_segment_intersect : ray → segment → option point;
  point_distance : point → point → Q
}.

(** ** The scene description *)

(** An attribute value: a literal string, or the numbers a [%f]/[{}]
    format renders. *)
Inductive attr : Type :=
  | Text (s : string)
  | Floats (l : list Q).

(** [xml.etree.ElementTree.Element]: tag, attributes in keyword order,
    children in document order. *)
#[warnings="-register-all"]
Inductive element : Type :=
  | Element (tag : string) (attrib : list (string * attr)) (children : list element).

Definition tag_of (e : element) : string := let 'Element t _ _ := e in t.
Definition attrib_of (e : element) : list (string * attr) := let 'Element _ a _ := e in a.
Definition children_of (e : element) : list element := let 'Element _ _ c := e in c.

(** [key in d] and [d.get(key)] on an attribute dictionary. *)
Definition has_key (key : string) (d : list (string * attr)) : bool :=
  existsb (λ kv, bool_decide (kv.1 = key)) d.
Definition get_attr (key : string) (d : list (string * attr)) : option attr :=
  (λ found, found.2.2) <$> list_find (λ kv, kv.1 = key) d.

(** What the constructor hands to the engine: the elements appended to
    [worldbody] and the two edits of the model file ([torso.set('pos', ...)]
    and the [solimp] of the default geom). *)
Record scene : Type := {
  torso_pos : option attr;
  default_geom_solimp : option string;
  worldbody_children : list element
}.

(** The physics engine (the [MODEL_CLASS], [AntEnv]) behind
    [self.wrapped_env]; [E] is its state, [Info] the type of the [info]
    dictionary of a step. Queries are functions of the state, commands
    return the new state. *)
Class PhysicsEngine (E Info : Type) : Type := {
  model_cls : scene → E;
  update_cam : E → E;
  wrapped_step : list Q → E → (list Q * Q * bool * Info) * E;
  wrapped_reset : E → E;
  get_xy : E → point;
  set_xy : point → E → E;
  get_body_com : string → E → Q * Q * Q;
  get_ori : E → Q;
  wrapped_get_obs : E → list Q;
  render : Z → Z → E → list Z
}.

(** [random.choice] draws an index below the length of its argument:
    [randbelow n g] is the draw and the next generator state. *)
Class Random (G : Type) : Type := {
  randbelow : nat → G → nat * G;
  randbelow_lt : ∀ n g, 0 < n → (randbelow n g).1 < n
}.

Definition random_choice {G : Type} {RNG : Random G} {A} (seq : list A) (g : G) : result (A * G) :=
  let '(k, g') := randbelow (length seq) g in
  a ← getitem seq k; Ok (a, g').

(** ** Names of scene elements *)

(** ["%d" % n] for a loop index. *)
Definition fmt_d (n : nat) : string := NilEmpty.string_of_uint (Nat.to_uint n).

(** No underscore occurs in the string. *)
Fixpoint underscore_free (s : string) : Prop :=
  match s with
  | EmptyString => True
  | String c s' => c ≠ "_"%char ∧ underscore_free s'
  end.

(** [prefix + "%d_%d" % (i, j)] *)
Definition name_ij (prefix : string) (i j : nat) : string :=
  prefix +:+ fmt_d i +:+ "_" +:+ fmt_d j.

(** ** The environment object *)

(** The keyword arguments of [AntMazeEnv.__init__]. *)
Record kwargs : Type := {
  maze_id : string;
  maze_height : Q;
  maze_size_scaling : Q;
  n_bins : Z;
  sensor_range : Q;
  sensor_span : Q;
  observe_blocks : bool;
  put_spin_near_agent : bool;
  top_down_view : bool;
  image_size : Z;
  manual_collision : bool
}.

(** The attributes of an [AntMazeEnv] instance. [t] and [trajectory] are
    not assigned by the constructor: they are [None] until [reset] sets
    them. *)
Record AntMazeEnv (E : Type) : Type := {
  _maze_id : string;
  MAZE_HEIGHT : Q;
  MAZE_SIZE_SCALING : Q;
  _n_bins : Z;
  _sensor_range : Q;
  _sensor_span : Q;
  _observe_blocks : bool;
  _put_spin_near_agent : bool;
  _top_down_view : bool;
  _manual_collision : bool;
  MAZE_STRUCTURE : grid;
  elevated : bool;
  blocks : bool;
  _init_torso_x : Q;
  _init_torso_y : Q;
  _init_positions : list point;
  _image_size : Z;
  movable_blocks : list (string * value);
  t : option Z;
  trajectory : option (list point);
  wrapped_env : E
}.
Arguments _maze_id {E}. Arguments MAZE_HEIGHT {E}. Arguments MAZE_SIZE_SCALING {E}.
Arguments _n_bins {E}. Arguments _sensor_range {E}. Arguments _sensor_span {E}.
Arguments _observe_blocks {E}. Arguments _put_spin_near_agent {E}.
Arguments _top_down_view {E}. Arguments _manual_collision {E}.
Arguments MAZE_STRUCTURE {E}. Arguments elevated {E}. Arguments blocks {E}.
Arguments _init_torso_x {E}. Arguments _init_torso_y {E}.
Arguments _init_positions {E}. Arguments _image_size {E}.
Arguments movable_blocks {E}. Arguments t {E}. Arguments trajectory {E}.
Arguments wrapped_env {E}.

(** [self.t = ...; self.trajectory = ...; self.wrapped_env] left in the
    state [e]: every other attribute is kept. *)
Definition with_state {E} (self : AntMazeEnv E) (t' : option Z)
    (trajectory' : option (list point)) (e : E) : AntMazeEnv E :=
  {| _maze_id := _maze_id self;
     MAZE_HEIGHT := MAZE_HEIGHT self;
     MAZE_SIZE_SCALING := MAZE_SIZE_SCALING self;
     _n_bins := _n_bins self;
     _sensor_range := _sensor_range self;
     _sensor_span := _sensor_span self;
     _observe_blocks := _observe_blocks self;
     _put_spin_near_agent := _put_spin_near_agent self;
     _top_down_view := _top_down_view self;
     _manual_collision := _manual_collision self;
     MAZE_STRUCTURE := MAZE_STRUCTURE self;
     elevated := elevated self;
     blocks := blocks self;
     _init_torso_x := _init_torso_x self;
     _init_torso_y := _init_torso_y self;
     _init_positions := _init_positions self;
     _image_size := _image_size self;
     movable_blocks := movable_blocks self;
     t := t';
     trajectory := trajectory';
     wrapped_env := e |}.

(** [self.wrapped_env] left in the state [e]. *)
Definition with_engine {E} (self : AntMazeEnv E) (e : E) : AntMazeEnv E :=
  with_state self (t self) (trajectory self) e.

(** ** The scene compiler (the double loop of [__init__]) *)

Section scene_compiler.
Context {U : MazeEnvUtils}.
Local Open Scope Q_scope.

(** The names bound before the loop. *)
Variables (structure : grid) (height size_scaling torso_x torso_y height_offset : Q).
Variables (is_elevated spin_near_agent : bool).

Definition elevated_geom (i j : nat) : element :=
  Element "geom"
    [("name", Text (name_ij "elevated_" i j));
     ("pos", Floats [num j * size_scaling - torso_x;
                     num i * size_scaling - torso_y;
                     height / 2 * size_scaling]);
     ("size", Floats [0.5 * size_scaling;
                      0.5 * size_scaling;
                      height / 2 * size_scaling]);
     ("type", Text "box");
     ("material", Text "");
     ("contype", Text "1");
     ("conaffinity", Text "1");
     ("rgba", Text "0.9 0.9 0.9 1")]
    [].

Definition wall_geom (i j : nat) : element :=
  Element "geom"
    [("name", Text (name_ij "block_" i j));
     ("pos", Floats [num j * size_scaling - torso_x;
                     num i * size_scaling - torso_y;
                     height_offset + height / 2 * size_scaling]);
     ("size", Floats [0.5 * size_scaling;
                      0.5 * size_scaling;
                      height / 2 * size_scaling]);
     ("type", Text "box");
     ("material", Text "");
     ("contype", Text "1");
     ("conaffinity", Text "1");
     ("rgba", Floats [num i / num (length structure);
                      num j / num (ncols structure);
                      0.4; 1])]
    [].

Definition shrink_of (spinning falling : bool) : Q :=
  if spinning then 0.1 else if falling then 0.99 else 1.0.
Definition height_shrink_of (spinning : bool) : Q :=
  if spinning then 0.1 else 1.0.

Definition movable_geom (i j : nat) (struct : value) : element :=
  let falling := can_move_z struct in
  let spinning := can_spin struct in
  let shrink := shrink_of spinning falling in
  let height_shrink := height_shrink_of spinning in
  Element "geom"
    [("name", Text (name_ij "block_" i j));
     ("pos", Text "0 0 0");
     ("size", Floats [0.5 * size_scaling * shrink;
                      0.5 * size_scaling * shrink;
                      height / 2 * size_scaling * height_shrink]);
     ("type", Text "box");
     ("material", Text "");
     ("mass", Text (if falling then "0.001" else "0.0002"));
     ("contype", Text "1");
     ("conaffinity", Text "1");
     ("rgba", Text "0.9 0.1 0.1 1")]
    [].

Definition slide_joint (axis prefix : string) (limited : bool) (i j : nat) : element :=
  Element "joint"
    [("armature", Text "0");
     ("axis", Text axis);
     ("damping", Text "0.0");
     ("limited", Text (if limited then "true" else "false"));
     ("range", Floats [- size_scaling; size_scaling]);
     ("margin", Text "0.01");
     ("name", Text (name_ij prefix i j));
     ("pos", Text "0 0 0");
     ("type", Text "slide")]
    [].

Definition z_joint (i j : nat) : element :=
  Element "joint"
    [("armature", Text "0");
     ("axis", Text "0 0 1");
     ("damping", Text "0.0");
     ("limited", Text "true");
     ("range", Floats [- height_offset; 0]);
     ("margin", Text "0.01");
     ("name", Text (name_ij "movable_z_" i j));
     ("pos", Text "0 0 0");
     ("type", Text "slide")]
    [].

Definition spin_joint (i j : nat) : element :=
  Element "joint"
    [("armature", Text "0");
     ("axis", Text "0 0 1");
     ("damping", Text "0.0");
     ("limited", Text "false");
     ("name", Text (name_ij "spinable_" i j));
     ("pos", Text "0 0 0");
     ("type", Text "ball")]
    [].

(** The [body] of a movable block: its geom, then the joints its tag
    allows, in the order the constructor appends them. *)
Definition movable_body (i j : nat) (struct : value) : element :=
  let falling := can_move_z struct in
  let spinning := can_spin struct in
  let x_offset := if spinning then 0.25 * size_scaling else 0.0 in
  let y_offset := 0.0 in
  let height_shrink := height_shrink_of spinning in
  Element "body"
    [("name", Text (name_ij "movable_" i j));
     ("pos", Floats [num j * size_scaling - torso_x + x_offset;
                     num i * size_scaling - torso_y + y_offset;
                     height_offset + height / 2 * size_scaling * height_shrink])]
    (movable_geom i j struct
     :: (if can_move_x struct then [slide_joint "1 0 0" "movable_x_" falling i j] else [])
     ++ (if can_move_y struct then [slide_joint "0 1 0" "movable_y_" falling i j] else [])
     ++ (if can_move_z struct then [z_joint i j] else [])
     ++ (if can_spin struct then [spin_joint i j] else [])).

(** The tag the loop body works with: a robot-start cell becomes a
    [Move.SpinXY] block when [put_spin_near_agent] is set. *)
Definition effective_struct (struct : value) : value :=
  if py_eq struct ROBOT && spin_near_agent then Move_SpinXY else struct.

(** The elements the loop body appends to [worldbody] for a cell whose
    tag is [struct0], and what it appends to [self.movable_blocks]. *)
Definition cell_elements (i j : nat) (struct0 : value) : list element :=
  let struct := effective_struct struct0 in
  (if is_elevated && negb (py_in struct [CHASM]) then [elevated_geom i j] else [])
  ++ (if py_eq struct WALL then [wall_geom i j]
      else if can_move struct then [movable_body i j struct]
      else []).

Definition cell_blocks (i j : nat) (struct0 : value) : list (string * value) :=
  let struct := effective_struct struct0 in
  if py_eq struct WALL then []
  else if can_move struct then [(name_ij "movable_" i j, struct)]
  else [].

(** One iteration of the inner loop on the pair
    [(worldbody children, self.movable_blocks)]. *)
Definition compile_cell (ij : nat * nat)
    (st : list element * list (string * value))
    : result (list element * list (string * value)) :=
  struct0 ← cell structure ij.1 ij.2;
  Ok (st.1 ++ cell_elements ij.1 ij.2 struct0,
      st.2 ++ cell_blocks ij.1 ij.2 struct0).

Definition compile_scene : result (list element * list (string * value)) :=
  for_each compile_cell (cell_range structure) ([], []).
End scene_compiler.

(** The descendants of an element, in document order. *)
Fixpoint descendants (e : element) : list element :=
  let 'Element _ _ children := e in
  (fix go (cs : list element) : list element :=
     match cs with
     | [] => []
     | c :: cs' => (c :: descendants c) ++ go cs'
     end) children.

(** [e.findall(".//tag")] *)
Definition findall (tag : string) (e : element) : list element :=
  filter (λ d, tag_of d = tag) (descendants e).

(** The geoms below [worldbody] that the loop has added. *)
Definition scene_geoms (children : list element) : list element :=
  findall "geom" (Element "worldbody" [] children).

Definition name_of (e : element) : option attr := get_attr "name" (attrib_of e).

(** The tag the loop reads at [(i, j)], for index pairs inside the grid. *)
Definition tag_of_cell (structure : grid) (ij : nat * nat) : value :=
  match cell structure ij.1 ij.2 with
  | Ok c => c
  | Raise _ => VInt 0
  end.

(** ** The constructor *)

(** The check that follows the loop:
    [for geom in torso.findall(".//geom"): if 'name' not in geom.attrib: raise]. *)
Fixpoint check_torso_geoms (geoms : list element) : result unit :=
  match geoms with
  | [] => Ok ()
  | geom :: geoms' =>
      if negb (has_key "name" (attrib_of geom))
      then Raise (Exception "Every geom of the torso must have a name defined")
      else check_torso_geoms geoms'
  end.

Section constructor.
Context {U : MazeEnvUtils} {E Info : Type} {PE : PhysicsEngine E Info}.
Local Open Scope Q_scope.

(** The constructor with keyword arguments [kw]. [torso] is the body
    named [torso] of the model file ([MODEL_DIR/AntEnv.FILE]), which is
    an asset and not part of the sources. The loop appends to
    [worldbody] only, and every geom it appends has a name, so the check
    on the geoms below [torso] reads the model file's own geoms. *)
Definition __init__ (kw : kwargs) (torso : element)
    : result (AntMazeEnv E) :=
  let height := maze_height kw in
  let size_scaling := maze_size_scaling kw in
  structure ← construct_maze (maze_id kw);
  let is_elevated := existsb (λ row, py_in CHASM row) structure in
  let has_blocks := existsb (λ row, existsb can_move row) structure in
  torso_xy ← _find_robot structure size_scaling;
  robots ← _find_all_robots structure size_scaling;
  let init_positions := map (λ xy, (xy.1 - torso_xy.1, xy.2 - torso_xy.2)) robots in
  let height_offset := if is_elevated then height * size_scaling else 0.0 in
  compiled ← compile_scene structure height size_scaling torso_xy.1 torso_xy.2
               height_offset is_elevated (put_spin_near_agent kw);
  _ ← check_torso_geoms (findall "geom" torso);
  let sc := {| torso_pos := if is_elevated
                            then Some (Floats [0; 0; 0.75 + height_offset])
                            else None;
               default_geom_solimp := if has_blocks then Some ".995 .995 .01" else None;
               worldbody_children := compiled.1 |} in
  Ok {| _maze_id := maze_id kw;
        MAZE_HEIGHT := height;
        MAZE_SIZE_SCALING := size_scaling;
        _n_bins := n_bins kw;
        _sensor_range := sensor_range kw * size_scaling;
        _sensor_span := sensor_span kw;
        _observe_blocks := observe_blocks kw;
        _put_spin_near_agent := put_spin_near_agent kw;
        _top_down_view := top_down_view kw;
        _manual_collision := manual_collision kw;
        MAZE_STRUCTURE := structure;
        elevated := is_elevated;
        blocks := has_blocks;
        _init_torso_x := torso_xy.1;
        _init_torso_y := torso_xy.2;
        _init_positions := init_positions;
        _image_size := image_size kw;
        movable_blocks := compiled.2;
        t := None;
        trajectory := None;
        wrapped_env := model_cls sc |}.
End constructor.

(** ** The range sensor *)

(** [dict(segment=seg, type=...)] *)
Record typed_segment : Type := {
  seg_segment : segment;
  seg_type : value
}.

(** [dict(segment=..., type=..., ray_ori=..., distance=...)] *)
Record ray_segment : Type := {
  hit_segment : segment;
  hit_type : value;
  hit_ray_ori : Q;
  hit_distance : Q
}.

(** The four sides of the box [x1 <= x <= x2], [y1 <= y <= y2], in the
    order of [struct_segments]. *)
Definition struct_segments (x1 x2 y1 y2 : Q) : list segment :=
  [((x1, y1), (x2, y1));
   ((x2, y1), (x2, y2));
   ((x2, y2), (x1, y2));
   ((x1, y2), (x1, y1))].

(** [sorted(l, key=lambda x: x["distance"])]: a stable sort, by insertion
    from the right; an element goes in front of the first one that is not
    strictly nearer. *)
Fixpoint insert_by_distance (x : ray_segment) (l : list ray_segment) : list ray_segment :=
  match l with
  | [] => [x]
  | y :: l' =>
      if Qle_bool (hit_distance x) (hit_distance y)
      then x :: y :: l'
      else y :: insert_by_distance x l'
  end.
Definition sorted_by_distance (l : list ray_segment) : list ray_segment :=
  foldr insert_by_distance [] l.

(** [np.zeros((n, m))]: a negative dimension is a [ValueError]. *)
Definition np_zeros (n : Z) (m : nat) : result (list (list Q)) :=
  if (n <? 0)%Z then Raise ValueError
  else Ok (replicate (Z.to_nat n) (replicate m 0%Q)).

(** [row[idx] = v] on a one-dimensional array. With [idx = None] numpy
    indexes through a new axis and the assignment fills the whole row. *)
Definition setitem_row (row : list Q) (idx : option nat) (v : Q) : result (list Q) :=
  match idx with
  | Some c =>
      if bool_decide (c < length row) then Ok (<[c := v]> row) else Raise IndexError
  | None => Ok ((λ _, v) <$> row)
  end.

Section range_sensor.
Context {U : MazeEnvUtils} {E Info : Type} {PE : PhysicsEngine E Info}.
Local Open Scope Q_scope.

(** The outline of the cell [ij], tagged [c]. *)
Definition cell_outline (self : AntMazeEnv E) (ij : nat * nat) (c : value)
    : list typed_segment :=
  let size_scaling := MAZE_SIZE_SCALING self in
  let cx := num ij.2 * size_scaling - _init_torso_x self in
  let cy := num ij.1 * size_scaling - _init_torso_y self in
  let x1 := cx - 0.5 * size_scaling in
  let x2 := cx + 0.5 * size_scaling in
  let y1 := cy - 0.5 * size_scaling in
  let y2 := cy + 0.5 * size_scaling in
  map (λ seg, {| seg_segment := seg; seg_type := c |})
      (struct_segments x1 x2 y1 y2).

(** The first loop of [get_range_sensor_obs]: the outline of every wall
    and chasm cell. *)
Definition static_segments_cell (self : AntMazeEnv E) (ij : nat * nat)
    (segments : list typed_segment) : result (list typed_segment) :=
  c ← cell (MAZE_STRUCTURE self) ij.1 ij.2;
  if py_in c [WALL; CHASM] then Ok (segments ++ cell_outline self ij c)
  else Ok segments.

Definition static_segments (self : AntMazeEnv E) : result (list typed_segment) :=
  for_each (static_segments_cell self) (cell_range (MAZE_STRUCTURE self)) [].

(** The outline of a movable block at [(block_x, block_y)]. *)
Definition block_outline (self : AntMazeEnv E) (block_x block_y : Q)
    (block_type : value) : list typed_segment :=
  let size_scaling := MAZE_SIZE_SCALING self in
  let x1 := block_x - 0.5 * size_scaling in
  let x2 := block_x + 0.5 * size_scaling in
  let y1 := block_y - 0.5 * size_scaling in
  let y2 := block_y + 0.5 * size_scaling in
  map (λ seg, {| seg_segment := seg; seg_type := block_type |})
      (struct_segments x1 x2 y1 y2).

(** The second loop: the outline of every movable block whose height
    band contains the robot. *)
Definition block_segments (self : AntMazeEnv E) (robot_z : Q)
    (segments : list typed_segment) : list typed_segment :=
  let size_scaling := MAZE_SIZE_SCALING self in
  let height := MAZE_HEIGHT self in
  fold_left (λ segments block,
      let '(block_x, block_y, block_z) := get_body_com block.1 (wrapped_env self) in
      if Qle_bool robot_z (block_z + height * size_scaling / 2)
         && Qle_bool (block_z - height * size_scaling / 2) robot_z
      then segments ++ block_outline self block_x block_y block.2
      else segments)
    (movable_blocks self) segments.

Definition sensor_segments (self : AntMazeEnv E) : result (list typed_segment) :=
  let '(_, _, robot_z) := get_body_com "torso" (wrapped_env self) in
  segments ← static_segments self;
  Ok (block_segments self robot_z segments).

(** The angle of ray [ray_idx]. *)
Definition ray_ori_of (self : AntMazeEnv E) (ray_idx : nat) : Q :=
  get_ori (wrapped_env self) - _sensor_span self * 0.5 +
  (2 * num ray_idx + 1.0) / (2 * inject_Z (_n_bins self)) * _sensor_span self.

(** The segments a ray meets, with the distance of the meeting point. *)
Definition ray_segments_of (origin : point) (ray_ori : Q)
    (segments : list typed_segment) : list ray_segment :=
  omap (λ seg,
      match ray_segment_intersect (origin, ray_ori) (seg_segment seg) with
      | Some p => Some {| hit_segment := seg_segment seg;
                          hit_type := seg_type seg;
                          hit_ray_ori := ray_ori;
                          hit_distance := point_distance p origin |}
      | None => None
      end)
    segments.

(** A segment type the channel selection knows: wall, chasm or a
    movable-block tag. *)
Definition known_type (v : value) : Prop :=
  v = WALL ∨ v = CHASM ∨ can_move v = true.

(** The channel of a segment type; [None] is Python's [None]. *)
Definition channel_of (seg_type : value) : option nat :=
  if py_eq seg_type WALL then Some 0%nat
  else if py_eq seg_type CHASM then Some 1%nat
  else if can_move seg_type then Some 2%nat
  else None.

(** The body of the loop over rays. *)
Definition cast_ray (self : AntMazeEnv E) (origin : point)
    (segments : list typed_segment) (ray_idx : nat)
    (sensor_readings : list (list Q)) : result (list (list Q)) :=
  let ray_ori := ray_ori_of self ray_idx in
  let ray_segments := ray_segments_of origin ray_ori segments in
  if bool_decide (0 < length ray_segments)%nat then
    first_seg ← getitem (sorted_by_distance ray_segments) 0;
    let idx := channel_of (hit_type first_seg) in
    if Qle_bool (hit_distance first_seg) (_sensor_range self) then
      row ← getitem sensor_readings ray_idx;
      row' ← setitem_row row idx
               ((_sensor_range self - hit_distance first_seg) / _sensor_range self);
      Ok (<[ray_idx := row']> sensor_readings)
    else Ok sensor_readings
  else Ok sensor_readings.

Definition get_range_sensor_obs (self : AntMazeEnv E) : result (list (list Q)) :=
  let '(robot_x, robot_y, _) := get_body_com "torso" (wrapped_env self) in
  segments ← sensor_segments self;
  sensor_readings ← np_zeros (_n_bins self) 3;
  for_each (cast_ray self (robot_x, robot_y) segments)
    (seq 0 (Z.to_nat (_n_bins self))) sensor_readings.

(** The robot position the rays start from. *)
Definition robot_xy (self : AntMazeEnv E) : point :=
  let '(robot_x, robot_y, _) := get_body_com "torso" (wrapped_env self) in
  (robot_x, robot_y).

(** The segments ray [ray_idx] meets. *)
Definition ray_hits (self : AntMazeEnv E) (segments : list typed_segment)
    (ray_idx : nat) : list ray_segment :=
  ray_segments_of (robot_xy self) (ray_ori_of self ray_idx) segments.

(** What [cast_ray] leaves in a row of zeros, given the segments the
    ray meets: the loop body read as a function of the row alone. *)
Definition ray_reading (self : AntMazeEnv E) (hits : list ray_segment) : list Q :=
  match sorted_by_distance hits with
  | [] => [0; 0; 0]
  | first_seg :: _ =>
      if Qle_bool (hit_distance first_seg) (_sensor_range self) then
        let strength :=
          (_sensor_range self - hit_distance first_seg) / _sensor_range self in
        match channel_of (hit_type first_seg) with
        | Some c => <[c := strength]> [0; 0; 0]
        | None => [strength; strength; strength]
        end
      else [0; 0; 0]
  end.

(** What the constructor establishes and [reset] and [step] keep: the
    loops read a tag at every index pair they visit, every recorded
    block has a movable tag, and the start offsets are the robot-start
    cells relative to the first one. *)
Definition consistent (self : AntMazeEnv E) : Prop :=
  Forall (λ ij, ∃ c, cell (MAZE_STRUCTURE self) ij.1 ij.2 = Ok c)
    (cell_range (MAZE_STRUCTURE self)) ∧
  Forall (λ block, can_move block.2 = true) (movable_blocks self) ∧
  ∃ robots,
    _find_robot (MAZE_STRUCTURE self) (MAZE_SIZE_SCALING self)
      = Ok (_init_torso_x self, _init_torso_y self) ∧
    _find_all_robots (MAZE_STRUCTURE self) (MAZE_SIZE_SCALING self) = Ok robots ∧
    _init_positions self
      = map (λ xy, (xy.1 - _init_torso_x self, xy.2 - _init_torso_y self)) robots.
End range_sensor.

(** ** Observations, reset, collision and step *)

(** A bound of a [gym.spaces.Box]. *)
Inductive bound : Type :=
  | NegInf
  | Finite (q : Q)
  | PosInf.

Definition bound_neg (b : bound) : bound :=
  match b with
  | NegInf => PosInf
  | Finite q => Finite (- q)
  | PosInf => NegInf
  end.

Record Box : Type := {
  low : list bound;
  high : list bound
}.

Section environment.
Context {U : MazeEnvUtils} {E Info : Type} {PE : PhysicsEngine E Info} {G : Type} {RNG : Random G}.
Local Open Scope Q_scope.

(** Reading [self.t]. *)
Definition getattr_t (self : AntMazeEnv E) : result Z :=
  match t self with
  | Some n => Ok n
  | None => Raise AttributeError
  end.

(** The leading segment of an observation: the rendered image, scaled to
    [0, 1] and flattened, when [top_down_view] is set. *)
Definition view_of (self : AntMazeEnv E) : list (list Q) :=
  if _top_down_view self then
    let img := render (_image_size self) (_image_size self) (wrapped_env self) in
    [(λ p, inject_Z p / 255.0) <$> img]
  else [].

(** The proprioceptive segment, with the block positions spliced in
    after its first three components when [observe_blocks] is set. *)
Definition wrapped_obs_of (self : AntMazeEnv E) : list Q :=
  let wrapped_obs := wrapped_get_obs (wrapped_env self) in
  if _observe_blocks self then
    let additional_obs :=
      map (λ block, let '(x, y, z) := get_body_com block.1 (wrapped_env self) in [x; y; z])
          (movable_blocks self) in
    concat ([take 3 wrapped_obs] ++ additional_obs ++ [drop 3 wrapped_obs])
  else wrapped_obs.

Definition _get_obs (self : AntMazeEnv E) : result (list Q) :=
  let view := view_of self in
  let wrapped_obs := wrapped_obs_of self in
  range_sensor_obs ← get_range_sensor_obs self;
  t ← getattr_t self;
  Ok (concat (view ++ [wrapped_obs; concat range_sensor_obs] ++ [[inject_Z t * 0.001]])).

Definition reset (g : G) (self : AntMazeEnv E) : result (list Q * AntMazeEnv E * G) :=
  let self := with_state self (Some 0%Z) (Some []) (wrapped_reset (wrapped_env self)) in
  if bool_decide (1 < length (_init_positions self))%nat then
    chosen ← random_choice (_init_positions self) g;
    let self := with_engine self (set_xy chosen.1 (wrapped_env self)) in
    obs ← _get_obs self;
    Ok (obs, self, chosen.2)
  else
    obs ← _get_obs self;
    Ok (obs, self, g).

Definition observation_space (self : AntMazeEnv E) : result Box :=
  obs ← _get_obs self;
  let shape := length obs in
  let high := replicate shape PosInf in
  let low := bound_neg <$> high in
  Ok {| low := low; high := high |}.

(** The bounds [_is_in_collision] computes for cell [(i, j)]. *)
Definition collision_box (self : AntMazeEnv E) (i j : nat) : Q * Q * Q * Q :=
  let size_scaling := MAZE_SIZE_SCALING self in
  let minx := num j * size_scaling - size_scaling * 0.5 - _init_torso_x self in
  let maxx := num j * size_scaling + size_scaling * 0.5 - _init_torso_x self in
  let miny := num i * size_scaling - size_scaling * 0.5 - _init_torso_y self in
  let maxy := num i * size_scaling + size_scaling * 0.5 - _init_torso_y self in
  (minx, maxx, miny, maxy).

Fixpoint _is_in_collision_from (self : AntMazeEnv E) (pos : point)
    (cells : list (nat * nat)) : result bool :=
  match cells with
  | [] => Ok false
  | (i, j) :: cells' =>
      c ← cell (MAZE_STRUCTURE self) i j;
      if py_eq c WALL then
        let '(minx, maxx, miny, maxy) := collision_box self i j in
        if Qle_bool minx pos.1 && Qle_bool pos.1 maxx
           && Qle_bool miny pos.2 && Qle_bool pos.2 maxy
        then Ok true
        else _is_in_collision_from self pos cells'
      else _is_in_collision_from self pos cells'
  end.

Definition _is_in_collision (self : AntMazeEnv E) (pos : point) : result bool :=
  _is_in_collision_from self pos (cell_range (MAZE_STRUCTURE self)).

Definition step (action : list Q) (self : AntMazeEnv E)
    : result (list Q * Q * bool * Info * AntMazeEnv E) :=
  let self := with_engine self (update_cam (wrapped_env self)) in
  t0 ← getattr_t self;
  let self := with_state self (Some (t0 + 1)%Z) (trajectory self) (wrapped_env self) in
  if _manual_collision self then
    let old_pos := get_xy (wrapped_env self) in
    let '(inner_next_obs, inner_reward, done, info, e) :=
      wrapped_step action (wrapped_env self) in
    let self := with_engine self e in
    let new_pos := get_xy (wrapped_env self) in
    collided ← _is_in_collision self new_pos;
    let self := if collided : bool
                then with_engine self (set_xy old_pos (wrapped_env self))
                else self in
    next_obs ← _get_obs self;
    let done := false in
    Ok (next_obs, inner_reward, done, info, self)
  else
    let '(inner_next_obs, inner_reward, done, info, e) :=
      wrapped_step action (wrapped_env self) in
    let self := with_engine self e in
    next_obs ← _get_obs self;
    let done := false in
    Ok (next_obs, inner_reward, done, info, self).

(** The environments a program can hold: built by the constructor, then
    driven by [reset] and [step]. *)
Inductive reachable : AntMazeEnv E → Prop :=
  | reachable_init kw torso self :
      __init__ kw torso = Ok self → reachable self
  | reachable_reset g self obs self' g' :
      reachable self → reset g self = Ok (obs, self', g') → reachable self'
  | reachable_step action self out self' :
      reachable self → step action self = Ok (out, self') → reachable self'.
End environment.

(** ** A reference instantiation of the collaborators

    Used to run the methods on concrete mazes. *)
Module Reference.
Local Open Scope Q_scope.

(** The [Move] tags. *)
Definition MoveX : value := VInt 11.
Definition MoveY : value := VInt 12.
Definition MoveZ : value := VInt 13.
Definition MoveXY : value := VInt 14.
Definition MoveXZ : value := VInt 15.
Definition MoveYZ : value := VInt 16.
Definition MoveXYZ : value := VInt 17.
Definition MoveSpinXY : value := VInt 18.

(** A ray of angle [0] runs along [+x]; it meets a vertical segment in
    front of it at its own height. Other rays miss. *)
Definition ray_meets (r : ray) (s : segment) : option point :=
  let '((x0, y0), theta) := r in
  let '((xa, ya), (xb, yb)) := s in
  if Qeq_bool theta 0 && Qeq_bool xa xb && Qle_bool x0 xa
     && Qle_bool (Qmin ya yb) y0 && Qle_bool y0 (Qmax ya yb)
  then Some (xa, y0) else None.

Definition manhattan (p q : point) : Q := Qabs (p.1 - q.1) + Qabs (p.2 - q.2).

(** A [maze_env_utils] whose [construct_maze] returns [g] for every
    identifier. *)
Definition utils (g : grid) : MazeEnvUtils :=
  {| construct_maze := λ _, Ok g;
     Move_SpinXY := MoveSpinXY;
     can_move_x := λ v, py_in v [MoveX; MoveXY; MoveXZ; MoveXYZ; MoveSpinXY];
     can_move_y := λ v, py_in v [MoveY; MoveXY; MoveYZ; MoveXYZ; MoveSpinXY];
     can_move_z := λ v, py_in v [MoveZ; MoveXZ; MoveYZ; MoveXYZ];
     can_spin := λ v, py_in v [MoveSpinXY];
     can_move := λ v, py_in v [MoveX; MoveY; MoveZ; MoveXY; MoveXZ; MoveYZ; MoveXYZ; MoveSpinXY];
     ray_segment_intersect := ray_meets;
     point_distance := manhattan |}.

(** An engine that moves the torso by the first two components of the
    action, reports reward [1] and [done = True], and keeps every body
    at height [0]. Its state is the torso position. *)
#[global] Instance engine : PhysicsEngine point unit :=
  {| model_cls := λ _, (0, 0);
     update_cam := λ e, e;
     wrapped_step := λ action e,
       let e' := (e.1 + nth 0 action 0, e.2 + nth 1 action 0) in
       (([e'.1; e'.2; 0; 1], 1, true, ()), e');
     wrapped_reset := λ _, (0, 0);
     get_xy := λ e, e;
     set_xy := λ xy _, xy;
     get_body_com := λ name e,
       if bool_decide (name = "torso") then (e.1, e.2, 0) else (12, 0, 0);
     get_ori := λ _, 0;
     wrapped_get_obs := λ e, [e.1; e.2; 0; 1];
     render := λ _ _ _, [255; 0; 51]%Z |}.

(** A generator that counts: draw [g mod n], then [g + 1]. *)
#[global] Instance rng : Random nat :=
  {| randbelow := λ n g, (g mod n, S g)%nat;
     randbelow_lt := λ n g Hn, Nat.mod_upper_bound g n (Nat.neq_sym _ _ (Nat.lt_neq _ _ Hn)) |}.

Definition kw (spin manual : bool) (bins : Z) : kwargs :=
  {| maze_id := "Maze";
     maze_height := 0.5;
     maze_size_scaling := 8;
     n_bins := bins;
     sensor_range := 3;
     sensor_span := 2;
     observe_blocks := true;
     put_spin_near_agent := spin;
     top_down_view := true;
     image_size := 1;
     manual_collision := manual |}.

Definition one_robot : grid := [[ROBOT; VInt 0; WALL]].
Definition two_robots : grid := [[ROBOT; VInt 0; ROBOT]].
Definition no_robot : grid := [[VInt 0; WALL]].
Definition robot_by_wall : grid := [[ROBOT; WALL]].

(** A torso body with one named geom. *)
Definition torso : element :=
  Element "body" [("name", Text "torso"); ("pos", Text "0 0 0.75")]
    [Element "geom" [("name", Text "torso_geom"); ("type", Text "sphere")] []].
End Reference.

(** ** Names and elements of the whole scene *)

(** The number of underscores in a string. *)
Fixpoint underscores (s : string) : nat :=
  match s with
  | EmptyString => 0
  | String c s' => (if bool_decide (c = "_"%char) then 1 else 0) + underscores s'
  end.

(** Every element below [worldbody] that the loop has added, and the names
    they carry. *)
Definition scene_elements (children : list element) : list element :=
  descendants (Element "worldbody" [] children).
Definition scene_names (children : list element) : list (option attr) :=
  name_of <$> scene_elements children.

(** The bodies below [worldbody] that the loop has added. *)
Definition scene_bodies (children : list element) : list element :=
  findall "body" (Element "worldbody" [] children).

(** The name prefixes of the elements one cell contributes, in document
    order. *)
Definition cell_name_prefixes {U : MazeEnvUtils} (is_elevated spin_near_agent : bool)
    (struct0 : value) : list string :=
  let struct := effective_struct spin_near_agent struct0 in
  (if is_elevated && negb (py_in struct [CHASM]) then ["elevated_"] else [])
  ++ (if py_eq struct WALL then ["block_"]
      else if can_move struct then
        ["movable_"; "block_"]
        ++ (if can_move_x struct then ["movable_x_"] else [])
        ++ (if can_move_y struct then ["movable_y_"] else [])
        ++ (if can_move_z struct then ["movable_z_"] else [])
        ++ (if can_spin struct then ["spinable_"] else [])
      else []).

(** All the prefixes the constructor uses. *)
Definition name_prefixes : list string :=
  ["elevated_"; "block_"; "movable_"; "movable_x_"; "movable_y_"; "movable_z_";
   "spinable_"].

(** ** The top-down view ([get_top_down_view])

    [self._view] is created by the constructor as [np.zeros([5, 5, 3])] and
    is only ever replaced by [np.zeros_like] of itself, at the start of
    [get_top_down_view]; so every call starts from [initial_view], and the
    array it returns is the one it leaves in [self._view]. The method also
    stores the robot's position and orientation in [self._robot_x],
    [self._robot_y] and [self._robot_ori]; only the position is read, by
    [update_view] within the same call, so they are local here. *)

Definition view : Type := list (list (list Q)).

Definition initial_view : view := replicate 5 (replicate 5 (replicate 3 0%Q)).

(** [int(q)]: truncation towards zero. *)
Definition py_int (q : Q) : Z := if Qle_bool 0 q then Qfloor q else Qceiling q.

(** [q % 1]: the result has the sign of the divisor. *)
Definition py_mod1 (q : Q) : Q := (q - inject_Z (Qfloor q))%Q.

(** [min(a, b)] is [a] unless [b < a]; [max(a, b)] is [a] unless [b > a]. *)
Definition py_min (a b : Q) : Q := if Qle_bool a b then a else b.
Definition py_max (a b : Q) : Q := if Qle_bool b a then a else b.

(** [a < b] *)
Definition Qlt_bool (a b : Q) : bool := negb (Qle_bool b a).

(** [valid(row, col)] *)
Definition valid (v : view) (row col : Z) : bool :=
  (row <? Z.of_nat (length v))%Z && (0 <=? row)%Z
  && (col <? Z.of_nat (length (default [] (v !! 0%nat))))%Z && (0 <=? col)%Z.

(** [v[row, col, d] += w], for indices inside the array. *)
Definition view_add (v : view) (row col : Z) (d : nat) (w : Q) : view :=
  alter (alter (alter (λ x, x + w)%Q d) (Z.to_nat col)) (Z.to_nat row) v.

(** [if valid(row, col): v[row, col, d] += w] *)
Definition add_if_valid (v : view) (row col : Z) (d : nat) (w : Q) : view :=
  if valid v row col then view_add v row col d w else v.

(** The share of a cell that stays in its own row (or column), and the
    shares that spill to the previous and to the next one, for the
    fractional part [f] of the coordinate. *)
Definition share_centre (f : Q) : Q := (py_min 1.0 (f + 0.5) - py_max 0.0 (f - 0.5))%Q.
Definition share_before (f : Q) : Q := py_max 0.0 (0.5 - f)%Q.
Definition share_after (f : Q) : Q := py_max 0.0 (f - 0.5)%Q.

(** The second part of [update_view], with [row] and [col] given. *)
Definition update_view_at (v : view) (row0 col0 : Q) (d : nat) : view :=
  let row := py_int row0 in
  let row_frac := py_mod1 row0 in
  let col := py_int col0 in
  let col_frac := py_mod1 col0 in
  let row_frac := if Qlt_bool row_frac 0 then (row_frac + 1)%Q else row_frac in
  let col_frac := if Qlt_bool col_frac 0 then (col_frac + 1)%Q else col_frac in
  let v := add_if_valid v row col d
             (share_centre row_frac * share_centre col_frac)%Q in
  let v := add_if_valid v (row - 1) col d
             (share_before row_frac * share_centre col_frac)%Q in
  let v := add_if_valid v (row + 1) col d
             (share_after row_frac * share_centre col_frac)%Q in
  let v := add_if_valid v row (col - 1) d
             (share_centre row_frac * share_before col_frac)%Q in
  let v := add_if_valid v row (col + 1) d
             (share_centre row_frac * share_after col_frac)%Q in
  let v := add_if_valid v (row - 1) (col - 1) d
             (share_before row_frac * share_before col_frac)%Q in
  let v := add_if_valid v (row - 1) (col + 1) d
             (share_before row_frac * share_after col_frac)%Q in
  let v := add_if_valid v (row + 1) (col + 1) d
             (share_after row_frac * share_after col_frac)%Q in
  let v := add_if_valid v (row + 1) (col - 1) d
             (share_after row_frac * share_before col_frac)%Q in
  v.

(** [self._xy_to_rowcol(x, y)], for a nonzero [size_scaling] (the
    division raises [ZeroDivisionError] otherwise; the properties of the
    view that depend on it assume a nonzero scaling). *)
Definition _xy_to_rowcol (size_scaling x y : Q) : Q * Q :=
  (2 + (y + size_scaling / 2) / size_scaling,
   2 + (x + size_scaling / 2) / size_scaling)%Q.

(** [update_view(x, y, d)], relative to the robot at [(robot_x, robot_y)]. *)
Definition update_view (size_scaling robot_x robot_y : Q) (v : view)
    (x y : Q) (d : nat) : view :=
  let x := (x - robot_x)%Q in
  let y := (y - robot_y)%Q in
  let rowcol := _xy_to_rowcol size_scaling x y in
  update_view_at v rowcol.1 rowcol.2 d.

Section top_down_view.
Context {E Info : Type} {PE : PhysicsEngine E Info}.
Local Open Scope Q_scope.

(** The body of the loop over the cells: walls go to channel 0, chasms to
    channel 1. *)
Definition draw_cell (self : AntMazeEnv E) (robot_x robot_y : Q)
    (ij : nat * nat) (v : view) : result view :=
  let size_scaling := MAZE_SIZE_SCALING self in
  c ← cell (MAZE_STRUCTURE self) ij.1 ij.2;
  let v := if py_eq c WALL
           then update_view size_scaling robot_x robot_y v
                  (num ij.2 * size_scaling - _init_torso_x self)
                  (num ij.1 * size_scaling - _init_torso_y self) 0
           else v in
  let v := if py_eq c CHASM
           then update_view size_scaling robot_x robot_y v
                  (num ij.2 * size_scaling - _init_torso_x self)
                  (num ij.1 * size_scaling - _init_torso_y self) 1
           else v in
  Ok v.

(** The body of the loop over the movable blocks: channel 2. *)
Definition draw_block (self : AntMazeEnv E) (robot_x robot_y : Q)
    (v : view) (block : string * value) : view :=
  let '(block_x, block_y, _) := get_body_com block.1 (wrapped_env self) in
  update_view (MAZE_SIZE_SCALING self) robot_x robot_y v block_x block_y 2.

Definition get_top_down_view (self : AntMazeEnv E) : result view :=
  let v := initial_view in
  let '(robot_x, robot_y, _) := get_body_com "torso" (wrapped_env self) in
  v ← for_each (draw_cell self robot_x robot_y)
        (cell_range (MAZE_STRUCTURE self)) v;
  Ok (fold_left (draw_block self robot_x robot_y) (movable_blocks self) v).
End top_down_view.

(** The sum of a list of numbers, and the sum of channel [d] of a view. *)
Definition Qsum (l : list Q) : Q := foldr Qplus 0%Q l.
Definition channel_sum (v : view) (d : nat) : Q :=
  Qsum ((λ row, Qsum ((λ px, default 0%Q (px !! d)) <$> row)) <$> v).

(** The shape of a view, and views without negative entries. *)
Definition has_shape (rows cols depth : nat) (v : view) : Prop :=
  length v = rows ∧
  Forall (λ row, length row = cols ∧ Forall (λ px, length px = depth) row) v.
Definition nonneg_view (v : view) : Prop :=
  Forall (Forall (Forall (λ x, (0 <= x)%Q))) v.

(** The nine index pairs [update_view] writes to around [(row, col)], with
    the weight it adds at each, in the order of the source. *)
Definition neighbour_weights (row col : Z) (row_frac col_frac : Q)
    : list (Z * Z * Q) :=
  [(row, col, (share_centre row_frac * share_centre col_frac)%Q);
   ((row - 1)%Z, col, (share_before row_frac * share_centre col_frac)%Q);
   ((row + 1)%Z, col, (share_after row_frac * share_centre col_frac)%Q);
   (row, (col - 1)%Z, (share_centre row_frac * share_before col_frac)%Q);
   (row, (col + 1)%Z, (share_centre row_frac * share_after col_frac)%Q);
   ((row - 1)%Z, (col - 1)%Z, (share_before row_frac * share_before col_frac)%Q);
   ((row - 1)%Z, (col + 1)%Z, (share_before row_frac * share_after col_frac)%Q);
   ((row + 1)%Z, (col + 1)%Z, (share_after row_frac * share_after col_frac)%Q);
   ((row + 1)%Z, (col - 1)%Z, (share_after row_frac * share_before col_frac)%Q)].

(** A 5 x 5 x 3 view without negative entries whose channel sums are at
    most [b0], [b1] and [b2]. *)
Definition view_bounded (b0 b1 b2 : Q) (v : view) : Prop :=
  has_shape 5 5 3 v ∧ nonneg_view v ∧
  (channel_sum v 0 <= b0)%Q ∧ (channel_sum v 1 <= b1)%Q ∧ (channel_sum v 2 <= b2)%Q.

(** The number of elements of a list, as a rational. *)
Definition count {A} (l : list A) : Q := inject_Z (Z.of_nat (length l)).

(** The entry [v[r, c, d]] (0 outside the array). *)
Definition entry (v : view) (r c d : nat) : Q :=
  default 0%Q (px ← (row ← v !! r; row !! c); px !! d).

(** * Properties *)

(** ** The error monad and the grid loops *)

Lemma bind_Ok {A B} (m : result A) (f : A → result B) (b : B) :
  m ≫= f = Ok b ↔ ∃ a, m = Ok a ∧ f a = Ok b.
Proof.
  destruct m as [a|e]; simpl; split.
  - eauto.
  - by intros (? & [= <-] & ?).
  - discriminate.
  - by intros (? & ? & ?).
Qed.

Lemma py_eq_true (a b : value) : py_eq a b = true ↔ a = b.
Proof. unfold py_eq. by rewrite bool_decide_eq_true. Qed.

Lemma py_eq_false (a b : value) : py_eq a b = false ↔ a ≠ b.
Proof. unfold py_eq. by rewrite bool_decide_eq_false. Qed.

Lemma getitem_Ok {A} (l : list A) (i : nat) (a : A) :
  getitem l i = Ok a ↔ l !! i = Some a.
Proof. unfold getitem. destruct (l !! i); naive_solver. Qed.

Lemma cell_Ok (structure : grid) (i j : nat) (c : value) :
  cell structure i j = Ok c ↔ tag_at structure i j c.
Proof.
  unfold cell, tag_at. rewrite bind_Ok.
  by setoid_rewrite getitem_Ok.
Qed.

Lemma elem_of_cell_range (structure : grid) (i j : nat) :
  (i, j) ∈ cell_range structure ↔ i < length structure ∧ j < ncols structure.
Proof.
  unfold cell_range. rewrite list_elem_of_bind. split.
  - intros (i' & Hj & Hi). apply list_elem_of_fmap in Hj as (j' & [= -> ->] & Hj).
    apply elem_of_seq in Hi, Hj. lia.
  - intros [Hi Hj]. exists i. split.
    + apply list_elem_of_fmap. exists j. split; [done|]. apply elem_of_seq. lia.
    + apply elem_of_seq. lia.
Qed.

Lemma NoDup_cell_range (structure : grid) : NoDup (cell_range structure).
Proof.
  unfold cell_range. apply NoDup_bind.
  - intros i1 i2 [i j] _ _ H1 H2.
    apply list_elem_of_fmap in H1 as (? & [= -> ->] & _).
    apply list_elem_of_fmap in H2 as (? & [= -> ->] & _). done.
  - intros i _. apply NoDup_fmap_2; [|apply NoDup_seq]. by intros ?? [= ->].
  - apply NoDup_seq.
Qed.

(** In a 2-D array the loops read a tag at every index pair they visit,
    and they visit every tag. *)
Lemma rectangular_cell (structure : grid) (i j : nat) :
  rectangular structure → (i, j) ∈ cell_range structure →
  ∃ c, cell structure i j = Ok c.
Proof.
  intros Hrect [Hi Hj]%elem_of_cell_range.
  destruct (lookup_lt_is_Some_2 structure i Hi) as [row Hrow].
  pose proof (Forall_lookup_1 _ _ _ _ Hrect Hrow) as Hlen. simpl in Hlen.
  destruct (lookup_lt_is_Some_2 row j) as [c Hc]; [lia|].
  exists c. apply cell_Ok. by exists row.
Qed.

Lemma tag_at_cell_range (structure : grid) (i j : nat) (c : value) :
  rectangular structure → tag_at structure i j c → (i, j) ∈ cell_range structure.
Proof.
  intros Hrect (row & Hrow & Hc). apply elem_of_cell_range.
  pose proof (Forall_lookup_1 _ _ _ _ Hrect Hrow) as Hlen. simpl in Hlen.
  apply lookup_lt_Some in Hrow, Hc. lia.
Qed.

(** ** [_find_robot] and [_find_all_robots] *)

Lemma find_robot_from_first (structure : grid) (s : Q) (pre post : list (nat * nat)) (i j : nat) :
  Forall (λ ij, ∃ c, cell structure ij.1 ij.2 = Ok c ∧ c ≠ ROBOT) pre →
  cell structure i j = Ok ROBOT →
  _find_robot_from structure s (pre ++ (i, j) :: post) = Ok (robot_coords s (i, j)).
Proof.
  intros Hpre Hij. induction Hpre as [|[i' j'] pre (c & Hc & Hne) _ IH]; simpl.
  - by rewrite Hij.
  - simpl in Hc. rewrite Hc. simpl.
    apply py_eq_false in Hne. by rewrite Hne.
Qed.

Lemma find_robot_from_none (structure : grid) (s : Q) (cells : list (nat * nat)) :
  (∀ i j, ¬ tag_at structure i j ROBOT) →
  raises (_find_robot_from structure s cells).
Proof.
  intros Hnone. induction cells as [|[i j] cells IH]; simpl.
  - by eexists.
  - destruct (cell structure i j) as [c|e] eqn:Hc; simpl; [|by eexists].
    destruct (py_eq c ROBOT) eqn:Hr; [|done].
    apply py_eq_true in Hr as ->. apply cell_Ok in Hc. by destruct (Hnone i j).
Qed.

Lemma find_all_robots_filter (structure : grid) (s : Q)
    (cells : list (nat * nat)) (coords : list (Q * Q)) :
  Forall (λ ij, ∃ c, cell structure ij.1 ij.2 = Ok c) cells →
  for_each (λ '(i, j) coords,
      c ← cell structure i j;
      Ok (if py_eq c ROBOT
          then coords ++ [(num j * s, num i * s)%Q]
          else coords)) cells coords
  = Ok (coords ++ (robot_coords s <$>
          filter (λ ij, cell structure ij.1 ij.2 = Ok ROBOT) cells)).
Proof.
  intros Hcells. revert coords.
  induction Hcells as [|[i j] cells [c Hc] _ IH]; intros coords; simpl.
  - by rewrite app_nil_r.
  - simpl in Hc. rewrite Hc. simpl. rewrite IH.
    rewrite filter_cons. simpl. rewrite Hc.
    destruct (py_eq c ROBOT) eqn:Hr.
    + apply py_eq_true in Hr as ->. rewrite decide_True by done.
      by rewrite <-app_assoc.
    + apply py_eq_false in Hr. rewrite decide_False by congruence. done.
Qed.

Lemma filter_none {A} (P : A → Prop) `{∀ x, Decision (P x)} (l : list A) :
  Forall (λ x, ¬ P x) l → filter P l = [].
Proof.
  induction 1 as [|x l Hx _ IH]; [done|].
  by rewrite filter_cons, decide_False.
Qed.

Lemma filter_single {A} (P : A → Prop) `{∀ x, Decision (P x)} (l : list A) (x : A) :
  NoDup l → x ∈ l → P x → (∀ y, y ∈ l → P y → y = x) → filter P l = [x].
Proof.
  intros Hnd Hx HP Huniq.
  apply list_elem_of_split in Hx as (pre & post & ->).
  apply NoDup_app in Hnd as (_ & Hpre & Hpost).
  apply NoDup_cons in Hpost as [Hpost _].
  rewrite filter_app, filter_cons, decide_True by done.
  rewrite (filter_none P pre), (filter_none P post); [done|..].
  - apply Forall_forall. intros y Hy HPy.
    apply Hpost. rewrite <-(Huniq y); [done| |done].
    apply elem_of_app. right. by apply list_elem_of_further.
  - apply Forall_forall. intros y Hy HPy.
    apply (Hpre y Hy). rewrite (Huniq y); [apply list_elem_of_here| |done].
    apply elem_of_app. by left.
Qed.

Section find_robot.
Context {U : MazeEnvUtils} {E Info : Type} {PE : PhysicsEngine E Info}.

Lemma init_raises_without_robot (kw : kwargs) (torso : element) (structure : grid) :
  construct_maze (maze_id kw) = Ok structure →
  (∀ i j, ¬ tag_at structure i j ROBOT) →
  raises (__init__ (E:=E) kw torso).
Proof.
  intros Hmaze Hnone. unfold __init__. rewrite Hmaze. simpl.
  destruct (find_robot_from_none structure (maze_size_scaling kw)
              (cell_range structure) Hnone) as [e He].
  unfold _find_robot. rewrite He. by eexists.
Qed.
End find_robot.

(** C9. In a 2-D maze grid whose only robot-start cell is at row [i],
    column [j], [_find_robot] returns [(j * size_scaling, i * size_scaling)]
    and [_find_all_robots] returns the list of exactly that coordinate; in a
    grid with no robot-start cell [_find_robot] raises, and so does the
    constructor. *)
Theorem find_robot_single_start {U : MazeEnvUtils} {E Info : Type} {PE : PhysicsEngine E Info}
    (structure : grid) (size_scaling : Q) :
  (∀ i j,
     rectangular structure →
     tag_at structure i j ROBOT →
     (∀ i' j', tag_at structure i' j' ROBOT → i' = i ∧ j' = j) →
     _find_robot structure size_scaling
       = Ok (num j * size_scaling, num i * size_scaling)%Q ∧
     _find_all_robots structure size_scaling
       = Ok [(num j * size_scaling, num i * size_scaling)%Q]) ∧
  ((∀ i j, ¬ tag_at structure i j ROBOT) →
     raises (_find_robot structure size_scaling) ∧
     ∀ kw torso,
       construct_maze (maze_id kw) = Ok structure →
       raises (__init__ (E:=E) kw torso)).
Proof.
  split.
  - intros i j Hrect Hij Huniq.
    pose proof (tag_at_cell_range _ _ _ _ Hrect Hij) as Hin.
    pose proof (NoDup_cell_range structure) as Hnd.
    assert (Hvalid : Forall (λ ij, ∃ c, cell structure ij.1 ij.2 = Ok c)
                       (cell_range structure)).
    { apply Forall_forall. intros [i' j'] ?. by apply rectangular_cell. }
    split.
    + unfold _find_robot.
      destruct (list_elem_of_split _ _ Hin) as (pre & post & Heq).
      rewrite Heq in Hnd, Hvalid |- *.
      apply (find_robot_from_first structure size_scaling pre post i j);
        [|by apply cell_Ok].
      apply Forall_app in Hvalid as [Hpre _].
      apply NoDup_app in Hnd as (_ & Hfresh & _).
      apply Forall_forall. intros [i' j'] Hin'.
      destruct (proj1 (Forall_forall _ _) Hpre _ Hin') as [c Hc]. simpl in *.
      exists c. split; [done|]. intros ->.
      apply cell_Ok, Huniq in Hc as [-> ->].
      apply (Hfresh _ Hin'). apply list_elem_of_here.
    + unfold _find_all_robots. rewrite find_all_robots_filter by done.
      rewrite (filter_single _ _ (i, j)); [done|done|done| |].
      * by apply cell_Ok.
      * intros [i' j'] _ Hr. simpl in Hr. apply cell_Ok, Huniq in Hr as [-> ->]. done.
  - intros Hnone. split.
    + by apply find_robot_from_none.
    + intros kw torso Hmaze. by eapply init_raises_without_robot.
Qed.

Lemma find_robot_single_start_witness :
  (_find_robot Reference.one_robot 8 = Ok (num 0 * 8, num 0 * 8)%Q ∧
   _find_all_robots Reference.one_robot 8 = Ok [(num 0 * 8, num 0 * 8)%Q]) ∧
  raises (_find_robot Reference.no_robot 8).
Proof.
  split.
  - apply (proj1 (@find_robot_single_start (Reference.utils Reference.one_robot)
             _ _ Reference.engine Reference.one_robot 8) 0%nat 0%nat).
    + repeat constructor.
    + by exists [ROBOT; VInt 0; WALL].
    + intros i' j' (row & Hrow & Hc).
      destruct i' as [|[|i']]; simplify_eq/=.
      destruct j' as [|[|[|j']]]; simplify_eq/=. done.
  - apply (proj2 (@find_robot_single_start (Reference.utils Reference.no_robot)
             _ _ Reference.engine Reference.no_robot 8)).
    intros i j (row & Hrow & Hc).
    destruct i as [|[|i]]; simplify_eq/=.
    destruct j as [|[|[|j]]]; simplify_eq/=.
Defined.

(** ** Names of scene elements *)

Lemma string_of_uint_underscore_free (d : Decimal.uint) :
  underscore_free (NilEmpty.string_of_uint d).
Proof. induction d; simpl; (split; [discriminate|done]) || done. Qed.

Lemma fmt_d_underscore_free (n : nat) : underscore_free (fmt_d n).
Proof. apply string_of_uint_underscore_free. Qed.

Lemma fmt_d_inj (n m : nat) : fmt_d n = fmt_d m → n = m.
Proof.
  unfold fmt_d. intros Heq.
  assert (Some (Nat.to_uint n) = Some (Nat.to_uint m)) as [= Hu].
  { by rewrite <-!NilEmpty.usu, Heq. }
  by rewrite <-(Unsigned.of_to n), <-(Unsigned.of_to m), Hu.
Qed.

(** Two [a_b] strings agree only if both parts agree. *)
Lemma underscore_split (a a' b b' : string) :
  underscore_free a → underscore_free a' →
  a +:+ String "_" b = a' +:+ String "_" b' → a = a' ∧ b = b'.
Proof.
  revert a'. induction a as [|c a IH]; intros [|c' a']; simpl.
  - by intros _ _ [= ->].
  - by intros _ [Hc' _] [= <- _].
  - by intros [Hc _] _ [= -> _].
  - intros [_ Ha] [_ Ha'] [= -> Heq].
    by destruct (IH a' Ha Ha' Heq) as [-> ->].
Qed.

Lemma name_ij_inj (prefix : string) (i j i' j' : nat) :
  name_ij prefix i j = name_ij prefix i' j' → i = i' ∧ j = j'.
Proof.
  unfold name_ij. intros Heq%String.app_inj.
  apply underscore_split in Heq as [Hi Hj]; [|apply fmt_d_underscore_free..].
  by apply fmt_d_inj in Hi as ->, Hj as ->.
Qed.

(** ** The compiled scene *)

Lemma bind_Ok_l {A B} (a : A) (f : A → result B) : Ok a ≫= f = f a.
Proof. done. Qed.

Lemma for_each_cons {A S} (body : A → S → result S) (a : A) (l : list A) (s : S) :
  for_each body (a :: l) s = body a s ≫= for_each body l.
Proof. done. Qed.

Lemma descendants_children (tag : string) (a : list (string * attr)) (cs : list element) :
  descendants (Element tag a cs) = cs ≫= λ c, c :: descendants c.
Proof. simpl. induction cs as [|c cs IH]; [done|]. simpl. by rewrite IH. Qed.

Lemma scene_geoms_app (l1 l2 : list element) :
  scene_geoms (l1 ++ l2) = scene_geoms l1 ++ scene_geoms l2.
Proof.
  unfold scene_geoms, findall. rewrite !descendants_children.
  by rewrite bind_app, filter_app.
Qed.

Lemma scene_geoms_bind {A} (g : A → list element) (l : list A) :
  scene_geoms (l ≫= g) = l ≫= λ x, scene_geoms (g x).
Proof.
  induction l as [|x l IH]; [done|].
  rewrite !bind_cons, scene_geoms_app. by rewrite IH.
Qed.

Lemma fmap_list_bind {A B C} (f : B → C) (g : A → list B) (l : list A) :
  f <$> (l ≫= g) = l ≫= λ x, f <$> g x.
Proof.
  induction l as [|x l IH]; [done|].
  by rewrite !bind_cons, fmap_app, IH.
Qed.

Lemma tag_of_cell_Ok (structure : grid) (ij : nat * nat) (c : value) :
  cell structure ij.1 ij.2 = Ok c → tag_of_cell structure ij = c.
Proof. intros Hc. unfold tag_of_cell. by rewrite Hc. Qed.

Section scene_properties.
Context {U : MazeEnvUtils}.
Variables (structure : grid) (height size_scaling torso_x torso_y height_offset : Q).
Variables (is_elevated spin_near_agent : bool).

Local Abbreviation cell_elements' :=
  (cell_elements structure height size_scaling torso_x torso_y height_offset
     is_elevated spin_near_agent).
Local Abbreviation cell_blocks' := (cell_blocks spin_near_agent).
Local Abbreviation compile_cell' :=
  (compile_cell structure height size_scaling torso_x torso_y height_offset
     is_elevated spin_near_agent).

Lemma compile_cell_Ok (ij : nat * nat) (c : value)
    (st : list element * list (string * value)) :
  cell structure ij.1 ij.2 = Ok c →
  compile_cell' ij st
  = Ok (st.1 ++ cell_elements' ij.1 ij.2 c, st.2 ++ cell_blocks' ij.1 ij.2 c).
Proof. intros Hc. unfold compile_cell. by rewrite Hc. Qed.

(** On index pairs inside the grid the loop is a concatenation. *)
Lemma compile_cells_spec (cells : list (nat * nat))
    (st : list element * list (string * value)) :
  Forall (λ ij, ∃ c, cell structure ij.1 ij.2 = Ok c) cells →
  for_each compile_cell' cells st
  = Ok (st.1 ++ (cells ≫= λ ij, cell_elements' ij.1 ij.2 (tag_of_cell structure ij)),
        st.2 ++ (cells ≫= λ ij, cell_blocks' ij.1 ij.2 (tag_of_cell structure ij))).
Proof.
  intros Hcells. revert st.
  induction Hcells as [|ij cells [c Hc] _ IH]; intros [elems blocks].
  - simpl. by rewrite !app_nil_r.
  - rewrite for_each_cons, (compile_cell_Ok _ c) by done.
    rewrite bind_Ok_l, IH, !bind_cons.
    rewrite (tag_of_cell_Ok _ ij c) by done. simpl. by rewrite <-!app_assoc.
Qed.

Lemma compile_cells_valid (cells : list (nat * nat))
    (st st' : list element * list (string * value)) :
  for_each compile_cell' cells st = Ok st' →
  Forall (λ ij, ∃ c, cell structure ij.1 ij.2 = Ok c) cells.
Proof.
  revert st. induction cells as [|ij cells IH]; intros st; [constructor|].
  rewrite for_each_cons. intros (st1 & Hcell & Hrest)%bind_Ok.
  constructor; [|by eapply IH].
  unfold compile_cell in Hcell. apply bind_Ok in Hcell as (c & Hc & _). eauto.
Qed.

Lemma compile_scene_rectangular :
  rectangular structure →
  compile_scene structure height size_scaling torso_x torso_y height_offset
    is_elevated spin_near_agent
  = Ok (cell_range structure ≫= (λ ij, cell_elements' ij.1 ij.2 (tag_of_cell structure ij)),
        cell_range structure ≫= (λ ij, cell_blocks' ij.1 ij.2 (tag_of_cell structure ij))).
Proof.
  intros Hrect. unfold compile_scene. rewrite compile_cells_spec; [done|].
  apply Forall_forall. intros [i j] ?. by apply rectangular_cell.
Qed.

(** The geoms one cell contributes: the platform, then the block. *)
Lemma cell_geoms (i j : nat) (c : value) :
  name_of <$> scene_geoms (cell_elements' i j c)
  = (if is_elevated && negb (py_in (effective_struct spin_near_agent c) [CHASM])
     then [Some (Text (name_ij "elevated_" i j))] else [])
    ++ (if py_eq (effective_struct spin_near_agent c) WALL
           || can_move (effective_struct spin_near_agent c)
        then [Some (Text (name_ij "block_" i j))] else []).
Proof.
  unfold cell_elements. rewrite scene_geoms_app, fmap_app.
  f_equal.
  - by destruct (is_elevated && _).
  - destruct (py_eq _ WALL); [done|]. simpl.
    destruct (can_move _); [|done].
    unfold movable_body.
    by destruct (can_move_x _), (can_move_y _), (can_move_z _), (can_spin _).
Qed.

Lemma cell_geoms_named (i j : nat) (c : value) (n : option attr) :
  n ∈ name_of <$> scene_geoms (cell_elements' i j c) →
  n = Some (Text (name_ij "elevated_" i j)) ∨ n = Some (Text (name_ij "block_" i j)).
Proof.
  rewrite cell_geoms. intros [Hn|Hn]%elem_of_app.
  - destruct (is_elevated && _); [|by apply elem_of_nil in Hn].
    apply list_elem_of_singleton in Hn. by left.
  - destruct (py_eq _ _ || _); [|by apply elem_of_nil in Hn].
    apply list_elem_of_singleton in Hn. by right.
Qed.

Lemma cell_geoms_NoDup (i j : nat) (c : value) :
  NoDup (name_of <$> scene_geoms (cell_elements' i j c)).
Proof.
  rewrite cell_geoms.
  destruct (is_elevated && _), (py_eq _ _ || _); simpl;
    repeat first [apply NoDup_nil_2 | apply NoDup_cons_2];
    rewrite ?elem_of_nil, ?list_elem_of_singleton; try tauto.
  unfold name_ij. simpl. discriminate.
Qed.

Lemma scene_geom_names_NoDup (cells : list (nat * nat)) :
  NoDup cells →
  NoDup (name_of <$>
    scene_geoms (cells ≫= λ ij, cell_elements' ij.1 ij.2 (tag_of_cell structure ij))).
Proof.
  intros Hnd. rewrite scene_geoms_bind, fmap_list_bind.
  apply NoDup_bind; [|intros; apply cell_geoms_NoDup|done].
  intros [i1 j1] [i2 j2] n _ _ H1 H2.
  apply cell_geoms_named in H1, H2. cbn [fst snd] in H1, H2.
  assert (Hinj : ∀ a b, Some (Text a) = Some (Text b) → a = b)
    by (by intros ?? [= ->]).
  destruct H1 as [-> | ->], H2 as [Hn | Hn]; apply Hinj in Hn.
  - by apply name_ij_inj in Hn as [-> ->].
  - unfold name_ij in Hn. simpl in Hn. discriminate.
  - unfold name_ij in Hn. simpl in Hn. discriminate.
  - by apply name_ij_inj in Hn as [-> ->].
Qed.

Lemma scene_geoms_all_named (cells : list (nat * nat)) :
  Forall (λ n, is_Some n) (name_of <$>
    scene_geoms (cells ≫= λ ij, cell_elements' ij.1 ij.2 (tag_of_cell structure ij))).
Proof.
  rewrite scene_geoms_bind, fmap_list_bind.
  apply Forall_forall. intros n (ij & Hn & _)%list_elem_of_bind.
  by apply cell_geoms_named in Hn as [-> | ->].
Qed.
End scene_properties.

(** The check passes exactly when every geom has a [name] attribute. *)
Lemma check_torso_geoms_Ok (geoms : list element) :
  check_torso_geoms geoms = Ok () ↔
  Forall (λ g, has_key "name" (attrib_of g) = true) geoms.
Proof.
  induction geoms as [|g geoms IH]; simpl.
  - split; [constructor|done].
  - rewrite Forall_cons. destruct (has_key _ _); simpl.
    + rewrite IH. tauto.
    + split; [discriminate|]. by intros [? _].
Qed.

Lemma check_torso_geoms_cases (geoms : list element) :
  check_torso_geoms geoms = Ok () ∨
  check_torso_geoms geoms
    = Raise (Exception "Every geom of the torso must have a name defined").
Proof.
  induction geoms as [|g geoms IH]; simpl; [by left|].
  destruct (has_key _ _); simpl; [done|by right].
Qed.

Section constructor_check.
Context {U : MazeEnvUtils} {E Info : Type} {PE : PhysicsEngine E Info}.

Lemma init_raises_on_unnamed_geom (kw : kwargs) (torso : element) :
  ¬ Forall (λ g, has_key "name" (attrib_of g) = true) (findall "geom" torso) →
  raises (__init__ (E:=E) kw torso).
Proof.
  intros Hunnamed. unfold __init__.
  destruct (construct_maze _) as [structure|]; simpl; [|by eexists].
  destruct (_find_robot _ _) as [torso_xy|]; simpl; [|by eexists].
  destruct (_find_all_robots _ _) as [robots|]; simpl; [|by eexists].
  destruct (compile_scene _ _ _ _ _ _ _ _) as [compiled|]; simpl; [|by eexists].
  destruct (check_torso_geoms_cases (findall "geom" torso)) as [Hok| ->].
  - by apply check_torso_geoms_Ok in Hok.
  - by eexists.
Qed.
End constructor_check.

(** C3, as the code has it. The geoms the scene compiler adds all carry a
    name, and no two of them carry the same one, whatever the grid; on a 2-D
    grid the compiler returns. The check after the loop does not compare
    names: it passes exactly when every geom below the torso body has a
    [name] attribute, and the constructor raises when one has none. *)
Theorem scene_geom_names_distinct {U : MazeEnvUtils} {E Info : Type} {PE : PhysicsEngine E Info}
    (structure : grid) (height size_scaling torso_x torso_y height_offset : Q)
    (is_elevated spin_near_agent : bool) (torso : element) :
  (∀ compiled,
     compile_scene structure height size_scaling torso_x torso_y height_offset
       is_elevated spin_near_agent = Ok compiled →
     Forall (λ n, is_Some n) (name_of <$> scene_geoms compiled.1) ∧
     NoDup (name_of <$> scene_geoms compiled.1)) ∧
  (rectangular structure →
     ∃ compiled,
       compile_scene structure height size_scaling torso_x torso_y height_offset
         is_elevated spin_near_agent = Ok compiled) ∧
  (check_torso_geoms (findall "geom" torso) = Ok () ↔
     Forall (λ g, has_key "name" (attrib_of g) = true) (findall "geom" torso)) ∧
  (∀ kw,
     ¬ Forall (λ g, has_key "name" (attrib_of g) = true) (findall "geom" torso) →
     raises (__init__ (E:=E) kw torso)).
Proof.
  split; [|split; [|split]].
  - intros compiled Hcompiled.
    pose proof (compile_cells_valid _ _ _ _ _ _ _ _ _ _ _ Hcompiled) as Hvalid.
    unfold compile_scene in Hcompiled.
    rewrite compile_cells_spec in Hcompiled by done.
    injection Hcompiled as <-. simpl. split.
    + apply scene_geoms_all_named.
    + apply scene_geom_names_NoDup, NoDup_cell_range.
  - intros Hrect. eexists. by apply compile_scene_rectangular.
  - apply check_torso_geoms_Ok.
  - intros kw. apply init_raises_on_unnamed_geom.
Qed.

Lemma scene_geom_names_distinct_witness :
  ∃ compiled,
    @compile_scene (Reference.utils Reference.one_robot)
      Reference.one_robot 0.5 8 0 0 0 false false = Ok compiled ∧
    NoDup (name_of <$> scene_geoms compiled.1) ∧
    raises (@__init__ (Reference.utils Reference.one_robot) _ _ Reference.engine
              (Reference.kw false false 1)
              (Element "body" [] [Element "geom" [("type", Text "sphere")] []])).
Proof.
  destruct (@scene_geom_names_distinct (Reference.utils Reference.one_robot)
              _ _ Reference.engine Reference.one_robot 0.5 8 0 0 0 false false
              (Element "body" [] [Element "geom" [("type", Text "sphere")] []]))
    as (Hnames & Hreturns & _ & Hraises).
  destruct Hreturns as [compiled Hcompiled]; [repeat constructor|].
  exists compiled. split; [done|]. split.
  - by apply Hnames.
  - apply Hraises. intros Hall. by apply Forall_cons in Hall as [? _].
Defined.

(** C3, as stated, fails: a model file whose torso has two geoms of one
    name, the name the compiler gives the wall at [(0, 2)], passes the check
    and the constructor returns. *)
Lemma duplicate_geom_names_accepted :
  let torso :=
    Element "body" [("name", Text "torso")]
      [Element "geom" [("name", Text "block_0_2")] [];
       Element "geom" [("name", Text "block_0_2")] []] in
  ¬ NoDup (name_of <$> findall "geom" torso) ∧
  ¬ raises (@__init__ (Reference.utils Reference.one_robot) _ _ Reference.engine
              (Reference.kw false false 1) torso) ∧
  ∃ compiled,
    @compile_scene (Reference.utils Reference.one_robot)
      Reference.one_robot 0.5 8 0 0 0 false false = Ok compiled ∧
    Some (Text "block_0_2") ∈ name_of <$> scene_geoms compiled.1.
Proof.
  split; [|split].
  - intros Hnd. apply NoDup_cons in Hnd as [Hnotin _].
    apply Hnotin. apply list_elem_of_here.
  - intros [e He]. vm_compute in He. discriminate.
  - eexists. split; [reflexivity|]. apply list_elem_of_here.
Qed.

(** ** The range sensor *)

Lemma Qle_bool_false (x y : Q) : Qle_bool x y = false → (y < x)%Q.
Proof.
  intros Hb. apply Qnot_le_lt. intros Hle%Qle_bool_iff. congruence.
Qed.

Lemma insert_middle {A} (l1 l2 : list A) (x y : A) :
  <[length l1 := y]> (l1 ++ x :: l2) = l1 ++ y :: l2.
Proof. induction l1 as [|z l1 IH]; [done|]. simpl. by rewrite IH. Qed.

(** The head of the sorted list is a nearest element. *)
Lemma sorted_by_distance_head (l : list ray_segment) :
  match sorted_by_distance l with
  | [] => l = []
  | first_seg :: _ =>
      first_seg ∈ l ∧ ∀ h, h ∈ l → (hit_distance first_seg <= hit_distance h)%Q
  end.
Proof.
  induction l as [|x l IH]; [done|]. simpl.
  destruct (sorted_by_distance l) as [|y r]; simpl.
  - subst l. split; [apply list_elem_of_here|].
    intros h ->%list_elem_of_singleton. apply Qle_refl.
  - destruct IH as [Hy Hmin].
    destruct (Qle_bool (hit_distance x) (hit_distance y)) eqn:Hxy.
    + apply Qle_bool_iff in Hxy. split; [apply list_elem_of_here|].
      intros h [->|Hh]%elem_of_cons; [apply Qle_refl|].
      eapply Qle_trans; [done|by apply Hmin].
    + apply Qle_bool_false in Hxy. split; [by apply list_elem_of_further|].
      intros h [->|Hh]%elem_of_cons; [by apply Qlt_le_weak|by apply Hmin].
Qed.

Lemma py_in_wall_chasm (c : value) :
  py_in c [WALL; CHASM] = true → c = WALL ∨ c = CHASM.
Proof.
  unfold py_in. simpl. rewrite !orb_true_iff, !py_eq_true.
  intros [?|[?|?]]; [by left|by right|done].
Qed.

Lemma struct_segments_typed (P : typed_segment → Prop) (c : value) (x1 x2 y1 y2 : Q) :
  (∀ seg, P {| seg_segment := seg; seg_type := c |}) →
  Forall P (map (λ seg, {| seg_segment := seg; seg_type := c |})
              (struct_segments x1 x2 y1 y2)).
Proof. intros HP. unfold struct_segments. simpl. by repeat apply Forall_cons_2. Qed.

Section sensor_properties.
Context {U : MazeEnvUtils} {E Info : Type} {PE : PhysicsEngine E Info}.
Local Open Scope Q_scope.

Lemma channel_of_lt (v : value) (c : nat) : channel_of v = Some c → (c < 3)%nat.
Proof.
  unfold channel_of.
  destruct (py_eq v WALL); [intros [= <-]; lia|].
  destruct (py_eq v CHASM); [intros [= <-]; lia|].
  destruct (can_move v); [intros [= <-]; lia|done].
Qed.

Lemma channel_of_known (v : value) :
  known_type v → ∃ c, channel_of v = Some c ∧ (c < 3)%nat.
Proof.
  intros Hknown.
  destruct (channel_of v) as [c|] eqn:Hc; [by eauto using channel_of_lt|].
  unfold channel_of in Hc. destruct Hknown as [->|[->|Hmove]]; [done..|].
  rewrite Hmove in Hc. by destruct (py_eq v WALL), (py_eq v CHASM).
Qed.

Lemma static_segments_cell_Ok (self : AntMazeEnv E) (ij : nat * nat) (c : value)
    (segments : list typed_segment) :
  cell (MAZE_STRUCTURE self) ij.1 ij.2 = Ok c →
  static_segments_cell self ij segments
  = Ok (if py_in c [WALL; CHASM] then segments ++ cell_outline self ij c
        else segments).
Proof.
  intros Hc. unfold static_segments_cell. rewrite Hc, bind_Ok_l.
  by destruct (py_in c _).
Qed.

Lemma static_segments_loop (self : AntMazeEnv E) (cells : list (nat * nat))
    (segments : list typed_segment) :
  Forall (λ ij, ∃ c, cell (MAZE_STRUCTURE self) ij.1 ij.2 = Ok c) cells →
  Forall (λ seg, known_type (seg_type seg)) segments →
  ∃ segments',
    for_each (static_segments_cell self) cells segments = Ok segments' ∧
    Forall (λ seg, known_type (seg_type seg)) segments'.
Proof.
  intros Hcells. revert segments.
  induction Hcells as [|ij cells [c Hc] _ IH]; intros segments Hsegs.
  - by exists segments.
  - rewrite for_each_cons, (static_segments_cell_Ok _ _ c), bind_Ok_l by done.
    destruct (py_in c [WALL; CHASM]) eqn:Hin; [|by apply IH].
    apply IH. apply Forall_app. split; [done|].
    apply py_in_wall_chasm in Hin.
    apply struct_segments_typed. intros seg. unfold known_type. simpl. tauto.
Qed.

Lemma block_segments_known (self : AntMazeEnv E) (robot_z : Q)
    (segments : list typed_segment) :
  Forall (λ block, can_move block.2 = true) (movable_blocks self) →
  Forall (λ seg, known_type (seg_type seg)) segments →
  Forall (λ seg, known_type (seg_type seg)) (block_segments self robot_z segments).
Proof.
  unfold block_segments. intros Hblocks. revert segments.
  induction Hblocks as [|block blocks Hmove _ IH]; intros segments Hsegs; [done|].
  simpl. apply IH.
  destruct (get_body_com _ _) as [[block_x block_y] block_z].
  destruct (_ && _); [|done].
  apply Forall_app. split; [done|].
  apply struct_segments_typed. intros seg. unfold known_type. simpl. tauto.
Qed.

(** In a consistent environment the segment list is built without error
    and holds walls, chasms and movable blocks only. *)
Lemma sensor_segments_known (self : AntMazeEnv E) :
  consistent self →
  ∃ segments,
    sensor_segments self = Ok segments ∧
    Forall (λ seg, known_type (seg_type seg)) segments.
Proof.
  intros (Hcells & Hblocks & _). unfold sensor_segments.
  destruct (get_body_com _ _) as [[robot_x robot_y] robot_z].
  destruct (static_segments_loop self _ [] Hcells) as (segs & Hsegs & Hknown);
    [constructor|].
  unfold static_segments. rewrite Hsegs, bind_Ok_l.
  eexists. split; [done|]. by apply block_segments_known.
Qed.

Lemma ray_segments_of_types (origin : point) (ray_ori : Q)
    (segments : list typed_segment) (P : value → Prop) :
  Forall (λ seg, P (seg_type seg)) segments →
  Forall (λ h, P (hit_type h) ∧ hit_ray_ori h = ray_ori)
    (ray_segments_of origin ray_ori segments).
Proof.
  intros Hsegs. unfold ray_segments_of.
  induction Hsegs as [|seg segments Hseg _ IH]; [constructor|].
  simpl. destruct (ray_segment_intersect _ _); [|done].
  by constructor.
Qed.

(** One iteration of the ray loop on a row of zeros. *)
Lemma cast_ray_zero_row (self : AntMazeEnv E) (origin : point)
    (segments : list typed_segment) (ray_idx : nat) (readings : list (list Q)) :
  readings !! ray_idx = Some [0; 0; 0] →
  cast_ray self origin segments ray_idx readings
  = Ok (<[ray_idx :=
           ray_reading self
             (ray_segments_of origin (ray_ori_of self ray_idx) segments)]> readings).
Proof.
  intros Hrow. unfold cast_ray, ray_reading.
  set (hits := ray_segments_of _ _ _).
  pose proof (sorted_by_distance_head hits) as Hhead.
  destruct (sorted_by_distance hits) as [|first_seg rest].
  - rewrite Hhead. simpl. by rewrite list_insert_id.
  - destruct Hhead as [Hin _].
    rewrite bool_decide_eq_true_2
      by (destruct hits; [by apply elem_of_nil in Hin|simpl; lia]).
    simpl.
    destruct (Qle_bool _ _); [|by rewrite list_insert_id].
    unfold getitem. rewrite Hrow. simpl.
    destruct (channel_of (hit_type first_seg)) as [c|] eqn:Hc; simpl; [|done].
    apply channel_of_lt in Hc. by rewrite bool_decide_eq_true_2.
Qed.

(** The loop over rays fills the rows one after the other. *)
Lemma cast_rays_from (self : AntMazeEnv E) (origin : point)
    (segments : list typed_segment) (m : nat) (filled : list (list Q)) :
  for_each (cast_ray self origin segments) (seq (length filled) m)
    (filled ++ replicate m [0; 0; 0])
  = Ok (filled ++
        ((λ k, ray_reading self
                 (ray_segments_of origin (ray_ori_of self k) segments))
         <$> seq (length filled) m)).
Proof.
  revert filled. induction m as [|m IH]; intros filled; [done|].
  rewrite <-cons_seq, replicate_S, for_each_cons.
  rewrite cast_ray_zero_row by by apply list_lookup_middle.
  rewrite bind_Ok_l, insert_middle, fmap_cons.
  rewrite !(cons_middle _ filled).  rewrite !app_assoc.
  specialize (IH (filled ++ [ray_reading self
    (ray_segments_of origin (ray_ori_of self (length filled)) segments)])).
  rewrite length_app in IH. simpl in IH.
  by rewrite Nat.add_1_r in IH.
Qed.

(** The reading matrix of a call that gets past the segment list. *)
Lemma get_range_sensor_obs_rows (self : AntMazeEnv E) (segments : list typed_segment) :
  (0 <= _n_bins self)%Z →
  sensor_segments self = Ok segments →
  get_range_sensor_obs self
  = Ok ((λ k, ray_reading self (ray_hits self segments k))
        <$> seq 0 (Z.to_nat (_n_bins self))).
Proof.
  intros Hbins Hsegs. unfold get_range_sensor_obs, ray_hits, robot_xy.
  destruct (get_body_com _ _) as [[robot_x robot_y] robot_z].
  rewrite Hsegs, bind_Ok_l. unfold np_zeros.
  destruct (Z.ltb_spec (_n_bins self) 0); [lia|].
  rewrite bind_Ok_l. apply (cast_rays_from self _ segments _ []).
Qed.
End sensor_properties.

(** ** What every reachable environment satisfies *)

Section invariant.
Context {U : MazeEnvUtils} {E Info : Type} {PE : PhysicsEngine E Info} {G : Type} {RNG : Random G}.

Lemma cell_blocks_movable (spin : bool) (cells : list (nat * nat)) (structure : grid) :
  Forall (λ block : string * value, can_move block.2 = true)
    (cells ≫= λ ij, cell_blocks spin ij.1 ij.2 (tag_of_cell structure ij)).
Proof.
  apply Forall_forall. intros block (ij & Hblock & _)%list_elem_of_bind.
  unfold cell_blocks in Hblock.
  destruct (py_eq _ WALL); [by apply elem_of_nil in Hblock|].
  destruct (can_move _) eqn:Hmove; [|by apply elem_of_nil in Hblock].
  by apply list_elem_of_singleton in Hblock as ->.
Qed.

Lemma init_consistent (kw : kwargs) (torso : element) (self : AntMazeEnv E) :
  __init__ kw torso = Ok self → consistent self.
Proof.
  unfold __init__.
  intros (structure & _ & Hrest)%bind_Ok.
  apply bind_Ok in Hrest as (torso_xy & Hrobot & Hrest).
  apply bind_Ok in Hrest as (robots & Hrobots & Hrest).
  apply bind_Ok in Hrest as (compiled & Hcompiled & Hrest).
  apply bind_Ok in Hrest as (_ & _ & [= <-]).
  pose proof (compile_cells_valid _ _ _ _ _ _ _ _ _ _ _ Hcompiled) as Hvalid.
  unfold compile_scene in Hcompiled.
  rewrite compile_cells_spec in Hcompiled by done.
  injection Hcompiled as <-.
  split; [done|]. split; [apply cell_blocks_movable|].
  exists robots. simpl. by destruct torso_xy.
Qed.

Lemma consistent_with_state (self : AntMazeEnv E) (t' : option Z)
    (trajectory' : option (list point)) (e : E) :
  consistent self → consistent (with_state self t' trajectory' e).
Proof. done. Qed.

Lemma reset_with_state (g g' : G) (self self' : AntMazeEnv E) (obs : list Q) :
  reset g self = Ok (obs, self', g') →
  ∃ e, self' = with_state self (Some 0%Z) (Some []) e.
Proof.
  unfold reset. case_bool_decide.
  - intros (chosen & _ & (obs' & _ & [= _ <- _])%bind_Ok)%bind_Ok. by eexists.
  - intros (obs' & _ & [= _ <- _])%bind_Ok. by eexists.
Qed.

Lemma step_with_state (action : list Q) (self self' : AntMazeEnv E)
    (out : list Q * Q * bool * Info) :
  step action self = Ok (out, self') →
  ∃ t' e, self' = with_state self t' (trajectory self) e.
Proof.
  unfold step. intros (t0 & _ & Hrest)%bind_Ok. simpl in Hrest.
  destruct (_manual_collision self).
  - destruct (wrapped_step _ _) as [[[[inner_next_obs inner_reward] done] info] e].
    apply bind_Ok in Hrest as ([] & _ & Hrest);
      apply bind_Ok in Hrest as (next_obs & _ & [= _ <-]); by eexists _, _.
  - destruct (wrapped_step _ _) as [[[[inner_next_obs inner_reward] done] info] e].
    apply bind_Ok in Hrest as (next_obs & _ & [= _ <-]). by eexists _, _.
Qed.

Lemma reachable_consistent (self : AntMazeEnv E) :
  reachable self → consistent self.
Proof.
  induction 1 as [kw torso self Hinit
                 |g self obs self' g' _ IH Hreset
                 |action self out self' _ IH Hstep].
  - by eapply init_consistent.
  - apply reset_with_state in Hreset as [e ->]. by apply consistent_with_state.
  - apply step_with_state in Hstep as (t' & e & ->). by apply consistent_with_state.
Qed.
End invariant.

(** ** Claims on the range sensor *)

Lemma reading_strength_bounds (range d : Q) :
  (0 < range)%Q → (0 <= d)%Q → (d <= range)%Q →
  (0 <= (range - d) / range ∧ (range - d) / range <= 1)%Q.
Proof.
  intros Hrange Hd Hle. split.
  - apply Qle_shift_div_l; [done|]. lra.
  - apply Qle_shift_div_r; [done|]. lra.
Qed.

Lemma unit_interval_insert (c : nat) (v : Q) :
  (0 <= v ∧ v <= 1)%Q →
  Forall (λ x, (0 <= x ∧ x <= 1)%Q) (<[c := v]> [0; 0; 0]%Q).
Proof.
  intros Hv. destruct c as [|[|[|c]]]; simpl;
    repeat (apply Forall_cons_2; [done || (split; lra)|]); apply Forall_nil_2.
Qed.

Lemma ray_segments_of_nonneg {U : MazeEnvUtils} (origin : point) (ray_ori : Q)
    (segments : list typed_segment) :
  (∀ p q, 0 <= point_distance p q)%Q →
  Forall (λ h, 0 <= hit_distance h)%Q (ray_segments_of origin ray_ori segments).
Proof.
  intros Hdist. unfold ray_segments_of.
  induction segments as [|seg segments IH]; [constructor|].
  simpl. destruct (ray_segment_intersect _ _); [|done].
  constructor; [apply Hdist|done].
Qed.

(** C10. In every environment a program can hold, the segment list of
    [get_range_sensor_obs] is built without error and every segment in it
    has the type of a wall, of a chasm or of a movable block; so the channel
    index of the nearest segment of any ray is 0, 1 or 2, never [None]. *)
Theorem sensor_channel_never_none {U : MazeEnvUtils} {E Info : Type} {PE : PhysicsEngine E Info} {G : Type} {RNG : Random G}
    (self : AntMazeEnv E) :
  reachable (G:=G) self →
  ∃ segments,
    sensor_segments self = Ok segments ∧
    Forall (λ seg, known_type (seg_type seg)) segments ∧
    ∀ ray_idx first_seg,
      head (sorted_by_distance (ray_hits self segments ray_idx)) = Some first_seg →
      ∃ c, channel_of (hit_type first_seg) = Some c ∧ (c < 3)%nat.
Proof.
  intros Hreach%reachable_consistent.
  destruct (sensor_segments_known self Hreach) as (segments & Hsegs & Hknown).
  exists segments. split; [done|]. split; [done|].
  intros ray_idx first_seg Hhead.
  pose proof (sorted_by_distance_head (ray_hits self segments ray_idx)) as Hmin.
  destruct (sorted_by_distance _) as [|fs rest]; [done|].
  injection Hhead as ->. destruct Hmin as [Hin _].
  apply channel_of_known.
  pose proof (ray_segments_of_types (robot_xy self) (ray_ori_of self ray_idx)
                segments known_type Hknown) as Htypes.
  by destruct (proj1 (Forall_forall _ _) Htypes _ Hin).
Qed.

Lemma sensor_channel_never_none_witness :
  ∃ self : AntMazeEnv point,
    __init__ (U:=Reference.utils Reference.one_robot)
      (Reference.kw true false 1) Reference.torso = Ok self ∧
    ∃ segments,
      sensor_segments self = Ok segments ∧
      Forall (λ seg, known_type (U:=Reference.utils Reference.one_robot) (seg_type seg))
        segments.
Proof.
  eexists. split; [vm_compute; reflexivity|].
  match goal with
  | |- context [sensor_segments ?s] =>
      destruct (sensor_channel_never_none (U:=Reference.utils Reference.one_robot)
                  (G:=nat) s) as (segments & Hsegs & Hknown & _)
  end.
  - eapply (reachable_init (Reference.kw true false 1) Reference.torso).
    vm_compute. reflexivity.
  - by exists segments.
Defined.

Lemma elem_of_ray_segments_of {U : MazeEnvUtils} (origin : point) (ray_ori : Q)
    (segments : list typed_segment) (h : ray_segment) :
  h ∈ ray_segments_of origin ray_ori segments ↔
  ∃ seg p,
    seg ∈ segments ∧
    ray_segment_intersect (origin, ray_ori) (seg_segment seg) = Some p ∧
    h = {| hit_segment := seg_segment seg;
           hit_type := seg_type seg;
           hit_ray_ori := ray_ori;
           hit_distance := point_distance p origin |}.
Proof.
  unfold ray_segments_of. rewrite list_elem_of_omap. split.
  - intros (seg & Hseg & Hhit).
    destruct (ray_segment_intersect _ _) as [p|] eqn:Hp; [|done].
    injection Hhit as <-. by exists seg, p.
  - intros (seg & p & Hseg & Hp & ->). exists seg. by rewrite Hp.
Qed.

(** C5. In every environment a program can hold, with a non-negative ray
    count, the sensor returns a matrix in which the row of each ray is as
    follows. The segments the ray meets are those of the segment list for
    which [ray_segment_intersect], called with the ray from the robot's
    position at the angle of the ray, returns a point, in the order of the
    list, each with the [point_distance] from that point to the robot. If
    no segment of the list is met, the row is zero. Otherwise the first
    segment of the sorted list is one the ray meets and no segment of the
    list is met at a smaller distance; if its distance [d] is at most the
    sensor range, the row is zero except for [(range - d) / range] in the
    channel of its type (0 for a wall, 1 for a chasm, 2 for a movable
    block), and if it is farther the row is zero. With a positive range and
    non-negative distances every entry lies between 0 and 1. *)
Theorem sensor_reading_channels {U : MazeEnvUtils} {E Info : Type} {PE : PhysicsEngine E Info} {G : Type} {RNG : Random G}
    (self : AntMazeEnv E) :
  reachable (G:=G) self →
  (0 <= _n_bins self)%Z →
  ∃ segments readings,
    sensor_segments self = Ok segments ∧
    get_range_sensor_obs self = Ok readings ∧
    ∀ ray_idx, ray_idx < Z.to_nat (_n_bins self) →
      ∃ row,
        readings !! ray_idx = Some row ∧
        ray_hits self segments ray_idx
        = omap (λ seg,
              match ray_segment_intersect (robot_xy self, ray_ori_of self ray_idx)
                      (seg_segment seg) with
              | Some p => Some {| hit_segment := seg_segment seg;
                                  hit_type := seg_type seg;
                                  hit_ray_ori := ray_ori_of self ray_idx;
                                  hit_distance := point_distance p (robot_xy self) |}
              | None => None
              end)
            segments ∧
        match sorted_by_distance (ray_hits self segments ray_idx) with
        | [] =>
            ray_hits self segments ray_idx = [] ∧
            (∀ seg, seg ∈ segments →
               ray_segment_intersect (robot_xy self, ray_ori_of self ray_idx)
                 (seg_segment seg) = None) ∧
            row = [0; 0; 0]%Q
        | first_seg :: _ =>
            first_seg ∈ ray_hits self segments ray_idx ∧
            (∃ seg p,
               seg ∈ segments ∧
               ray_segment_intersect (robot_xy self, ray_ori_of self ray_idx)
                 (seg_segment seg) = Some p ∧
               hit_type first_seg = seg_type seg ∧
               hit_distance first_seg = point_distance p (robot_xy self)) ∧
            (∀ h, h ∈ ray_hits self segments ray_idx →
               (hit_distance first_seg <= hit_distance h)%Q) ∧
            (∀ seg p,
               seg ∈ segments →
               ray_segment_intersect (robot_xy self, ray_ori_of self ray_idx)
                 (seg_segment seg) = Some p →
               (hit_distance first_seg <= point_distance p (robot_xy self))%Q) ∧
            ((hit_distance first_seg <= _sensor_range self)%Q →
               ∃ c,
                 (hit_type first_seg = WALL ∧ c = 0
                  ∨ hit_type first_seg = CHASM ∧ c = 1
                  ∨ hit_type first_seg ≠ WALL ∧ hit_type first_seg ≠ CHASM ∧
                    can_move (hit_type first_seg) = true ∧ c = 2) ∧
                 row = <[c := ((_sensor_range self - hit_distance first_seg)
                               / _sensor_range self)%Q]> [0; 0; 0]%Q) ∧
            (¬ (hit_distance first_seg <= _sensor_range self)%Q →
               row = [0; 0; 0]%Q)
        end ∧
        ((0 < _sensor_range self)%Q →
         (∀ p q, 0 <= point_distance p q)%Q →
         Forall (λ v, (0 <= v ∧ v <= 1)%Q) row).
Proof.
  intros Hreach%reachable_consistent Hbins.
  destruct (sensor_segments_known self Hreach) as (segments & Hsegs & Hknown).
  exists segments. eexists. split; [done|].
  split; [by apply get_range_sensor_obs_rows|].
  intros ray_idx Hidx. eexists. split.
  { rewrite list_lookup_fmap, lookup_seq_lt by done. done. }
  split; [reflexivity|].
  simpl. unfold ray_reading.
  pose proof (sorted_by_distance_head (ray_hits self segments ray_idx)) as Hmin.
  pose proof (ray_segments_of_types (robot_xy self) (ray_ori_of self ray_idx)
                segments known_type Hknown) as Htypes.
  fold (ray_hits self segments ray_idx) in Htypes.
  pose proof (λ h, elem_of_ray_segments_of (robot_xy self) (ray_ori_of self ray_idx)
                     segments h) as Hmem.
  fold (ray_hits self segments ray_idx) in Hmem.
  destruct (sorted_by_distance _) as [|first_seg rest].
  { split; [|intros _ _; repeat constructor; lra].
    split; [done|]. split; [|done].
    intros seg Hseg.
    destruct (ray_segment_intersect _ _) as [p|] eqn:Hp; [|done].
    assert ({| hit_segment := seg_segment seg; hit_type := seg_type seg;
               hit_ray_ori := ray_ori_of self ray_idx;
               hit_distance := point_distance p (robot_xy self) |}
            ∈ ray_hits self segments ray_idx) as Hin.
    { apply Hmem. by exists seg, p. }
    rewrite Hmin in Hin. by apply elem_of_nil in Hin. }
  destruct Hmin as [Hin Hmin].
  destruct (proj1 (Forall_forall _ _) Htypes _ Hin) as [Htype _].
  assert (∃ seg p,
            seg ∈ segments ∧
            ray_segment_intersect (robot_xy self, ray_ori_of self ray_idx)
              (seg_segment seg) = Some p ∧
            hit_type first_seg = seg_type seg ∧
            hit_distance first_seg = point_distance p (robot_xy self)) as Hfirst.
  { apply Hmem in Hin as (seg & p & Hseg & Hp & ->). by exists seg, p. }
  assert (∀ seg p,
            seg ∈ segments →
            ray_segment_intersect (robot_xy self, ray_ori_of self ray_idx)
              (seg_segment seg) = Some p →
            (hit_distance first_seg <= point_distance p (robot_xy self))%Q) as Hall.
  { intros seg p Hseg Hp.
    apply (Hmin {| hit_segment := seg_segment seg; hit_type := seg_type seg;
                   hit_ray_ori := ray_ori_of self ray_idx;
                   hit_distance := point_distance p (robot_xy self) |}).
    apply Hmem. by exists seg, p. }
  destruct (Qle_bool _ _) eqn:Hle.
  - apply Qle_bool_iff in Hle.
    assert (∃ c,
      channel_of (hit_type first_seg) = Some c ∧
      (hit_type first_seg = WALL ∧ c = 0
       ∨ hit_type first_seg = CHASM ∧ c = 1
       ∨ hit_type first_seg ≠ WALL ∧ hit_type first_seg ≠ CHASM ∧
         can_move (hit_type first_seg) = true ∧ c = 2)) as (c & Hc & Hcases).
    { unfold channel_of.
      destruct (py_eq _ WALL) eqn:Hw; [apply py_eq_true in Hw; eauto 10|].
      destruct (py_eq _ CHASM) eqn:Hch; [apply py_eq_true in Hch; eauto 10|].
      apply py_eq_false in Hw, Hch.
      destruct Htype as [?|[?|Hmove]]; [done..|].
      rewrite Hmove. eauto 10. }
    rewrite Hc. split.
    + split_and!; [done..| |done]. eauto.
    + intros Hrange Hdist. apply unit_interval_insert.
      apply reading_strength_bounds; [done| |done].
      pose proof (ray_segments_of_nonneg (robot_xy self) (ray_ori_of self ray_idx)
                    segments Hdist) as Hnonneg.
      by apply (proj1 (Forall_forall _ _) Hnonneg).
  - apply Qle_bool_false in Hle. split.
    + split_and!; [done..| |done].
      intros Hle'. apply Qle_not_lt in Hle'. done.
    + intros _ _. repeat constructor; lra.
Qed.

Lemma manhattan_nonneg (p q : point) : (0 <= Reference.manhattan p q)%Q.
Proof.
  unfold Reference.manhattan.
  pose proof (Qabs_nonneg (p.1 - q.1)). pose proof (Qabs_nonneg (p.2 - q.2)). lra.
Qed.

Lemma sensor_reading_channels_witness :
  ∃ self : AntMazeEnv point,
    __init__ (U:=Reference.utils Reference.one_robot)
      (Reference.kw true false 1) Reference.torso = Ok self ∧
    ∃ readings row,
      get_range_sensor_obs (U:=Reference.utils Reference.one_robot) self = Ok readings ∧
      readings !! 0 = Some row ∧
      Forall (λ v, (0 <= v ∧ v <= 1)%Q) row.
Proof.
  eexists. split; [vm_compute; reflexivity|].
  match goal with
  | |- context [get_range_sensor_obs ?s] =>
      destruct (sensor_reading_channels (U:=Reference.utils Reference.one_robot)
                  (G:=nat) s) as (segments & readings & _ & Hobs & Hrows)
  end.
  - eapply (reachable_init (Reference.kw true false 1) Reference.torso).
    vm_compute. reflexivity.
  - simpl. lia.
  - destruct (Hrows 0) as (row & Hrow & _ & _ & Hbounds); [simpl; lia|].
    exists readings, row. split; [done|]. split; [done|].
    apply Hbounds; [reflexivity|]. apply manhattan_nonneg.
Defined.

Section sensor_shape.
Context {U : MazeEnvUtils} {E Info : Type} {PE : PhysicsEngine E Info}.

Lemma ray_reading_length (self : AntMazeEnv E) (hits : list ray_segment) :
  length (ray_reading self hits) = 3.
Proof.
  unfold ray_reading. destruct (sorted_by_distance hits); [done|].
  destruct (Qle_bool _ _); [|done].
  destruct (channel_of _); [|done]. by rewrite length_insert.
Qed.

Lemma ray_ori_of_formula (self : AntMazeEnv E) (k : nat) :
  (ray_ori_of self k ==
     get_ori (wrapped_env self) - _sensor_span self / 2
     + inject_Z (2 * Z.of_nat k + 1) / inject_Z (2 * _n_bins self)
       * _sensor_span self)%Q.
Proof.
  unfold ray_ori_of, num.
  rewrite inject_Z_plus, !inject_Z_mult.
  assert (Hhalf : (_sensor_span self * 0.5 == _sensor_span self / 2)%Q)
    by (unfold Qdiv; apply Qmult_comp; reflexivity).
  rewrite Hhalf.
  assert (Hone : (1.0 == inject_Z 1)%Q) by reflexivity.
  rewrite Hone. reflexivity.
Qed.
End sensor_shape.

(** C4. In every environment a program can hold, with [n_bins = N >= 0],
    the sensor returns a matrix of [N] rows of 3 entries; row [k] is the
    reading of the ray cast from the robot position at the angle
    [ray_ori_of self k], which every segment the ray meets records, and this
    angle equals [orientation - span/2 + (2k+1)/(2N) * span]. *)
Theorem sensor_shape_and_ray_angles {U : MazeEnvUtils} {E Info : Type}
    {PE : PhysicsEngine E Info} {G : Type} {RNG : Random G} (self : AntMazeEnv E) :
  reachable (G:=G) self →
  (0 <= _n_bins self)%Z →
  ∃ segments readings,
    sensor_segments self = Ok segments ∧
    get_range_sensor_obs self = Ok readings ∧
    length readings = Z.to_nat (_n_bins self) ∧
    Forall (λ row, length row = 3) readings ∧
    ∀ k, k < Z.to_nat (_n_bins self) →
      (ray_ori_of self k ==
         get_ori (wrapped_env self) - _sensor_span self / 2
         + inject_Z (2 * Z.of_nat k + 1) / inject_Z (2 * _n_bins self)
           * _sensor_span self)%Q ∧
      Forall (λ h, hit_ray_ori h = ray_ori_of self k) (ray_hits self segments k) ∧
      readings !! k
        = Some (ray_reading self
                  (ray_segments_of (robot_xy self) (ray_ori_of self k) segments)).
Proof.
  intros Hreach%reachable_consistent Hbins.
  destruct (sensor_segments_known self Hreach) as (segments & Hsegs & Hknown).
  exists segments. eexists. split; [done|].
  split; [by apply get_range_sensor_obs_rows|].
  split; [by rewrite length_fmap, length_seq|]. split.
  - apply Forall_fmap, Forall_forall. intros k _. apply ray_reading_length.
  - intros k Hk. split; [apply ray_ori_of_formula|]. split.
    + pose proof (ray_segments_of_types (robot_xy self) (ray_ori_of self k)
                    segments known_type Hknown) as Htypes.
      eapply Forall_impl; [exact Htypes|]. by intros h [_ ?].
    + by rewrite list_lookup_fmap, lookup_seq_lt.
Qed.

Lemma sensor_shape_and_ray_angles_witness :
  ∃ self : AntMazeEnv point,
    __init__ (U:=Reference.utils Reference.one_robot)
      (Reference.kw true false 2) Reference.torso = Ok self ∧
    ∃ readings,
      get_range_sensor_obs (U:=Reference.utils Reference.one_robot) self = Ok readings ∧
      length readings = 2 ∧
      Forall (λ row, length row = 3) readings.
Proof.
  eexists. split; [vm_compute; reflexivity|].
  match goal with
  | |- context [get_range_sensor_obs ?s] =>
      destruct (sensor_shape_and_ray_angles (U:=Reference.utils Reference.one_robot)
                  (G:=nat) s) as (segments & readings & _ & Hobs & Hlen & Hrows & _)
  end.
  - eapply (reachable_init (Reference.kw true false 2) Reference.torso).
    vm_compute. reflexivity.
  - simpl. lia.
  - by exists readings.
Defined.

(** ** Observations *)

Section observation_properties.
Context {U : MazeEnvUtils} {E Info : Type} {PE : PhysicsEngine E Info}.
Local Open Scope Q_scope.

Lemma sensor_obs_returns (self : AntMazeEnv E) :
  consistent self → (0 <= _n_bins self)%Z →
  ∃ readings,
    get_range_sensor_obs self = Ok readings ∧
    length readings = Z.to_nat (_n_bins self) ∧
    Forall (λ row, length row = 3%nat) readings.
Proof.
  intros Hcons Hbins.
  destruct (sensor_segments_known self Hcons) as (segments & Hsegs & _).
  eexists. split; [by apply get_range_sensor_obs_rows|].
  split; [by rewrite length_fmap, length_seq|].
  apply Forall_fmap, Forall_forall. intros k _. apply ray_reading_length.
Qed.

Lemma length_concat_rows {A} (rows : list (list A)) (m : nat) :
  Forall (λ row, length row = m) rows → length (concat rows) = (m * length rows)%nat.
Proof.
  induction 1 as [|row rows Hrow _ IH]; simpl; [lia|].
  rewrite length_app, IH, Hrow. lia.
Qed.

(** The sensor reads the engine state and the constructor's attributes
    only. *)
Lemma get_range_sensor_obs_with_state (self : AntMazeEnv E) (t' : option Z)
    (trajectory' : option (list point)) :
  get_range_sensor_obs (with_state self t' trajectory' (wrapped_env self))
  = get_range_sensor_obs self.
Proof. done. Qed.

Lemma get_obs_returns (self : AntMazeEnv E) (n : Z) :
  consistent self → t self = Some n → (0 <= _n_bins self)%Z →
  ∃ readings,
    get_range_sensor_obs self = Ok readings ∧
    length readings = Z.to_nat (_n_bins self) ∧
    Forall (λ row, length row = 3%nat) readings ∧
    _get_obs self
    = Ok (concat (view_of self) ++ wrapped_obs_of self ++ concat readings
          ++ [inject_Z n * 0.001]).
Proof.
  intros Hcons Ht Hbins.
  destruct (sensor_obs_returns self Hcons Hbins) as (readings & Hobs & Hlen & Hrows).
  exists readings. split; [done|]. split; [done|]. split; [done|].
  unfold _get_obs, getattr_t. rewrite Hobs, Ht. simpl.
  by rewrite concat_app, !concat_cons, concat_nil, app_nil_r.
Qed.
End observation_properties.

Lemma length_block_positions {A} (f : A → Q * Q * Q) (l : list A) :
  length (concat (map (λ a, let '(x, y, z) := f a in [x; y; z]) l)) = (3 * length l)%nat.
Proof.
  induction l as [|a l IH]; [done|].
  simpl. destruct (f a) as [[x y] z]. simpl. rewrite IH. lia.
Qed.

(** C6. An observation is, in this order: the rendered pixels scaled by
    255 when the top-down mode is set; the engine's observation, with the
    position of every movable block put after its first three components
    when blocks are observed; the flattened sensor matrix; the value
    [t * 0.001]. The observation space is the box from minus infinity to
    plus infinity of the length of such an observation. *)
Theorem observation_layout {U : MazeEnvUtils} {E Info : Type}
    {PE : PhysicsEngine E Info} {G : Type} {RNG : Random G}
    (self : AntMazeEnv E) (n : Z) :
  reachable (G:=G) self →
  t self = Some n →
  (0 <= _n_bins self)%Z →
  let e := wrapped_env self in
  let pixels :=
    if _top_down_view self
    then (λ p, inject_Z p / 255.0)%Q <$> render (_image_size self) (_image_size self) e
    else [] in
  let block_positions :=
    concat (map (λ block, let '(x, y, z) := get_body_com block.1 e in [x; y; z])
              (movable_blocks self)) in
  let proprioceptive :=
    if _observe_blocks self
    then take 3 (wrapped_get_obs e) ++ block_positions ++ drop 3 (wrapped_get_obs e)
    else wrapped_get_obs e in
  ∃ readings obs,
    get_range_sensor_obs self = Ok readings ∧
    _get_obs self = Ok obs ∧
    obs = pixels ++ proprioceptive ++ concat readings ++ [(inject_Z n * 0.001)%Q] ∧
    length obs
      = length pixels
        + (length (wrapped_get_obs e)
           + if _observe_blocks self then 3 * length (movable_blocks self) else 0)
        + 3 * Z.to_nat (_n_bins self) + 1 ∧
    observation_space self
      = Ok {| low := replicate (length obs) NegInf;
              high := replicate (length obs) PosInf |}.
Proof.
  intros Hreach%reachable_consistent Ht Hbins e pixels block_positions proprioceptive.
  destruct (get_obs_returns self n Hreach Ht Hbins)
    as (readings & Hsensor & Hlen & Hrows & Hobs).
  assert (Hview : concat (view_of self) = pixels).
  { unfold view_of, pixels. destruct (_top_down_view self); [|done].
    simpl. by rewrite app_nil_r. }
  assert (Hprop : wrapped_obs_of self = proprioceptive).
  { unfold wrapped_obs_of, proprioceptive. destruct (_observe_blocks self); [|done].
    rewrite concat_app, concat_cons, concat_nil, concat_app. simpl.
    by rewrite !app_nil_r. }
  rewrite Hview, Hprop in Hobs.
  exists readings. eexists. split; [done|]. split; [done|]. split; [done|]. split.
  - rewrite !length_app, (length_concat_rows readings 3 Hrows), Hlen. simpl.
    assert (length proprioceptive
            = length (wrapped_get_obs e)
              + if _observe_blocks self then 3 * length (movable_blocks self) else 0)
      as ->; [|destruct (_observe_blocks self); lia].
    unfold proprioceptive. destruct (_observe_blocks self); [|lia].
    rewrite !length_app. unfold block_positions. rewrite length_block_positions.
    rewrite <-(take_drop 3 (wrapped_get_obs e)) at 3. rewrite length_app. lia.
  - unfold observation_space. rewrite Hobs. simpl.
    by rewrite fmap_replicate.
Qed.

Lemma observation_layout_witness :
  ∃ (self0 self : AntMazeEnv point) (obs0 : list Q) (g0 : nat),
    __init__ (U:=Reference.utils Reference.one_robot)
      (Reference.kw true false 1) Reference.torso = Ok self0 ∧
    reset (U:=Reference.utils Reference.one_robot) 0 self0 = Ok (obs0, self, g0) ∧
    ∃ obs,
      _get_obs (U:=Reference.utils Reference.one_robot) self = Ok obs ∧
      length obs = 14 ∧
      observation_space (U:=Reference.utils Reference.one_robot) self
        = Ok {| low := replicate 14 NegInf; high := replicate 14 PosInf |}.
Proof.
  do 4 eexists. split; [vm_compute; reflexivity|].
  split; [vm_compute; reflexivity|].
  match goal with
  | |- context [_get_obs ?s] =>
      destruct (observation_layout (U:=Reference.utils Reference.one_robot)
                  (G:=nat) s 0) as (readings & obs & _ & Hobs & _ & Hlen & Hspace)
  end.
  - eapply (reachable_reset 0%nat).
    + eapply (reachable_init (Reference.kw true false 1) Reference.torso).
      vm_compute. reflexivity.
    + vm_compute. reflexivity.
  - reflexivity.
  - simpl. lia.
  - exists obs. split; [done|].
    assert (length obs = 14) as Hn by (rewrite Hlen; reflexivity).
    split; [done|]. rewrite Hn in Hspace. exact Hspace.
Defined.

(** ** Collision and step *)

Section step_properties.
Context {U : MazeEnvUtils} {E Info : Type} {PE : PhysicsEngine E Info}.
Local Open Scope Q_scope.

(** [pos] lies in the box [_is_in_collision] computes for cell [(i, j)]. *)
Lemma collision_box_centre (self : AntMazeEnv E) (i j : nat) (pos : point) :
  let s := MAZE_SIZE_SCALING self in
  let cx := num j * s - _init_torso_x self in
  let cy := num i * s - _init_torso_y self in
  (let '(minx, maxx, miny, maxy) := collision_box self i j in
   Qle_bool minx pos.1 && Qle_bool pos.1 maxx
   && Qle_bool miny pos.2 && Qle_bool pos.2 maxy) = true
  ↔ (cx - 0.5 * s <= pos.1 ∧ pos.1 <= cx + 0.5 * s) ∧
    (cy - 0.5 * s <= pos.2 ∧ pos.2 <= cy + 0.5 * s).
Proof.
  intros s cx cy. unfold collision_box. fold s.
  rewrite !andb_true_iff, !Qle_bool_iff.
  subst cx cy. generalize (num j * s) (num i * s). intros a b.
  split; intros [[? ?] ?]; (split; [split|try split]); try tauto; lra.
Qed.

Lemma is_in_collision_from_with_state (self : AntMazeEnv E) (t' : option Z)
    (trajectory' : option (list point)) (e : E) (pos : point)
    (cells : list (nat * nat)) :
  _is_in_collision_from (with_state self t' trajectory' e) pos cells
  = _is_in_collision_from self pos cells.
Proof.
  induction cells as [|[i j] cells IH]; [done|].
  simpl. by rewrite IH.
Qed.

Lemma is_in_collision_from_spec (self : AntMazeEnv E) (pos : point)
    (cells : list (nat * nat)) :
  let s := MAZE_SIZE_SCALING self in
  Forall (λ ij, ∃ c, cell (MAZE_STRUCTURE self) ij.1 ij.2 = Ok c) cells →
  ∃ collided : bool,
    _is_in_collision_from self pos cells = Ok collided ∧
    (collided = true ↔
     ∃ i j, (i, j) ∈ cells ∧ cell (MAZE_STRUCTURE self) i j = Ok WALL ∧
       (num j * s - _init_torso_x self - 0.5 * s <= pos.1
        ∧ pos.1 <= num j * s - _init_torso_x self + 0.5 * s) ∧
       (num i * s - _init_torso_y self - 0.5 * s <= pos.2
        ∧ pos.2 <= num i * s - _init_torso_y self + 0.5 * s)).
Proof.
  intros s. induction 1 as [|[i j] cells [c Hc] _ (collided & IH & Hiff)].
  { exists false. split; [done|]. split; [done|].
    by intros (i & j & []%elem_of_nil & _). }
  simpl in Hc. cbn [_is_in_collision_from]. rewrite Hc, bind_Ok_l.
  pose proof (collision_box_centre self i j pos) as Hbox. cbv zeta in Hbox.
  fold s in Hbox.
  destruct (py_eq c WALL) eqn:Hwall.
  - apply py_eq_true in Hwall as ->.
    destruct (collision_box self i j) as [[[minx maxx] miny] maxy].
    destruct (_ && _) eqn:Hin.
    + exists true. split; [done|]. split; [|done]. intros _.
      exists i, j. split; [apply list_elem_of_here|]. split; [done|].
      by apply Hbox.
    + exists collided. split; [done|]. rewrite Hiff. split.
      * intros (i' & j' & Hin' & H'). exists i', j'.
        split; [by apply list_elem_of_further|done].
      * intros (i' & j' & [[= -> ->]|Hin']%elem_of_cons & Hw & Hpos).
        -- apply Hbox in Hpos. congruence.
        -- by exists i', j'.
  - apply py_eq_false in Hwall.
    exists collided. split; [done|]. rewrite Hiff. split.
    + intros (i' & j' & Hin' & H'). exists i', j'.
      split; [by apply list_elem_of_further|done].
    + intros (i' & j' & [[= -> ->]|Hin']%elem_of_cons & Hw & Hpos).
      * congruence.
      * by exists i', j'.
Qed.

Lemma bind_ext {A B} (m : result A) (f g : A → result B) :
  (∀ a, f a = g a) → m ≫= f = m ≫= g.
Proof. intros Hfg. destruct m; [apply Hfg|done]. Qed.

(** [step] with the successive values of [self] written out. *)
Lemma step_unfold (self : AntMazeEnv E) (action : list Q) (n : Z) :
  t self = Some n →
  step action self =
  let e0 := update_cam (wrapped_env self) in
  let out := wrapped_step action e0 in
  let after collided :=
    with_state self (Some (n + 1)%Z) (trajectory self)
      (if collided : bool then set_xy (get_xy e0) out.2 else out.2) in
  collided ←
    (if _manual_collision self
     then _is_in_collision (after false) (get_xy out.2)
     else Ok false);
  next_obs ← _get_obs (after collided);
  Ok (next_obs, out.1.1.1.2, false, out.1.2, after collided).
Proof.
  intros Ht. unfold step, getattr_t, with_engine.
  destruct self. simpl in *. subst.
  destruct (wrapped_step _ _) as [[[[inner_next_obs inner_reward] done] info] e1].
  simpl. destruct _manual_collision0; [|done].
  apply bind_ext. by intros [].
Qed.

(** What a call of [step] does once [reset] has set [t]. *)
Lemma step_spec (self : AntMazeEnv E) (action : list Q) (n : Z) :
  consistent self → t self = Some n → (0 <= _n_bins self)%Z →
  let e0 := update_cam (wrapped_env self) in
  let out := wrapped_step action e0 in
  ∃ (collided : bool) (next_obs : list Q),
    (if _manual_collision self
     then _is_in_collision self (get_xy out.2) = Ok collided
     else collided = false) ∧
    let self' :=
      with_state self (Some (n + 1)%Z) (trajectory self)
        (if collided then set_xy (get_xy e0) out.2 else out.2) in
    _get_obs self' = Ok next_obs ∧
    step action self = Ok (next_obs, out.1.1.1.2, false, out.1.2, self').
Proof.
  intros Hcons Ht Hbins e0 out.
  assert (Hobs : ∀ e, ∃ next_obs,
    _get_obs (with_state self (Some (n + 1)%Z) (trajectory self) e) = Ok next_obs).
  { intros e.
    destruct (get_obs_returns (with_state self (Some (n + 1)%Z) (trajectory self) e)
                (n + 1)) as (readings & _ & _ & _ & Hobs); [done..|].
    eauto. }
  rewrite (step_unfold self action n Ht). cbv zeta. fold e0. fold out.
  assert (∃ collided : bool,
    (if _manual_collision self
     then _is_in_collision self (get_xy out.2) = Ok collided
     else collided = false) ∧
    (if _manual_collision self
     then _is_in_collision
            (with_state self (Some (n + 1)%Z) (trajectory self) out.2) (get_xy out.2)
     else Ok false) = Ok collided) as (collided & Hcollided & ->).
  { destruct (_manual_collision self); [|by exists false].
    destruct Hcons as (Hcells & _).
    destruct (is_in_collision_from_spec self (get_xy out.2) _ Hcells)
      as (collided & Hcollided & _).
    exists collided. split; [done|].
    unfold _is_in_collision. by rewrite is_in_collision_from_with_state. }
  rewrite bind_Ok_l.
  destruct (Hobs (if collided then set_xy (get_xy e0) out.2 else out.2))
    as [next_obs Hnext].
  exists collided, next_obs. split; [done|]. split; [done|].
  by rewrite Hnext.
Qed.
End step_properties.

Lemma step_raises_before_reset {U : MazeEnvUtils} {E Info : Type}
    {PE : PhysicsEngine E Info} (self : AntMazeEnv E) (action : list Q) :
  t self = None → step action self = Raise AttributeError.
Proof. intros Ht. unfold step, getattr_t. destruct self. simpl in *. by subst. Qed.

(** C2. Whatever the collision mode and whatever the engine reports, a
    call of [step] that returns has [done = False] and the reward of the
    engine's step; and in every environment a program can hold, once [reset]
    has set the step counter (and with a non-negative ray count), [step]
    does return. *)
Theorem step_done_false_reward_unchanged {U : MazeEnvUtils} {E Info : Type}
    {PE : PhysicsEngine E Info} {G : Type} {RNG : Random G}
    (self : AntMazeEnv E) (action : list Q) :
  let engine_out := wrapped_step action (update_cam (wrapped_env self)) in
  (∀ next_obs reward done info self',
     step action self = Ok (next_obs, reward, done, info, self') →
     done = false ∧ reward = engine_out.1.1.1.2 ∧ info = engine_out.1.2) ∧
  (∀ n,
     reachable (G:=G) self → t self = Some n → (0 <= _n_bins self)%Z →
     ∃ next_obs self',
       step action self
       = Ok (next_obs, engine_out.1.1.1.2, false, engine_out.1.2, self')).
Proof.
  intros engine_out. split.
  - intros next_obs reward done info self' Hstep.
    destruct (t self) as [n|] eqn:Ht;
      [|by rewrite step_raises_before_reset in Hstep].
    rewrite (step_unfold self action n Ht) in Hstep. cbv zeta in Hstep.
    apply bind_Ok in Hstep as (collided & _ & Hstep).
    apply bind_Ok in Hstep as (obs & _ & [= _ <- <- <- _]). done.
  - intros n Hreach%reachable_consistent Ht Hbins.
    destruct (step_spec self action n Hreach Ht Hbins)
      as (collided & next_obs & _ & _ & Hstep).
    eauto.
Qed.

Lemma step_done_false_reward_unchanged_witness :
  ∃ (self0 self : AntMazeEnv point) (obs0 : list Q) (g0 : nat),
    __init__ (U:=Reference.utils Reference.one_robot)
      (Reference.kw false false 1) Reference.torso = Ok self0 ∧
    reset (U:=Reference.utils Reference.one_robot) 0 self0 = Ok (obs0, self, g0) ∧
    (wrapped_step [1; 0]%Q (update_cam (wrapped_env self))).1.1.2 = true ∧
    ∃ next_obs self',
      step (U:=Reference.utils Reference.one_robot) [1; 0]%Q self
      = Ok (next_obs, 1%Q, false, (), self').
Proof.
  do 4 eexists. split; [vm_compute; reflexivity|].
  split; [vm_compute; reflexivity|]. split; [reflexivity|].
  match goal with
  | |- context [step _ ?s] =>
      destruct (step_done_false_reward_unchanged
                  (U:=Reference.utils Reference.one_robot) (G:=nat) s [1; 0]%Q)
        as [_ Hreturns]
  end.
  destruct (Hreturns 0%Z) as (next_obs & self' & Hstep).
  - eapply (reachable_reset 0%nat).
    + eapply (reachable_init (Reference.kw false false 1) Reference.torso).
      vm_compute. reflexivity.
    + vm_compute. reflexivity.
  - reflexivity.
  - simpl. lia.
  - exists next_obs, self'. exact Hstep.
Defined.

(** C1. In manual-collision mode, on a 2-D grid, once [reset] has set the
    step counter: let [old_pos] be the position read before the engine step
    and [new_pos] the one read after it. [step] returns the observation of
    the environment it leaves; if [new_pos] lies in the box
    [centre - 0.5 * size_scaling, centre + 0.5 * size_scaling] of some wall
    cell, the engine is left in the state [set_xy old_pos] of the stepped
    engine, otherwise in the stepped engine's state. *)
Theorem step_manual_collision_rollback {U : MazeEnvUtils} {E Info : Type}
    {PE : PhysicsEngine E Info} {G : Type} {RNG : Random G}
    (self : AntMazeEnv E) (action : list Q) (n : Z) :
  reachable (G:=G) self →
  rectangular (MAZE_STRUCTURE self) →
  _manual_collision self = true →
  t self = Some n →
  (0 <= _n_bins self)%Z →
  let s := MAZE_SIZE_SCALING self in
  let e0 := update_cam (wrapped_env self) in
  let old_pos := get_xy e0 in
  let e1 := (wrapped_step action e0).2 in
  let new_pos := get_xy e1 in
  let in_wall :=
    ∃ i j, tag_at (MAZE_STRUCTURE self) i j WALL ∧
      (num j * s - _init_torso_x self - 0.5 * s <= new_pos.1
       ∧ new_pos.1 <= num j * s - _init_torso_x self + 0.5 * s)%Q ∧
      (num i * s - _init_torso_y self - 0.5 * s <= new_pos.2
       ∧ new_pos.2 <= num i * s - _init_torso_y self + 0.5 * s)%Q in
  ∃ next_obs reward info self',
    step action self = Ok (next_obs, reward, false, info, self') ∧
    _get_obs self' = Ok next_obs ∧
    (in_wall → wrapped_env self' = set_xy old_pos e1) ∧
    (¬ in_wall → wrapped_env self' = e1).
Proof.
  intros Hreach%reachable_consistent Hrect Hmanual Ht Hbins s e0 old_pos e1 new_pos in_wall.
  destruct (step_spec self action n Hreach Ht Hbins)
    as (collided & next_obs & Hcollided & Hobs & Hstep).
  rewrite Hmanual in Hcollided. fold e0 e1 new_pos in Hcollided.
  fold e0 e1 old_pos in Hobs, Hstep.
  destruct Hreach as (Hcells & _).
  destruct (is_in_collision_from_spec self new_pos _ Hcells)
    as (collided' & Hcollided' & Hiff).
  unfold _is_in_collision in Hcollided. rewrite Hcollided' in Hcollided.
  injection Hcollided as ->. fold s in Hiff.
  assert (Hwall : collided = true ↔ in_wall).
  { rewrite Hiff. unfold in_wall. split.
    - intros (i & j & _ & Hw%cell_Ok & Hpos). by exists i, j.
    - intros (i & j & Hw & Hpos). exists i, j.
      split; [by eapply tag_at_cell_range|]. split; [by apply cell_Ok|done]. }
  eexists _, _, _, _. split; [exact Hstep|]. split; [exact Hobs|].
  split.
  - intros Hin%Hwall. by rewrite Hin.
  - intros Hout. destruct collided; [|done]. by destruct Hout; apply Hwall.
Qed.

Lemma step_manual_collision_rollback_witness :
  ∃ (self0 self : AntMazeEnv point) (obs0 : list Q) (g0 : nat),
    __init__ (U:=Reference.utils Reference.one_robot)
      (Reference.kw false true 1) Reference.torso = Ok self0 ∧
    reset (U:=Reference.utils Reference.one_robot) 0 self0 = Ok (obs0, self, g0) ∧
    get_xy (wrapped_step [12; 0]%Q (update_cam (wrapped_env self))).2 = (0 + 12, 0 + 0)%Q ∧
    ∃ next_obs reward info self',
      step (U:=Reference.utils Reference.one_robot) [12; 0]%Q self
      = Ok (next_obs, reward, false, info, self') ∧
      wrapped_env self' = (0, 0)%Q.
Proof.
  do 4 eexists. split; [vm_compute; reflexivity|].
  split; [vm_compute; reflexivity|]. split; [reflexivity|].
  match goal with
  | |- context [step _ ?s] =>
      destruct (step_manual_collision_rollback
                  (U:=Reference.utils Reference.one_robot) (G:=nat) s [12; 0]%Q 0)
        as (next_obs & reward & info & self' & Hstep & _ & Hwall & _)
  end.
  - eapply (reachable_reset 0%nat).
    + eapply (reachable_init (Reference.kw false true 1) Reference.torso).
      vm_compute. reflexivity.
    + vm_compute. reflexivity.
  - repeat constructor.
  - reflexivity.
  - reflexivity.
  - simpl. lia.
  - exists next_obs, reward, info, self'. split; [exact Hstep|].
    apply Hwall. exists 0, 2. split; [by exists [ROBOT; VInt 0; WALL]|].
    split; split; apply Qle_bool_iff; reflexivity.
Defined.

(** ** Reset *)

Section reset_properties.
Context {U : MazeEnvUtils} {E Info : Type} {PE : PhysicsEngine E Info}.
Context {G : Type} {RNG : Random G}.
Local Open Scope Q_scope.

(** [reset] with the successive values of [self] written out. *)
Lemma reset_unfold (g : G) (self : AntMazeEnv E) :
  reset g self =
  let e0 := wrapped_reset (wrapped_env self) in
  if bool_decide (1 < length (_init_positions self))%nat then
    chosen ← random_choice (_init_positions self) g;
    let self' := with_state self (Some 0%Z) (Some []) (set_xy chosen.1 e0) in
    obs ← _get_obs self';
    Ok (obs, self', chosen.2)
  else
    let self' := with_state self (Some 0%Z) (Some []) e0 in
    obs ← _get_obs self';
    Ok (obs, self', g).
Proof. unfold reset, with_engine. by destruct self. Qed.

Lemma random_choice_draw {A} (seq : list A) (g : G) :
  (0 < length seq)%nat →
  ∃ a, seq !! (randbelow (length seq) g).1 = Some a ∧
       random_choice seq g = Ok (a, (randbelow (length seq) g).2).
Proof.
  intros Hlen. unfold random_choice.
  pose proof (randbelow_lt (length seq) g Hlen) as Hk.
  destruct (randbelow (length seq) g) as [k g']. simpl in *.
  destruct (lookup_lt_is_Some_2 seq k Hk) as [a Ha].
  exists a. split; [done|]. unfold getitem. by rewrite Ha.
Qed.

(** The start offsets are the robot-start cells, relative to the first. *)
Lemma init_positions_robot_cells (self : AntMazeEnv E) :
  consistent self →
  _init_positions self
  = (λ ij, (num ij.2 * MAZE_SIZE_SCALING self - _init_torso_x self,
            num ij.1 * MAZE_SIZE_SCALING self - _init_torso_y self))
    <$> robot_cells (MAZE_STRUCTURE self).
Proof.
  intros (Hcells & _ & robots & _ & Hrobots & ->).
  unfold _find_all_robots in Hrobots.
  rewrite find_all_robots_filter in Hrobots by done.
  injection Hrobots as <-. simpl.
  fold (robot_cells (MAZE_STRUCTURE self)).
  by rewrite <-list_fmap_compose.
Qed.

Lemma robot_cells_rectangular (structure : grid) (i j : nat) :
  rectangular structure →
  (i, j) ∈ robot_cells structure ↔ tag_at structure i j ROBOT.
Proof.
  intros Hrect. unfold robot_cells. rewrite list_elem_of_filter. simpl.
  rewrite cell_Ok. split; [by intros [? _]|].
  intros Htag. split; [done|]. by eapply tag_at_cell_range.
Qed.
End reset_properties.

(** C7. In every environment a program can hold (with a non-negative ray
    count) [reset] returns; it leaves the step counter at zero, the
    trajectory empty and the engine reset, and the observation it returns is
    the one of the environment it leaves. The start offsets are the
    robot-start cells of the grid relative to the first. With more than one
    robot-start cell, an index is drawn below their number and the agent is
    set to the offset at that index; with exactly one, the reset engine is
    left as it is and nothing is drawn. *)
Theorem reset_contract {U : MazeEnvUtils} {E Info : Type}
    {PE : PhysicsEngine E Info} {G : Type} {RNG : Random G}
    (self : AntMazeEnv E) (g : G) :
  reachable (G:=G) self →
  (0 <= _n_bins self)%Z →
  let e0 := wrapped_reset (wrapped_env self) in
  let starts := robot_cells (MAZE_STRUCTURE self) in
  (rectangular (MAZE_STRUCTURE self) →
     ∀ i j, (i, j) ∈ starts ↔ tag_at (MAZE_STRUCTURE self) i j ROBOT) ∧
  _init_positions self
    = (λ ij, (num ij.2 * MAZE_SIZE_SCALING self - _init_torso_x self,
              num ij.1 * MAZE_SIZE_SCALING self - _init_torso_y self)%Q)
      <$> starts ∧
  ∃ obs self' g',
    reset g self = Ok (obs, self', g') ∧
    t self' = Some 0%Z ∧
    trajectory self' = Some [] ∧
    _get_obs self' = Ok obs ∧
    (1 < length starts →
       let draw := randbelow (length starts) g in
       draw.1 < length starts ∧
       g' = draw.2 ∧
       ∃ xy, _init_positions self !! draw.1 = Some xy ∧
             wrapped_env self' = set_xy xy e0) ∧
    (length starts = 1 → wrapped_env self' = e0 ∧ g' = g).
Proof.
  intros Hreach%reachable_consistent Hbins e0 starts.
  split; [intros Hrect i j; by apply robot_cells_rectangular|].
  pose proof (init_positions_robot_cells self Hreach) as Hpos.
  split; [done|].
  assert (Hlen : length (_init_positions self) = length starts)
    by (by rewrite Hpos, length_fmap).
  assert (Hobs : ∀ e, ∃ obs,
    _get_obs (with_state self (Some 0%Z) (Some []) e) = Ok obs).
  { intros e.
    destruct (get_obs_returns (with_state self (Some 0%Z) (Some []) e) 0)
      as (readings & _ & _ & _ & Hobs); [done..|].
    eauto. }
  rewrite reset_unfold. cbv zeta. fold e0. rewrite Hlen.
  case_bool_decide as Hmany.
  - destruct (random_choice_draw (_init_positions self) g) as (xy & Hxy & Hchoice);
      [lia|].
    rewrite Hlen in Hxy, Hchoice. rewrite Hchoice, bind_Ok_l. simpl.
    destruct (Hobs (set_xy xy e0)) as [obs Hget]. rewrite Hget.
    eexists _, _, _. split; [done|]. split; [done|]. split; [done|].
    split; [done|]. split; [|lia].
    intros _. split; [|by eauto].
    apply randbelow_lt. lia.
  - destruct (Hobs e0) as [obs Hget]. rewrite Hget.
    eexists _, _, _. split; [done|]. split; [done|]. split; [done|].
    split; [done|]. split; [lia|done].
Qed.

Lemma reset_contract_witness :
  ∃ self0 : AntMazeEnv point,
    __init__ (U:=Reference.utils Reference.two_robots)
      (Reference.kw false false 1) Reference.torso = Ok self0 ∧
    robot_cells (MAZE_STRUCTURE self0) = [(0, 0); (0, 2)] ∧
    ∃ obs self',
      reset (U:=Reference.utils Reference.two_robots) 1 self0 = Ok (obs, self', 2) ∧
      t self' = Some 0%Z ∧
      wrapped_env self' = (16, 0)%Q.
Proof.
  eexists. split; [vm_compute; reflexivity|]. split; [reflexivity|].
  match goal with
  | |- context [reset _ ?s] =>
      destruct (reset_contract (U:=Reference.utils Reference.two_robots) s 1)
        as (_ & _ & obs & self' & g' & Hreset & Ht & _ & _ & Hmany & _)
  end.
  - eapply (reachable_init (Reference.kw false false 1) Reference.torso).
    vm_compute. reflexivity.
  - simpl. lia.
  - destruct Hmany as (_ & Hg & xy & Hxy & Henv); [simpl; lia|].
    injection Hxy as <-. subst g'.
    exists obs, self'. split; [exact Hreset|]. split; [exact Ht|].
    exact Henv.
Defined.

(** ** The spinning block near the agent *)

Section spin_near_agent.
Context {U : MazeEnvUtils}.
Variables (structure : grid) (height size_scaling torso_x torso_y height_offset : Q).
Variable (is_elevated : bool).
Local Open Scope Q_scope.

(** The flag changes the tag of robot-start cells only. *)
Lemma effective_struct_other (spin : bool) (c : value) :
  c ≠ ROBOT → effective_struct spin c = c.
Proof. intros Hc%py_eq_false. unfold effective_struct. by rewrite Hc. Qed.

Lemma cell_elements_spin_robot (i j : nat) :
  can_move Move_SpinXY = true → Move_SpinXY ≠ WALL →
  movable_body height size_scaling torso_x torso_y height_offset i j Move_SpinXY
  ∈ cell_elements structure height size_scaling torso_x torso_y height_offset
      is_elevated true i j ROBOT.
Proof.
  intros Hmove Hwall%py_eq_false. unfold cell_elements, effective_struct.
  simpl. rewrite Hwall, Hmove.
  apply elem_of_app. right. apply list_elem_of_here.
Qed.

Lemma cell_blocks_spin_robot (i j : nat) :
  can_move Move_SpinXY = true → Move_SpinXY ≠ WALL →
  cell_blocks true i j ROBOT = [(name_ij "movable_" i j, Move_SpinXY)].
Proof.
  intros Hmove Hwall%py_eq_false. unfold cell_blocks, effective_struct.
  simpl. by rewrite Hwall, Hmove.
Qed.
End spin_near_agent.

(** C8, as the code has it. With [put_spin_near_agent] set, and
    [Move.SpinXY] a movable, spinning tag other than the wall tag, the scene
    compiled from a 2-D grid has, at every robot-start cell itself, a movable
    body tagged [Move.SpinXY]: it is recorded in [movable_blocks], its geom
    has the half-sizes shrunk by 0.1, and it has the ball joint. Every other
    cell is compiled as it is without the flag. *)
Theorem spin_near_agent_replaces_robot_start {U : MazeEnvUtils}
    (structure : grid) (height size_scaling torso_x torso_y height_offset : Q)
    (is_elevated : bool) :
  can_move Move_SpinXY = true →
  can_spin Move_SpinXY = true →
  Move_SpinXY ≠ WALL →
  rectangular structure →
  ∃ elems blocks,
    compile_scene structure height size_scaling torso_x torso_y height_offset
      is_elevated true = Ok (elems, blocks) ∧
    (∀ i j, tag_at structure i j ROBOT →
       let body :=
         movable_body height size_scaling torso_x torso_y height_offset
           i j Move_SpinXY in
       body ∈ elems ∧
       (name_ij "movable_" i j, Move_SpinXY) ∈ blocks ∧
       spin_joint i j ∈ children_of body ∧
       ∃ geom,
         head (children_of body) = Some geom ∧
         tag_of geom = "geom" ∧
         get_attr "size" (attrib_of geom)
         = Some (Floats [0.5 * size_scaling * 0.1;
                         0.5 * size_scaling * 0.1;
                         height / 2 * size_scaling * 0.1]%Q)) ∧
    (∀ i j c, c ≠ ROBOT →
       cell_elements structure height size_scaling torso_x torso_y height_offset
         is_elevated true i j c
       = cell_elements structure height size_scaling torso_x torso_y height_offset
           is_elevated false i j c ∧
       cell_blocks true i j c = cell_blocks false i j c).
Proof.
  intros Hmove Hspin Hwall Hrect.
  eexists _, _. split; [by apply compile_scene_rectangular|]. split.
  - intros i j Htag body.
    pose proof (tag_at_cell_range _ _ _ _ Hrect Htag) as Hin.
    assert (Hcell : tag_of_cell structure (i, j) = ROBOT)
      by (by apply tag_of_cell_Ok, cell_Ok).
    split; [|split; [|split]].
    + apply list_elem_of_bind. exists (i, j). split; [|done].
      simpl. rewrite Hcell. by apply cell_elements_spin_robot.
    + apply list_elem_of_bind. exists (i, j). split; [|done].
      simpl. rewrite Hcell, cell_blocks_spin_robot by done.
      apply list_elem_of_here.
    + unfold body, movable_body. simpl. rewrite Hspin.
      apply list_elem_of_further.
      rewrite !elem_of_app. do 3 right. apply list_elem_of_here.
    + eexists. split; [reflexivity|]. split; [reflexivity|].
      unfold movable_geom. simpl. by rewrite Hspin.
  - intros i j c Hc. unfold cell_elements, cell_blocks.
    by rewrite !effective_struct_other.
Qed.

Lemma spin_near_agent_replaces_robot_start_witness :
  ∃ elems blocks,
    compile_scene (U:=Reference.utils Reference.robot_by_wall)
      Reference.robot_by_wall 0.5 8 0 0 0 false true = Ok (elems, blocks) ∧
    ("movable_0_0", Reference.MoveSpinXY) ∈ blocks.
Proof.
  destruct (spin_near_agent_replaces_robot_start
              (U:=Reference.utils Reference.robot_by_wall)
              Reference.robot_by_wall 0.5 8 0 0 0 false)
    as (elems & blocks & Hcompiled & Hrobot & _).
  - reflexivity.
  - reflexivity.
  - discriminate.
  - repeat constructor.
  - exists elems, blocks. split; [exact Hcompiled|].
    apply (Hrobot 0%nat 0%nat). by exists [ROBOT; WALL].
Defined.

(** C8, as stated, fails: with the robot-start cell next to a wall and
    the flag set, the wall cell is compiled as the static wall it is without
    the flag, the only movable block is the one at the robot-start cell, and
    no cell other than a robot-start cell holds a movable block. *)
Lemma spin_block_not_at_adjacent_wall :
  let g := Reference.robot_by_wall in
  tag_at g 0 0 ROBOT ∧ tag_at g 0 1 WALL ∧
  compile_scene (U:=Reference.utils g) g 0.5 8 0 0 0 false true
  = Ok ([movable_body (U:=Reference.utils g) 0.5 8 0 0 0 0 0 Reference.MoveSpinXY;
         wall_geom g 0.5 8 0 0 0 0 1],
        [("movable_0_0", Reference.MoveSpinXY)]) ∧
  ¬ ∃ i j c blocks elems,
      compile_scene (U:=Reference.utils g) g 0.5 8 0 0 0 false true
        = Ok (elems, blocks) ∧
      tag_at g i j c ∧ c ≠ ROBOT ∧ name_ij "movable_" i j ∈ blocks.*1.
Proof.
  intros g. split; [by exists [ROBOT; WALL]|]. split; [by exists [ROBOT; WALL]|].
  split; [reflexivity|].
  intros (i & j & c & blocks & elems & [= _ <-] & (row & Hrow & Hc) & Hne & Hin).
  apply list_elem_of_singleton in Hin.
  change "movable_0_0" with (name_ij "movable_" 0 0) in Hin.
  apply name_ij_inj in Hin as [-> ->]. by simplify_eq/=.
Qed.

(** * Further properties of the environment *)

(** ** Before the first reset, and with a negative ray count *)

Section lifecycle.
Context {U : MazeEnvUtils} {E Info : Type} {PE : PhysicsEngine E Info}.
Context {G : Type} {RNG : Random G}.
Local Open Scope Q_scope.

Lemma init_t_unset (kw : kwargs) (torso : element) (self : AntMazeEnv E) :
  __init__ kw torso = Ok self → t self = None ∧ trajectory self = None.
Proof.
  unfold __init__.
  intros (structure & _ & Hrest)%bind_Ok.
  apply bind_Ok in Hrest as (torso_xy & _ & Hrest).
  apply bind_Ok in Hrest as (robots & _ & Hrest).
  apply bind_Ok in Hrest as (compiled & _ & Hrest).
  by apply bind_Ok in Hrest as (_ & _ & [= <-]).
Qed.

Lemma get_obs_raises_before_reset (self : AntMazeEnv E) :
  consistent self → (0 <= _n_bins self)%Z → t self = None →
  _get_obs self = Raise AttributeError.
Proof.
  intros Hcons Hbins Ht.
  destruct (sensor_obs_returns self Hcons Hbins) as (readings & Hobs & _).
  unfold _get_obs, getattr_t. by rewrite Hobs, Ht.
Qed.

Lemma sensor_raises_negative_bins (self : AntMazeEnv E) :
  consistent self → (_n_bins self < 0)%Z →
  get_range_sensor_obs self = Raise ValueError.
Proof.
  intros Hcons Hbins.
  destruct (sensor_segments_known self Hcons) as (segments & Hsegs & _).
  unfold get_range_sensor_obs.
  destruct (get_body_com _ _) as [[robot_x robot_y] robot_z].
  rewrite Hsegs, bind_Ok_l. unfold np_zeros.
  by destruct (Z.ltb_spec (_n_bins self) 0); [|lia].
Qed.

Lemma get_obs_raises_negative_bins (self : AntMazeEnv E) :
  consistent self → (_n_bins self < 0)%Z → _get_obs self = Raise ValueError.
Proof.
  intros Hcons Hbins. unfold _get_obs.
  by rewrite sensor_raises_negative_bins.
Qed.
End lifecycle.

(** X1. An environment fresh from the constructor has no step counter:
    [step] raises [AttributeError], and so do [_get_obs] and
    [observation_space] (with a non-negative ray count), until [reset] has
    been called. *)
Theorem fresh_environment_needs_reset {U : MazeEnvUtils} {E Info : Type}
    {PE : PhysicsEngine E Info} (kw : kwargs) (torso : element)
    (self : AntMazeEnv E) (action : list Q) :
  __init__ kw torso = Ok self →
  t self = None ∧
  step action self = Raise AttributeError ∧
  ((0 <= n_bins kw)%Z →
   _get_obs self = Raise AttributeError ∧
   observation_space self = Raise AttributeError).
Proof.
  intros Hinit. pose proof (init_consistent _ _ _ Hinit) as Hcons.
  destruct (init_t_unset _ _ _ Hinit) as [Ht _].
  split; [done|]. split; [by apply step_raises_before_reset|].
  intros Hbins.
  assert (_n_bins self = n_bins kw) as Heq.
  { unfold __init__ in Hinit.
    apply bind_Ok in Hinit as (structure & _ & Hrest).
    apply bind_Ok in Hrest as (torso_xy & _ & Hrest).
    apply bind_Ok in Hrest as (robots & _ & Hrest).
    apply bind_Ok in Hrest as (compiled & _ & Hrest).
    by apply bind_Ok in Hrest as (_ & _ & [= <-]). }
  rewrite <-Heq in Hbins.
  assert (_get_obs self = Raise AttributeError) as Hobs
    by by apply get_obs_raises_before_reset.
  split; [done|]. unfold observation_space. by rewrite Hobs.
Qed.

Lemma fresh_environment_needs_reset_witness :
  ∃ self : AntMazeEnv point,
    __init__ (U:=Reference.utils Reference.one_robot)
      (Reference.kw false false 1) Reference.torso = Ok self ∧
    step (U:=Reference.utils Reference.one_robot) [1; 0]%Q self
      = Raise AttributeError ∧
    observation_space (U:=Reference.utils Reference.one_robot) self
      = Raise AttributeError.
Proof.
  eexists. split; [vm_compute; reflexivity|].
  match goal with
  | |- context [step _ ?s] =>
      destruct (fresh_environment_needs_reset
                  (U:=Reference.utils Reference.one_robot)
                  (Reference.kw false false 1) Reference.torso s [1; 0]%Q)
        as (_ & Hstep & Hobs)
  end.
  - vm_compute. reflexivity.
  - split; [exact Hstep|]. apply Hobs. simpl. lia.
Defined.

(** X2. With a negative ray count the sensor raises [ValueError] in every
    environment a program can hold, and with it [_get_obs],
    [observation_space] and [reset]; [step] then never returns. *)
Theorem negative_ray_count_raises {U : MazeEnvUtils} {E Info : Type}
    {PE : PhysicsEngine E Info} {G : Type} {RNG : Random G}
    (self : AntMazeEnv E) :
  reachable (G:=G) self →
  (_n_bins self < 0)%Z →
  get_range_sensor_obs self = Raise ValueError ∧
  _get_obs self = Raise ValueError ∧
  observation_space self = Raise ValueError ∧
  (∀ g : G, reset g self = Raise ValueError) ∧
  (∀ action, raises (step action self)).
Proof.
  intros Hcons%reachable_consistent Hbins.
  pose proof (get_obs_raises_negative_bins self Hcons Hbins) as Hobs.
  split; [by apply sensor_raises_negative_bins|]. split; [done|].
  split; [unfold observation_space; by rewrite Hobs|]. split.
  - intros g. rewrite reset_unfold. cbv zeta.
    assert (∀ e, _get_obs (with_state self (Some 0%Z) (Some []) e) = Raise ValueError)
      as Hreset by (intros e; by apply get_obs_raises_negative_bins).
    case_bool_decide as Hmany.
    + destruct (random_choice_draw (_init_positions self) g) as (xy & _ & ->); [lia|].
      rewrite bind_Ok_l. simpl. by rewrite Hreset.
    + by rewrite Hreset.
  - intros action. destruct (t self) as [n|] eqn:Ht;
      [|rewrite step_raises_before_reset by done; by eexists].
    rewrite (step_unfold self action n Ht). cbv zeta.
    match goal with |- raises (?m ≫= _) => destruct m as [collided|e] end;
      [|by eexists].
    rewrite bind_Ok_l, get_obs_raises_negative_bins; [by eexists|done..].
Qed.

Lemma negative_ray_count_raises_witness :
  ∃ self : AntMazeEnv point,
    __init__ (U:=Reference.utils Reference.one_robot)
      (Reference.kw false false (-1)) Reference.torso = Ok self ∧
    get_range_sensor_obs (U:=Reference.utils Reference.one_robot) self
      = Raise ValueError ∧
    reset (U:=Reference.utils Reference.one_robot) 0%nat self = Raise ValueError.
Proof.
  eexists. split; [vm_compute; reflexivity|].
  match goal with
  | |- context [get_range_sensor_obs ?s] =>
      destruct (negative_ray_count_raises
                  (U:=Reference.utils Reference.one_robot) (G:=nat) s)
        as (Hsensor & _ & _ & Hreset & _)
  end.
  - eapply (reachable_init (Reference.kw false false (-1)) Reference.torso).
    vm_compute. reflexivity.
  - simpl. lia.
  - split; [exact Hsensor|apply Hreset].
Defined.

(** ** The step counter and the engine state across [step] and [reset] *)

Section counter.
Context {U : MazeEnvUtils} {E Info : Type} {PE : PhysicsEngine E Info}.
Local Open Scope Q_scope.

(** An observation ends with the scaled step counter. *)
Lemma get_obs_last (self : AntMazeEnv E) (obs : list Q) :
  _get_obs self = Ok obs →
  ∃ n, t self = Some n ∧ last obs = Some (inject_Z n * 0.001).
Proof.
  unfold _get_obs, getattr_t.
  intros (readings & _ & Hrest)%bind_Ok.
  destruct (t self) as [n|]; [|done].
  apply bind_Ok in Hrest as (n' & [= <-] & [= <-]).
  exists n. split; [done|].
  rewrite !concat_app. simpl. rewrite !app_assoc. apply last_snoc.
Qed.
End counter.

(** X3. A call of [step] that returns was made with the step counter set,
    say to [n]; it leaves the counter at [n + 1], the last component of the
    observation it returns is [(n + 1) * 0.001], and apart from the counter
    and the engine state it changes no attribute: the trajectory log stays as
    it was, and so do the grid, the start offsets and the recorded blocks. *)
Theorem step_advances_counter {U : MazeEnvUtils} {E Info : Type}
    {PE : PhysicsEngine E Info}
    (self self' : AntMazeEnv E) (action next_obs : list Q)
    (reward : Q) (done : bool) (info : Info) :
  step action self = Ok (next_obs, reward, done, info, self') →
  ∃ n,
    t self = Some n ∧
    self' = with_state self (Some (n + 1)%Z) (trajectory self) (wrapped_env self') ∧
    last next_obs = Some (inject_Z (n + 1) * 0.001)%Q.
Proof.
  intros Hstep.
  destruct (t self) as [n|] eqn:Ht;
    [|by rewrite step_raises_before_reset in Hstep].
  exists n. split; [done|].
  rewrite (step_unfold self action n Ht) in Hstep. cbv zeta in Hstep.
  apply bind_Ok in Hstep as (collided & _ & Hstep).
  apply bind_Ok in Hstep as (obs & Hobs & [= <- _ _ _ <-]).
  split; [done|].
  by apply get_obs_last in Hobs as (n' & [= <-] & ?).
Qed.

Lemma step_advances_counter_witness :
  ∃ (self0 self self' : AntMazeEnv point) (obs0 next_obs : list Q) (g0 : nat),
    __init__ (U:=Reference.utils Reference.one_robot)
      (Reference.kw false false 1) Reference.torso = Ok self0 ∧
    reset (U:=Reference.utils Reference.one_robot) 0 self0 = Ok (obs0, self, g0) ∧
    step (U:=Reference.utils Reference.one_robot) [1; 0]%Q self
      = Ok (next_obs, 1%Q, false, (), self') ∧
    t self' = Some 1%Z ∧
    last next_obs = Some (inject_Z 1 * 0.001)%Q.
Proof.
  do 6 eexists. split; [vm_compute; reflexivity|].
  split; [vm_compute; reflexivity|].
  split; [vm_compute; reflexivity|].
  match goal with
  | |- t ?s' = _ ∧ last ?o = _ =>
      destruct (step_advances_counter
                  (U:=Reference.utils Reference.one_robot)
                  (with_state s' (Some 0%Z) (Some []) (0, 0)%Q) s' [1; 0]%Q o
                  1%Q false ())
        as (n & Ht & Hself & Hlast)
  end.
  - vm_compute. reflexivity.
  - injection Ht as <-. split; [reflexivity|exact Hlast].
Defined.

(** X4. Without manual-collision mode a call of [step] that returns
    leaves the engine in the state the engine's own step produced: the
    position is never rolled back, whatever the grid. *)
Theorem step_without_manual_collision {U : MazeEnvUtils} {E Info : Type}
    {PE : PhysicsEngine E Info}
    (self self' : AntMazeEnv E) (action next_obs : list Q)
    (reward : Q) (done : bool) (info : Info) :
  _manual_collision self = false →
  step action self = Ok (next_obs, reward, done, info, self') →
  wrapped_env self' = (wrapped_step action (update_cam (wrapped_env self))).2.
Proof.
  intros Hmanual Hstep.
  destruct (t self) as [n|] eqn:Ht;
    [|by rewrite step_raises_before_reset in Hstep].
  rewrite (step_unfold self action n Ht) in Hstep. cbv zeta in Hstep.
  rewrite Hmanual, bind_Ok_l in Hstep.
  by apply bind_Ok in Hstep as (obs & _ & [= _ _ _ _ <-]).
Qed.

Lemma step_without_manual_collision_witness :
  ∃ (self0 self self' : AntMazeEnv point) (obs0 next_obs : list Q) (g0 : nat),
    __init__ (U:=Reference.utils Reference.one_robot)
      (Reference.kw false false 1) Reference.torso = Ok self0 ∧
    reset (U:=Reference.utils Reference.one_robot) 0 self0 = Ok (obs0, self, g0) ∧
    step (U:=Reference.utils Reference.one_robot) [12; 0]%Q self
      = Ok (next_obs, 1%Q, false, (), self') ∧
    wrapped_env self' = (0 + 12, 0 + 0)%Q.
Proof.
  do 6 eexists. split; [vm_compute; reflexivity|].
  split; [vm_compute; reflexivity|].
  split; [vm_compute; reflexivity|].
  match goal with
  | |- wrapped_env ?s' = _ =>
      etrans;
        [eapply (step_without_manual_collision
                   (U:=Reference.utils Reference.one_robot)
                   (with_state s' (Some 0%Z) (Some []) (0, 0)%Q) s' [12; 0]%Q
                   _ 1%Q false ())|]
  end.
  - reflexivity.
  - vm_compute. reflexivity.
  - vm_compute. reflexivity.
Defined.

(** ** What the constructor records about the grid *)

Lemma existsb_rows {A} (p : A → bool) (rows : list (list A)) :
  existsb (λ row, existsb p row) rows = true
  ↔ ∃ i j row a, rows !! i = Some row ∧ row !! j = Some a ∧ p a = true.
Proof.
  rewrite existsb_exists. split.
  - intros (row & Hrow%list_elem_of_In & (a & Ha%list_elem_of_In & Hp)%existsb_exists).
    apply list_elem_of_lookup in Hrow as [i Hi], Ha as [j Hj].
    by exists i, j, row, a.
  - intros (i & j & row & a & Hi & Hj & Hp). exists row. split.
    + apply list_elem_of_In, list_elem_of_lookup. eauto.
    + apply existsb_exists. exists a. split; [|done].
      apply list_elem_of_In, list_elem_of_lookup. eauto.
Qed.

Section constructor_records.
Context {U : MazeEnvUtils} {E Info : Type} {PE : PhysicsEngine E Info}.
Local Open Scope Q_scope.

Lemma init_fields (kw : kwargs) (torso : element) (self : AntMazeEnv E) :
  __init__ kw torso = Ok self →
  construct_maze (maze_id kw) = Ok (MAZE_STRUCTURE self) ∧
  elevated self = existsb (λ row, py_in CHASM row) (MAZE_STRUCTURE self) ∧
  blocks self = existsb (λ row, existsb can_move row) (MAZE_STRUCTURE self) ∧
  MAZE_SIZE_SCALING self = maze_size_scaling kw ∧
  _sensor_range self = sensor_range kw * maze_size_scaling kw.
Proof.
  unfold __init__.
  intros (structure & Hmaze & Hrest)%bind_Ok.
  apply bind_Ok in Hrest as (torso_xy & _ & Hrest).
  apply bind_Ok in Hrest as (robots & _ & Hrest).
  apply bind_Ok in Hrest as (compiled & _ & Hrest).
  by apply bind_Ok in Hrest as (_ & _ & [= <-]).
Qed.

(** The robot the constructor centres the maze on is the first
    robot-start cell the loops visit. *)
Lemma find_robot_from_filter (structure : grid) (s : Q) (cells : list (nat * nat)) :
  Forall (λ ij, ∃ c, cell structure ij.1 ij.2 = Ok c) cells →
  _find_robot_from structure s cells
  = match filter (λ ij, cell structure ij.1 ij.2 = Ok ROBOT) cells with
    | [] => Raise (AssertionError "No robot in maze specification.")
    | ij :: _ => Ok (robot_coords s ij)
    end.
Proof.
  induction 1 as [|[i j] cells [c Hc] _ IH]; [done|].
  simpl in Hc. cbn [_find_robot_from]. rewrite Hc, bind_Ok_l.
  rewrite filter_cons. simpl. rewrite Hc.
  destruct (py_eq c ROBOT) eqn:Hr.
  - apply py_eq_true in Hr as ->. by rewrite decide_True.
  - apply py_eq_false in Hr. rewrite decide_False by congruence. done.
Qed.
End constructor_records.

(** X5. The constructor marks the maze as elevated exactly when some cell
    of the grid is a chasm, and as having blocks exactly when some cell
    carries a movable tag. *)
Theorem init_elevated_and_blocks {U : MazeEnvUtils} {E Info : Type}
    {PE : PhysicsEngine E Info} (kw : kwargs) (torso : element)
    (self : AntMazeEnv E) :
  __init__ kw torso = Ok self →
  (elevated self = true ↔ ∃ i j, tag_at (MAZE_STRUCTURE self) i j CHASM) ∧
  (blocks self = true
   ↔ ∃ i j c, tag_at (MAZE_STRUCTURE self) i j c ∧ can_move c = true).
Proof.
  intros (_ & -> & -> & _)%init_fields. split.
  - unfold py_in. rewrite existsb_rows. split.
    + intros (i & j & row & a & Hi & Hj & ->%py_eq_true). exists i, j. by exists row.
    + intros (i & j & row & Hi & Hj). exists i, j, row, CHASM.
      split; [done|]. split; [done|]. by apply py_eq_true.
  - rewrite existsb_rows. split.
    + intros (i & j & row & a & Hi & Hj & Hp). exists i, j, a. split; [|done].
      by exists row.
    + intros (i & j & c & (row & Hi & Hj) & Hp). by exists i, j, row, c.
Qed.

Lemma init_elevated_and_blocks_witness :
  ∃ self : AntMazeEnv point,
    __init__ (U:=Reference.utils [[ROBOT; CHASM; Reference.MoveXY]])
      (Reference.kw false false 1) Reference.torso = Ok self ∧
    elevated self = true ∧ blocks self = true.
Proof.
  eexists. split; [vm_compute; reflexivity|].
  match goal with
  | |- elevated ?s = _ ∧ _ =>
      destruct (init_elevated_and_blocks
                  (U:=Reference.utils [[ROBOT; CHASM; Reference.MoveXY]])
                  (Reference.kw false false 1) Reference.torso s)
        as [Helevated Hblocks]
  end.
  - vm_compute. reflexivity.
  - split.
    + apply Helevated. exists 0, 1. by exists [ROBOT; CHASM; Reference.MoveXY].
    + apply Hblocks. exists 0, 2, Reference.MoveXY. split; [|done].
      by exists [ROBOT; CHASM; Reference.MoveXY].
Defined.

(** X6. In every environment a program can hold the list of start offsets
    is not empty: the maze is centred on the first robot-start cell in
    row-major order, whose scaled coordinates are [_init_torso_x] and
    [_init_torso_y], and the first start offset is the origin. *)
Theorem first_start_offset_is_origin {U : MazeEnvUtils} {E Info : Type}
    {PE : PhysicsEngine E Info} {G : Type} {RNG : Random G}
    (self : AntMazeEnv E) :
  reachable (G:=G) self →
  ∃ i j rest offset,
    robot_cells (MAZE_STRUCTURE self) = (i, j) :: rest ∧
    _init_torso_x self = (num j * MAZE_SIZE_SCALING self)%Q ∧
    _init_torso_y self = (num i * MAZE_SIZE_SCALING self)%Q ∧
    head (_init_positions self) = Some offset ∧
    (offset.1 == 0)%Q ∧ (offset.2 == 0)%Q.
Proof.
  intros Hcons%reachable_consistent.
  pose proof (init_positions_robot_cells self Hcons) as Hpos.
  destruct Hcons as (Hcells & _ & robots & Hrobot & _ & _).
  unfold _find_robot in Hrobot. rewrite find_robot_from_filter in Hrobot by done.
  fold (robot_cells (MAZE_STRUCTURE self)) in Hrobot.
  destruct (robot_cells (MAZE_STRUCTURE self)) as [|[i j] rest]; [done|].
  injection Hrobot as Hx Hy. simpl in Hx, Hy.
  eexists i, j, rest, _. split; [done|]. split; [done|]. split; [done|].
  rewrite Hpos. simpl. split; [done|]. simpl. rewrite <-Hx, <-Hy.
  split; ring.
Qed.

Lemma first_start_offset_is_origin_witness :
  ∃ self : AntMazeEnv point,
    __init__ (U:=Reference.utils Reference.two_robots)
      (Reference.kw false false 1) Reference.torso = Ok self ∧
    ∃ offset, head (_init_positions self) = Some offset ∧
              (offset.1 == 0)%Q ∧ (offset.2 == 0)%Q.
Proof.
  eexists. split; [vm_compute; reflexivity|].
  match goal with
  | |- context [_init_positions ?s] =>
      destruct (first_start_offset_is_origin
                  (U:=Reference.utils Reference.two_robots) (G:=nat) s)
        as (i & j & rest & offset & _ & _ & _ & Hhead & Hx & Hy)
  end.
  - eapply (reachable_init (Reference.kw false false 1) Reference.torso).
    vm_compute. reflexivity.
  - by exists offset.
Defined.

(** ** Grids that are not two-dimensional *)

Lemma cell_raises (structure : grid) (i j : nat) (e : exn) :
  cell structure i j = Raise e → e = IndexError.
Proof.
  unfold cell, getitem. intros Hraise.
  destruct (_ !! i) as [row|]; simpl in Hraise; [|congruence].
  destruct (_ !! j); congruence.
Qed.

(** A loop over the cells stops with [IndexError] at the first index pair
    it cannot read. *)
Lemma for_each_cell_raises {S} (structure : grid)
    (body : nat * nat → S → result S) (cells : list (nat * nat)) (s : S) :
  (∀ ij s, (∃ c, cell structure ij.1 ij.2 = Ok c) → ∃ s', body ij s = Ok s') →
  (∀ ij s e, cell structure ij.1 ij.2 = Raise e → body ij s = Raise e) →
  Exists (λ ij, ∀ c, cell structure ij.1 ij.2 ≠ Ok c) cells →
  for_each body cells s = Raise IndexError.
Proof.
  intros Hok Hraise Hex. revert s.
  induction cells as [|ij cells IH]; intros s; [by apply Exists_nil in Hex|].
  rewrite for_each_cons.
  destruct (cell structure ij.1 ij.2) as [c|e] eqn:Hc.
  - destruct (Hok ij s) as [s' ->]; [by eauto|]. rewrite bind_Ok_l.
    apply IH. apply Exists_cons in Hex as [Hhere|Hthere]; [|done].
    by destruct (Hhere c).
  - rewrite (Hraise ij s e Hc). simpl. f_equal. by eapply cell_raises.
Qed.

Lemma short_row_unreadable (structure : grid) (i : nat) (row : list value) :
  structure !! i = Some row → length row < ncols structure →
  Exists (λ ij, ∀ c, cell structure ij.1 ij.2 ≠ Ok c) (cell_range structure).
Proof.
  intros Hrow Hshort. apply Exists_exists. exists (i, length row). split.
  - apply elem_of_cell_range. split; [by eapply lookup_lt_Some|done].
  - intros c (row' & Hrow' & Hc)%cell_Ok. simpl in *.
    rewrite Hrow in Hrow'. injection Hrow' as <-.
    apply lookup_lt_Some in Hc. lia.
Qed.

(** X7. The loops take the number of columns from the first row: when some
    row is shorter than the first, [_find_all_robots] raises [IndexError],
    and the constructor never returns an environment for that grid. *)
Theorem short_row_raises {U : MazeEnvUtils} {E Info : Type}
    {PE : PhysicsEngine E Info} (structure : grid) (size_scaling : Q)
    (i : nat) (row : list value) :
  structure !! i = Some row →
  length row < ncols structure →
  _find_all_robots structure size_scaling = Raise IndexError ∧
  ∀ kw torso,
    construct_maze (maze_id kw) = Ok structure →
    raises (__init__ (E:=E) kw torso).
Proof.
  intros Hrow Hshort.
  assert (Hall : ∀ s, _find_all_robots structure s = Raise IndexError).
  { intros s. unfold _find_all_robots.
    apply (for_each_cell_raises structure); [| |by eapply short_row_unreadable].
    - intros [i' j'] coords [c Hc]. simpl in Hc. rewrite Hc. by eexists.
    - intros [i' j'] coords e Hc. simpl in Hc. by rewrite Hc. }
  split; [done|].
  intros kw torso Hmaze. unfold __init__. rewrite Hmaze, bind_Ok_l.
  destruct (_find_robot _ _) as [torso_xy|]; [|by eexists].
  rewrite bind_Ok_l, Hall. by eexists.
Qed.

Lemma short_row_raises_witness :
  _find_all_robots [[ROBOT; VInt 0]; [WALL]] 8 = Raise IndexError ∧
  _find_robot [[ROBOT; VInt 0]; [WALL]] 8 = Ok (num 0 * 8, num 0 * 8)%Q ∧
  raises (__init__ (U:=Reference.utils [[ROBOT; VInt 0]; [WALL]]) (E:=point)
            (Reference.kw false false 1) Reference.torso).
Proof.
  destruct (short_row_raises (U:=Reference.utils [[ROBOT; VInt 0]; [WALL]])
              (E:=point) [[ROBOT; VInt 0]; [WALL]] 8 1 [WALL])
    as [Hall Hinit].
  - reflexivity.
  - unfold ncols. simpl. lia.
  - split; [exact Hall|]. split; [reflexivity|]. by apply Hinit.
Defined.

(** ** Which segment a ray reports *)

(** The head of the sorted list is the first of the nearest elements:
    everything before it in the original order is strictly farther. *)
Lemma sorted_by_distance_head_earliest (l : list ray_segment) :
  match sorted_by_distance l with
  | [] => l = []
  | first_seg :: _ =>
      ∃ before after,
        l = before ++ first_seg :: after ∧
        Forall (λ h, (hit_distance first_seg < hit_distance h)%Q) before ∧
        Forall (λ h, (hit_distance first_seg <= hit_distance h)%Q) after
  end.
Proof.
  induction l as [|x l IH]; [done|]. simpl.
  destruct (sorted_by_distance l) as [|y r]; simpl.
  - subst l. exists [], []. by repeat split.
  - destruct IH as (before & after & -> & Hbefore & Hafter).
    destruct (Qle_bool (hit_distance x) (hit_distance y)) eqn:Hxy.
    + apply Qle_bool_iff in Hxy. exists [], (before ++ y :: after).
      split; [done|]. split; [constructor|].
      apply Forall_app. split; [|apply Forall_cons_2].
      * eapply Forall_impl; [exact Hbefore|]. intros h Hh. simpl in Hh.
        apply Qlt_le_weak. by eapply Qle_lt_trans.
      * done.
      * eapply Forall_impl; [exact Hafter|]. intros h Hh. simpl in Hh.
        by eapply Qle_trans.
    + apply Qle_bool_false in Hxy. exists (x :: before), after.
      split; [done|]. split; [by constructor|done].
Qed.

(** X8. Ties between segments at the same distance go to the one that
    comes first in the segment list: the segment a ray reports is met by the
    ray, every segment the ray meets earlier in the list is strictly farther,
    and every one later in the list is at least as far. *)
Theorem nearest_segment_ties_go_to_first {U : MazeEnvUtils} {E Info : Type}
    {PE : PhysicsEngine E Info} (self : AntMazeEnv E)
    (segments : list typed_segment) (ray_idx : nat) (first_seg : ray_segment) :
  head (sorted_by_distance (ray_hits self segments ray_idx)) = Some first_seg →
  ∃ before after,
    ray_hits self segments ray_idx = before ++ first_seg :: after ∧
    Forall (λ h, (hit_distance first_seg < hit_distance h)%Q) before ∧
    Forall (λ h, (hit_distance first_seg <= hit_distance h)%Q) after.
Proof.
  intros Hhead.
  pose proof (sorted_by_distance_head_earliest (ray_hits self segments ray_idx)) as Hmin.
  destruct (sorted_by_distance _) as [|fs rest]; [done|].
  by injection Hhead as <-.
Qed.

Lemma nearest_segment_ties_go_to_first_witness :
  let segments :=
    [{| seg_segment := ((12, -4), (12, 4))%Q; seg_type := WALL |};
     {| seg_segment := ((12, -4), (12, 4))%Q; seg_type := Reference.MoveXY |}] in
  ∃ self : AntMazeEnv point,
    __init__ (U:=Reference.utils Reference.one_robot)
      (Reference.kw false false 1) Reference.torso = Ok self ∧
    ∃ first_seg after,
      hit_type first_seg = WALL ∧
      ray_hits (U:=Reference.utils Reference.one_robot) self segments 0
        = first_seg :: after ∧
      Forall (λ h, (hit_distance first_seg <= hit_distance h)%Q) after ∧
      length after = 1.
Proof.
  intros segments. eexists. split; [vm_compute; reflexivity|].
  match goal with
  | |- context [ray_hits ?s] =>
      destruct (nearest_segment_ties_go_to_first
                  (U:=Reference.utils Reference.one_robot) s segments 0
                  {| hit_segment := ((12, -4), (12, 4))%Q; hit_type := WALL;
                     hit_ray_ori := ray_ori_of s 0;
                     hit_distance := Reference.manhattan (12, 0)%Q (0, 0)%Q |})
        as (before & after & Hhits & Hbefore & Hafter)
  end.
  - reflexivity.
  - destruct before as [|b before].
    + eexists _, after. split; [|split; [exact Hhits|split; [exact Hafter|]]].
      * reflexivity.
      * apply (f_equal length) in Hhits. simpl in Hhits. lia.
    + exfalso. apply Forall_cons in Hbefore as [Hlt _].
      injection Hhits as <- _. by vm_compute in Hlt.
Defined.

(** ** What the sensor sees *)

Section segment_list.
Context {U : MazeEnvUtils} {E Info : Type} {PE : PhysicsEngine E Info}.
Local Open Scope Q_scope.


End segment_list.



(** ** Names across the whole scene *)

Lemma underscores_app (a b : string) :
  underscores (a +:+ b) = underscores a + underscores b.
Proof. induction a as [|c a IH]; [done|]. simpl. rewrite IH. lia. Qed.

Lemma underscores_free (s : string) : underscore_free s → underscores s = 0.
Proof.
  induction s as [|c s IH]; [done|]. intros [Hc Hs]. simpl.
  rewrite bool_decide_eq_false_2 by done. by rewrite IH.
Qed.

Lemma underscores_name_ij (prefix : string) (i j : nat) :
  underscores (name_ij prefix i j) = underscores prefix + 1.
Proof.
  unfold name_ij. rewrite !underscores_app.
  rewrite (underscores_free (fmt_d i)), (underscores_free (fmt_d j))
    by apply fmt_d_underscore_free.
  simpl. lia.
Qed.

(** A name tells its prefix and its cell. *)
Lemma name_ij_prefix_inj (p p' : string) (i j i' j' : nat) :
  p ∈ name_prefixes → p' ∈ name_prefixes →
  name_ij p i j = name_ij p' i' j' → p = p' ∧ i = i' ∧ j = j'.
Proof.
  intros Hp Hp' Heq.
  assert (p = p') as <-.
  { pose proof (f_equal underscores Heq) as Hcount.
    rewrite !underscores_name_ij in Hcount.
    unfold name_prefixes in Hp, Hp'.
    repeat (apply elem_of_cons in Hp as [->|Hp]);
      [..|by apply elem_of_nil in Hp];
      repeat (apply elem_of_cons in Hp' as [->|Hp']);
      try (by apply elem_of_nil in Hp');
      try reflexivity;
      try (simpl in Hcount; lia);
      unfold name_ij in Heq; simpl in Heq; discriminate Heq. }
  split; [done|]. by apply name_ij_inj in Heq.
Qed.

Lemma descendants_app_children (l1 l2 : list element) :
  scene_elements (l1 ++ l2) = scene_elements l1 ++ scene_elements l2.
Proof.
  unfold scene_elements. rewrite !descendants_children. by rewrite bind_app.
Qed.

Lemma scene_elements_bind {A} (g : A → list element) (l : list A) :
  scene_elements (l ≫= g) = l ≫= λ x, scene_elements (g x).
Proof.
  induction l as [|x l IH]; [done|].
  rewrite !bind_cons, descendants_app_children. by rewrite IH.
Qed.

Lemma filter_list_bind {A B} (P : B → Prop) `{∀ x, Decision (P x)}
    (g : A → list B) (l : list A) :
  filter P (l ≫= g) = l ≫= λ x, filter P (g x).
Proof.
  induction l as [|x l IH]; [done|].
  by rewrite !bind_cons, filter_app, IH.
Qed.

(** Case analysis on every condition of the goal. *)
Ltac case_conditions :=
  repeat match goal with
         | |- context [if ?b then _ else _] => destruct b
         end.

Section scene_names.
Context {U : MazeEnvUtils}.
Variables (structure : grid) (height size_scaling torso_x torso_y height_offset : Q).
Variables (is_elevated spin_near_agent : bool).

Local Abbreviation cell_elements' :=
  (cell_elements structure height size_scaling torso_x torso_y height_offset
     is_elevated spin_near_agent).

Lemma cell_prefixes_known (c : value) (p : string) :
  p ∈ cell_name_prefixes is_elevated spin_near_agent c → p ∈ name_prefixes.
Proof.
  unfold cell_name_prefixes, name_prefixes. cbv zeta.
  case_conditions; simpl; rewrite ?elem_of_cons, ?elem_of_nil; tauto.
Qed.

Lemma cell_prefixes_NoDup (c : value) :
  NoDup (cell_name_prefixes is_elevated spin_near_agent c).
Proof.
  unfold cell_name_prefixes. cbv zeta.
  case_conditions; simpl; by apply (bool_decide_unpack _).
Qed.

(** The elements one cell contributes carry the names of its prefixes. *)
Lemma cell_scene_names (i j : nat) (c : value) :
  scene_names (cell_elements' i j c)
  = (λ p, Some (Text (name_ij p i j)))
    <$> cell_name_prefixes is_elevated spin_near_agent c.
Proof.
  unfold scene_names, scene_elements, cell_elements, cell_name_prefixes, movable_body.
  cbv zeta.
  case_conditions; reflexivity.
Qed.

Lemma scene_names_NoDup (cells : list (nat * nat)) :
  NoDup cells →
  NoDup (scene_names
           (cells ≫= λ ij, cell_elements' ij.1 ij.2 (tag_of_cell structure ij))).
Proof.
  intros Hnd. unfold scene_names. rewrite scene_elements_bind, fmap_list_bind.
  assert (Hinj : ∀ a b, Some (Text a) = Some (Text b) → a = b)
    by (by intros ?? [= ->]).
  assert (Hcell : ∀ i j c,
    name_of <$> scene_elements (cell_elements' i j c)
    = (λ p, Some (Text (name_ij p i j)))
      <$> cell_name_prefixes is_elevated spin_near_agent c)
    by apply cell_scene_names.
  apply NoDup_bind; [| |done].
  - intros [i1 j1] [i2 j2] n _ _ H1 H2. cbn [fst snd] in H1, H2.
    rewrite Hcell in H1, H2.
    apply list_elem_of_fmap in H1 as (p1 & -> & Hp1), H2 as (p2 & Heq & Hp2).
    apply Hinj in Heq.
    apply name_ij_prefix_inj in Heq as (_ & -> & ->);
      [done|by eapply cell_prefixes_known..].
  - intros [i j] _. cbn [fst snd]. rewrite Hcell.
    apply NoDup_fmap_2_strong; [|apply cell_prefixes_NoDup].
    intros p1 p2 Hp1 Hp2 Heq. apply Hinj in Heq.
    by apply name_ij_prefix_inj in Heq as (-> & _);
      [|by eapply cell_prefixes_known..].
Qed.

(** The blocks one cell records are the bodies it contributes. *)
Lemma cell_blocks_bodies (i j : nat) (c : value) :
  name_of <$> scene_bodies (cell_elements' i j c)
  = (λ block : string * value, Some (Text block.1))
    <$> cell_blocks spin_near_agent i j c.
Proof.
  unfold scene_bodies, findall, cell_elements, cell_blocks, movable_body.
  cbv zeta.
  case_conditions; reflexivity.
Qed.

Lemma scene_bodies_bind {A} (g : A → list element) (l : list A) :
  scene_bodies (l ≫= g) = l ≫= λ x, scene_bodies (g x).
Proof.
  unfold scene_bodies, findall.
  fold (scene_elements (l ≫= g)). rewrite scene_elements_bind, filter_list_bind.
  done.
Qed.

Lemma blocks_are_bodies (cells : list (nat * nat)) :
  name_of <$> scene_bodies
    (cells ≫= λ ij, cell_elements' ij.1 ij.2 (tag_of_cell structure ij))
  = (λ block : string * value, Some (Text block.1))
    <$> (cells ≫= λ ij, cell_blocks spin_near_agent ij.1 ij.2 (tag_of_cell structure ij)).
Proof.
  rewrite scene_bodies_bind, !fmap_list_bind.
  apply list_bind_ext; [|done]. intros [i j]. apply cell_blocks_bodies.
Qed.
End scene_names.

(** X10. Whatever the grid, the elements the scene compiler adds — geoms,
    bodies and joints alike — all carry a name, and no two of them carry the
    same one. *)
Theorem scene_names_distinct {U : MazeEnvUtils}
    (structure : grid) (height size_scaling torso_x torso_y height_offset : Q)
    (is_elevated spin_near_agent : bool)
    (compiled : list element * list (string * value)) :
  compile_scene structure height size_scaling torso_x torso_y height_offset
    is_elevated spin_near_agent = Ok compiled →
  Forall (λ n, is_Some n) (scene_names compiled.1) ∧
  NoDup (scene_names compiled.1).
Proof.
  intros Hcompiled.
  pose proof (compile_cells_valid _ _ _ _ _ _ _ _ _ _ _ Hcompiled) as Hvalid.
  unfold compile_scene in Hcompiled.
  rewrite compile_cells_spec in Hcompiled by done.
  injection Hcompiled as <-. simpl. split.
  - unfold scene_names. rewrite scene_elements_bind, fmap_list_bind.
    apply Forall_forall. intros n (ij & Hn & _)%list_elem_of_bind.
    pose proof (cell_scene_names structure height size_scaling torso_x torso_y
                  height_offset is_elevated spin_near_agent ij.1 ij.2
                  (tag_of_cell structure ij)) as Hcell.
    unfold scene_names in Hcell. rewrite Hcell in Hn.
    by apply list_elem_of_fmap in Hn as (p & -> & _).
  - apply scene_names_NoDup, NoDup_cell_range.
Qed.

Lemma scene_names_distinct_witness :
  ∃ compiled,
    compile_scene (U:=Reference.utils [[ROBOT; Reference.MoveXYZ; WALL]])
      [[ROBOT; Reference.MoveXYZ; WALL]] 0.5 8 0 0 0 true true = Ok compiled ∧
    length (scene_names compiled.1) = 14 ∧
    NoDup (scene_names compiled.1).
Proof.
  eexists. split; [vm_compute; reflexivity|]. split; [reflexivity|].
  eapply (scene_names_distinct (U:=Reference.utils [[ROBOT; Reference.MoveXYZ; WALL]])
            [[ROBOT; Reference.MoveXYZ; WALL]] 0.5 8 0 0 0 true true).
  vm_compute. reflexivity.
Defined.

(** X11. The blocks the constructor records are exactly the bodies it adds
    to the scene: same names, same order. *)
Theorem recorded_blocks_are_scene_bodies {U : MazeEnvUtils}
    (structure : grid) (height size_scaling torso_x torso_y height_offset : Q)
    (is_elevated spin_near_agent : bool)
    (compiled : list element * list (string * value)) :
  compile_scene structure height size_scaling torso_x torso_y height_offset
    is_elevated spin_near_agent = Ok compiled →
  name_of <$> scene_bodies compiled.1
  = (λ block : string * value, Some (Text block.1)) <$> compiled.2.
Proof.
  intros Hcompiled.
  pose proof (compile_cells_valid _ _ _ _ _ _ _ _ _ _ _ Hcompiled) as Hvalid.
  unfold compile_scene in Hcompiled.
  rewrite compile_cells_spec in Hcompiled by done.
  injection Hcompiled as <-. simpl. apply blocks_are_bodies.
Qed.

Lemma recorded_blocks_are_scene_bodies_witness :
  ∃ compiled,
    compile_scene (U:=Reference.utils [[ROBOT; Reference.MoveXYZ; WALL]])
      [[ROBOT; Reference.MoveXYZ; WALL]] 0.5 8 0 0 0 true true = Ok compiled ∧
    name_of <$> scene_bodies compiled.1
    = [Some (Text "movable_0_0"); Some (Text "movable_0_1")] ∧
    compiled.2 = [("movable_0_0", Reference.MoveSpinXY);
                  ("movable_0_1", Reference.MoveXYZ)].
Proof.
  eexists. split; [vm_compute; reflexivity|]. split; [|reflexivity].
  etrans.
  - eapply (recorded_blocks_are_scene_bodies
              (U:=Reference.utils [[ROBOT; Reference.MoveXYZ; WALL]])
              [[ROBOT; Reference.MoveXYZ; WALL]] 0.5 8 0 0 0 true true).
    vm_compute. reflexivity.
  - reflexivity.
Defined.

Section recorded_blocks.
Context {U : MazeEnvUtils} {E Info : Type} {PE : PhysicsEngine E Info}.
Context {G : Type} {RNG : Random G}.

Lemma init_movable_blocks (kw : kwargs) (torso : element) (self : AntMazeEnv E) :
  __init__ kw torso = Ok self →
  movable_blocks self
  = cell_range (MAZE_STRUCTURE self) ≫= λ ij,
      cell_blocks (_put_spin_near_agent self) ij.1 ij.2
        (tag_of_cell (MAZE_STRUCTURE self) ij).
Proof.
  unfold __init__.
  intros (structure & _ & Hrest)%bind_Ok.
  apply bind_Ok in Hrest as (torso_xy & _ & Hrest).
  apply bind_Ok in Hrest as (robots & _ & Hrest).
  apply bind_Ok in Hrest as (compiled & Hcompiled & Hrest).
  apply bind_Ok in Hrest as (_ & _ & [= <-]).
  pose proof (compile_cells_valid _ _ _ _ _ _ _ _ _ _ _ Hcompiled) as Hvalid.
  unfold compile_scene in Hcompiled.
  rewrite compile_cells_spec in Hcompiled by done.
  by injection Hcompiled as <-.
Qed.

Lemma reachable_movable_blocks (self : AntMazeEnv E) :
  reachable (G:=G) self →
  movable_blocks self
  = cell_range (MAZE_STRUCTURE self) ≫= λ ij,
      cell_blocks (_put_spin_near_agent self) ij.1 ij.2
        (tag_of_cell (MAZE_STRUCTURE self) ij).
Proof.
  induction 1 as [kw torso self Hinit
                 |g self obs self' g' _ IH Hreset
                 |action self out self' _ IH Hstep].
  - by eapply init_movable_blocks.
  - by apply reset_with_state in Hreset as [e ->].
  - by apply step_with_state in Hstep as (t' & e & ->).
Qed.
End recorded_blocks.

(** X12. In every environment a program can hold, the recorded blocks have
    pairwise distinct names, each one the name [movable_i_j] of a cell the
    loops visit whose tag (a robot-start cell counting as [Move.SpinXY] when
    [put_spin_near_agent] is set) is the recorded one, is movable and is not
    the wall tag. *)
Theorem recorded_block_names_distinct {U : MazeEnvUtils} {E Info : Type}
    {PE : PhysicsEngine E Info} {G : Type} {RNG : Random G}
    (self : AntMazeEnv E) :
  reachable (G:=G) self →
  NoDup (movable_blocks self).*1 ∧
  ∀ name struct, (name, struct) ∈ movable_blocks self →
    ∃ i j c,
      (i, j) ∈ cell_range (MAZE_STRUCTURE self) ∧
      cell (MAZE_STRUCTURE self) i j = Ok c ∧
      struct = effective_struct (_put_spin_near_agent self) c ∧
      name = name_ij "movable_" i j ∧
      can_move struct = true ∧ struct ≠ WALL.
Proof.
  intros Hreach. pose proof (reachable_movable_blocks self Hreach) as Hblocks.
  apply reachable_consistent in Hreach as (Hcells & _).
  assert (Hcell : ∀ ij block,
    block ∈ cell_blocks (_put_spin_near_agent self) ij.1 ij.2
              (tag_of_cell (MAZE_STRUCTURE self) ij) →
    block = (name_ij "movable_" ij.1 ij.2,
             effective_struct (_put_spin_near_agent self)
               (tag_of_cell (MAZE_STRUCTURE self) ij)) ∧
    can_move block.2 = true ∧ block.2 ≠ WALL).
  { intros ij block. unfold cell_blocks.
    destruct (py_eq _ WALL) eqn:Hwall; [by intros []%elem_of_nil|].
    destruct (can_move _) eqn:Hmove; [|by intros []%elem_of_nil].
    intros ->%list_elem_of_singleton. by apply py_eq_false in Hwall. }
  rewrite Hblocks. split.
  - rewrite fmap_list_bind. apply NoDup_bind; [| |apply NoDup_cell_range].
    + intros ij1 ij2 name _ _
        (b1 & -> & [-> _]%Hcell)%list_elem_of_fmap
        (b2 & Heq & [-> _]%Hcell)%list_elem_of_fmap.
      simpl in Heq. apply name_ij_inj in Heq as [? ?].
      destruct ij1, ij2. simpl in *. by subst.
    + intros ij _. unfold cell_blocks.
      destruct (py_eq _ WALL); [constructor|].
      destruct (can_move _); [apply NoDup_singleton|constructor].
  - intros name struct (ij & Hin & Hij)%list_elem_of_bind.
    destruct (Hcell ij _ Hin) as ([= -> ->] & Hmove & Hwall).
    destruct (proj1 (Forall_forall _ _) Hcells ij Hij) as [c Hc].
    exists ij.1, ij.2, c. rewrite (tag_of_cell_Ok _ ij c Hc) in *.
    destruct ij. done.
Qed.

Lemma recorded_block_names_distinct_witness :
  ∃ self : AntMazeEnv point,
    __init__ (U:=Reference.utils [[ROBOT; Reference.MoveXYZ; WALL]])
      (Reference.kw true false 1) Reference.torso = Ok self ∧
    (movable_blocks self).*1 = ["movable_0_0"; "movable_0_1"] ∧
    NoDup (movable_blocks self).*1.
Proof.
  eexists. split; [vm_compute; reflexivity|]. split; [reflexivity|].
  match goal with
  | |- NoDup (movable_blocks ?s).*1 =>
      apply (recorded_block_names_distinct
               (U:=Reference.utils [[ROBOT; Reference.MoveXYZ; WALL]]) (G:=nat) s)
  end.
  eapply (reachable_init (Reference.kw true false 1) Reference.torso).
  vm_compute. reflexivity.
Defined.

(** X13. On a 2-D grid, the compiled scene has a platform geom
    [elevated_i_j] exactly for the cells of an elevated maze whose tag (a
    robot-start cell counting as [Move.SpinXY] when [put_spin_near_agent] is
    set) is not the chasm tag: chasms are the holes of the platform, and a
    maze that is not elevated has no platform at all. *)
Theorem platform_under_every_cell_but_chasms {U : MazeEnvUtils}
    (structure : grid) (height size_scaling torso_x torso_y height_offset : Q)
    (is_elevated spin_near_agent : bool) :
  rectangular structure →
  ∃ compiled,
    compile_scene structure height size_scaling torso_x torso_y height_offset
      is_elevated spin_near_agent = Ok compiled ∧
    ∀ i j,
      Some (Text (name_ij "elevated_" i j)) ∈ scene_names compiled.1
      ↔ is_elevated = true ∧
        ∃ c, tag_at structure i j c ∧ effective_struct spin_near_agent c ≠ CHASM.
Proof.
  intros Hrect. eexists. split; [by apply compile_scene_rectangular|].
  intros i j. simpl. unfold scene_names.
  rewrite scene_elements_bind, fmap_list_bind, list_elem_of_bind.
  assert (Hcell : ∀ i' j' c,
    Some (Text (name_ij "elevated_" i j))
      ∈ name_of <$> scene_elements
          (cell_elements structure height size_scaling torso_x torso_y
             height_offset is_elevated spin_near_agent i' j' c)
    ↔ (i' = i ∧ j' = j) ∧ is_elevated = true
      ∧ effective_struct spin_near_agent c ≠ CHASM).
  { intros i' j' c.
    pose proof (cell_scene_names structure height size_scaling torso_x torso_y
                  height_offset is_elevated spin_near_agent i' j' c) as Hnames.
    unfold scene_names in Hnames. rewrite Hnames, list_elem_of_fmap. split.
    - intros (p & [= Heq] & Hp).
      pose proof (cell_prefixes_known _ _ _ _ Hp) as Hknown.
      apply name_ij_prefix_inj in Heq as (<- & -> & ->);
        [|by apply (bool_decide_unpack _)|done].
      split; [done|].
      unfold cell_name_prefixes in Hp. cbv zeta in Hp.
      unfold py_in in Hp. simpl in Hp. rewrite orb_false_r in Hp.
      destruct is_elevated; simpl in Hp.
      + destruct (py_eq _ CHASM) eqn:Hchasm; simpl in Hp.
        * exfalso. revert Hp. case_conditions; simpl;
            rewrite ?elem_of_cons, ?elem_of_nil; intros Hp;
            repeat destruct Hp as [Hp|Hp]; done.
        * split; [done|]. by apply py_eq_false.
      + exfalso. revert Hp. case_conditions; simpl;
          rewrite ?elem_of_cons, ?elem_of_nil; intros Hp;
          repeat destruct Hp as [Hp|Hp]; done.
    - intros ([-> ->] & -> & Hne%py_eq_false). exists "elevated_". split; [done|].
      unfold cell_name_prefixes. cbv zeta. unfold py_in. simpl.
      rewrite orb_false_r, Hne. simpl. apply list_elem_of_here. }
  split.
  - intros ([i' j'] & Hin & Hrange). cbn [fst snd] in Hin.
    apply Hcell in Hin as ([-> ->] & Helev & Hne). split; [done|].
    destruct (rectangular_cell structure i j Hrect Hrange) as [c Hc].
    exists c. split; [by apply cell_Ok|].
    by rewrite (tag_of_cell_Ok structure (i, j) c Hc) in Hne.
  - intros (Helev & c & Htag & Hne). exists (i, j). split.
    + cbn [fst snd]. apply Hcell. split; [done|]. split; [done|].
      by rewrite (tag_of_cell_Ok structure (i, j) c) by by apply cell_Ok.
    + by eapply tag_at_cell_range.
Qed.

Lemma platform_under_every_cell_but_chasms_witness :
  ∃ compiled,
    compile_scene (U:=Reference.utils [[ROBOT; CHASM]])
      [[ROBOT; CHASM]] 0.5 8 0 0 4 true false = Ok compiled ∧
    Some (Text "elevated_0_0") ∈ scene_names compiled.1 ∧
    Some (Text "elevated_0_1") ∉ scene_names compiled.1.
Proof.
  destruct (platform_under_every_cell_but_chasms (U:=Reference.utils [[ROBOT; CHASM]])
              [[ROBOT; CHASM]] 0.5 8 0 0 4 true false)
    as (compiled & Hcompiled & Hplatform).
  - repeat constructor.
  - exists compiled. split; [exact Hcompiled|]. split.
    + apply (Hplatform 0 0). split; [done|]. exists ROBOT.
      split; [by exists [ROBOT; CHASM]|done].
    + intros (_ & c & (row & Hrow & Hc) & Hne)%(Hplatform 0 1).
      by simplify_eq/=.
Defined.

(** ** The top-down view *)

Section shares.
Local Open Scope Q_scope.

Lemma py_mod1_range (q : Q) : 0 <= py_mod1 q ∧ py_mod1 q < 1.
Proof.
  unfold py_mod1. pose proof (Qfloor_le q) as Hle. pose proof (Qlt_floor q) as Hlt.
  rewrite inject_Z_plus in Hlt. change (inject_Z 1) with 1 in Hlt. split; lra.
Qed.

(** The correction of a negative fractional part never applies. *)
Lemma py_mod1_not_negative (q : Q) :
  (if Qlt_bool (py_mod1 q) 0 then py_mod1 q + 1 else py_mod1 q) = py_mod1 q.
Proof.
  unfold Qlt_bool. destruct (py_mod1_range q) as [Hle%Qle_bool_iff _].
  by rewrite Hle.
Qed.

Lemma py_min_cases (a b : Q) : (a <= b ∧ py_min a b = a) ∨ (b < a ∧ py_min a b = b).
Proof.
  unfold py_min. destruct (Qle_bool a b) eqn:Hab.
  - left. by apply Qle_bool_iff in Hab.
  - right. by apply Qle_bool_false in Hab.
Qed.

Lemma py_max_cases (a b : Q) : (b <= a ∧ py_max a b = a) ∨ (a < b ∧ py_max a b = b).
Proof.
  unfold py_max. destruct (Qle_bool b a) eqn:Hab.
  - left. by apply Qle_bool_iff in Hab.
  - right. by apply Qle_bool_false in Hab.
Qed.

Lemma shares_nonneg (f : Q) :
  0 <= f → f < 1 →
  0 <= share_centre f ∧ 0 <= share_before f ∧ 0 <= share_after f.
Proof.
  intros H0 H1. unfold share_centre, share_before, share_after.
  destruct (py_min_cases 1.0 (f + 0.5)) as [[? ->]|[? ->]],
           (py_max_cases 0.0 (f - 0.5)) as [[? ->]|[? ->]],
           (py_max_cases 0.0 (0.5 - f)) as [[? ->]|[? ->]];
    repeat split; lra.
Qed.

(** The three shares of a coordinate add up to one. *)
Lemma shares_sum (f : Q) :
  0 <= f → f < 1 → share_centre f + share_before f + share_after f == 1.
Proof.
  intros H0 H1. unfold share_centre, share_before, share_after.
  destruct (py_min_cases 1.0 (f + 0.5)) as [[? ->]|[? ->]],
           (py_max_cases 0.0 (f - 0.5)) as [[? ->]|[? ->]],
           (py_max_cases 0.0 (0.5 - f)) as [[? ->]|[? ->]]; lra.
Qed.

Lemma Qsum_cons (x : Q) (l : list Q) : Qsum (x :: l) = x + Qsum l.
Proof. reflexivity. Qed.

Lemma Qsum_nonneg (l : list Q) : Forall (λ x, 0 <= x) l → 0 <= Qsum l.
Proof. induction 1 as [|x l Hx _ IH]; simpl; lra. Qed.

Lemma Qsum_le (l l' : list Q) : Forall2 Qle l l' → Qsum l <= Qsum l'.
Proof. induction 1 as [|x y l l' Hxy _ IH]; simpl; lra. Qed.

(** Changing one element changes the sum by the change of that element. *)
Lemma Qsum_fmap_alter {A} (f : A → Q) (g : A → A) (l : list A) (i : nat)
    (x : A) (delta : Q) :
  l !! i = Some x → f (g x) == f x + delta →
  Qsum (f <$> alter g i l) == Qsum (f <$> l) + delta.
Proof.
  intros Hx Hdelta. revert i Hx.
  induction l as [|y l IH]; intros [|i] Hx; simplify_eq/=.
  - rewrite Hdelta. ring.
  - rewrite (IH i Hx). ring.
Qed.

Lemma Qsum_fmap_ext {A} (f g : A → Q) (l : list A) :
  Forall (λ x, f x == g x) l → Qsum (f <$> l) == Qsum (g <$> l).
Proof. induction 1 as [|x l Hx _ IH]; simpl; [reflexivity|]. by rewrite Hx, IH. Qed.
End shares.

Section view_updates.
Local Open Scope Q_scope.

Lemma has_shape_lookup (rows cols depth : nat) (v : view) (i j : nat) :
  has_shape rows cols depth v → (i < rows)%nat → (j < cols)%nat →
  ∃ row px, v !! i = Some row ∧ row !! j = Some px ∧ length px = depth.
Proof.
  intros [Hrows Hall] Hi Hj.
  destruct (lookup_lt_is_Some_2 v i) as [row Hrow]; [lia|].
  destruct (proj1 (Forall_lookup _ _) Hall i row Hrow) as [Hcols Hpx].
  destruct (lookup_lt_is_Some_2 row j) as [px Hpxj]; [lia|].
  exists row, px. split_and!; [done..|].
  exact (proj1 (Forall_lookup _ _) Hpx j px Hpxj).
Qed.

(** [valid] only looks at the shape. *)
Lemma valid_shape (rows cols depth : nat) (v : view) (row col : Z) :
  has_shape rows cols depth v → (0 < rows)%nat →
  valid v row col
  = (row <? Z.of_nat rows)%Z && (0 <=? row)%Z && (col <? Z.of_nat cols)%Z && (0 <=? col)%Z.
Proof.
  intros [Hrows Hall] Hpos. unfold valid. rewrite Hrows.
  destruct v as [|row0 v]; [simpl in *; lia|].
  apply Forall_cons in Hall as [[Hcols _] _]. simpl. by rewrite Hcols.
Qed.

Lemma view_add_shape (rows cols depth : nat) (v : view) (row col : Z) (d : nat) (w : Q) :
  has_shape rows cols depth v → has_shape rows cols depth (view_add v row col d w).
Proof.
  intros [Hrows Hall]. split; unfold view_add.
  - etrans; [apply length_alter|done].
  - apply Forall_alter; [done|]. intros r _ [Hcols Hpx]. split.
    + etrans; [apply length_alter|done].
    + apply Forall_alter; [done|]. intros px _ Hlen.
      etrans; [apply length_alter|done].
Qed.

Lemma add_if_valid_shape (rows cols depth : nat) (v : view) (row col : Z) (d : nat) (w : Q) :
  has_shape rows cols depth v → has_shape rows cols depth (add_if_valid v row col d w).
Proof.
  intros Hv. unfold add_if_valid. destruct (valid v row col); [|done].
  by apply view_add_shape.
Qed.

Lemma add_if_valid_nonneg (v : view) (row col : Z) (d : nat) (w : Q) :
  0 <= w → nonneg_view v → nonneg_view (add_if_valid v row col d w).
Proof.
  intros Hw Hv. unfold add_if_valid. destruct (valid v row col); [|done].
  unfold view_add, nonneg_view.
  apply Forall_alter; [done|]. intros r _ Hr.
  apply Forall_alter; [done|]. intros px _ Hpx.
  apply Forall_alter; [done|]. intros x _ Hx. lra.
Qed.

Lemma pixel_alter (px : list Q) (d d' : nat) (w : Q) :
  (d < length px)%nat →
  default 0 (alter (λ x, x + w) d px !! d')
  == default 0 (px !! d') + (if decide (d' = d) then w else 0).
Proof.
  intros Hd. destruct (decide (d' = d)) as [->|Hne].
  - rewrite list_lookup_alter_eq.
    destruct (lookup_lt_is_Some_2 px d Hd) as [x ->]. simpl. reflexivity.
  - rewrite list_lookup_alter_ne by done. ring.
Qed.

(** An addition inside the array adds its weight to the sum of its channel
    and leaves the other channels as they are. *)
Lemma view_add_channel_sum (rows cols depth : nat) (v : view) (row col : Z)
    (d d' : nat) (w : Q) :
  has_shape rows cols depth v →
  (Z.to_nat row < rows)%nat → (Z.to_nat col < cols)%nat → (d < depth)%nat →
  channel_sum (view_add v row col d w) d'
  == channel_sum v d' + (if decide (d' = d) then w else 0).
Proof.
  intros Hv Hrow Hcol Hd.
  destruct (has_shape_lookup _ _ _ v _ _ Hv Hrow Hcol) as (r & px & Hr & Hpx & Hlen).
  unfold channel_sum, view_add.
  apply (Qsum_fmap_alter _ _ _ _ r); [done|].
  apply (Qsum_fmap_alter _ _ _ _ px); [done|].
  apply pixel_alter. lia.
Qed.

Lemma add_if_valid_channel_sum (rows cols depth : nat) (v : view) (row col : Z)
    (d d' : nat) (w : Q) :
  has_shape rows cols depth v → (0 < rows)%nat → (d < depth)%nat →
  channel_sum (add_if_valid v row col d w) d'
  == channel_sum v d' + (if valid v row col && bool_decide (d' = d) then w else 0).
Proof.
  intros Hv Hpos Hd. unfold add_if_valid.
  destruct (valid v row col) eqn:Hvalid; simpl; [|ring].
  rewrite (valid_shape _ _ _ _ _ _ Hv Hpos) in Hvalid.
  rewrite (view_add_channel_sum rows cols depth) by (done || lia).
  case_bool_decide; destruct (decide (d' = d)); done || reflexivity.
Qed.
End view_updates.

Section update_view.
Local Open Scope Q_scope.

(** [update_view] is nine guarded additions, at the index pairs and with
    the weights of [neighbour_weights]. *)
Lemma update_view_at_fold (v : view) (row0 col0 : Q) (d : nat) :
  update_view_at v row0 col0 d
  = fold_left (λ v rcw, add_if_valid v rcw.1.1 rcw.1.2 d rcw.2)
      (neighbour_weights (py_int row0) (py_int col0) (py_mod1 row0) (py_mod1 col0)) v.
Proof. unfold update_view_at. cbv zeta. by rewrite !py_mod1_not_negative. Qed.

Lemma neighbour_weights_nonneg (row col : Z) (f g : Q) :
  0 <= f → f < 1 → 0 <= g → g < 1 →
  Forall (λ rcw, 0 <= rcw.2) (neighbour_weights row col f g).
Proof.
  intros Hf0 Hf1 Hg0 Hg1.
  destruct (shares_nonneg f Hf0 Hf1) as (? & ? & ?).
  destruct (shares_nonneg g Hg0 Hg1) as (? & ? & ?).
  unfold neighbour_weights. repeat constructor; simpl; by apply Qmult_le_0_compat.
Qed.

(** The nine weights add up to one. *)
Lemma neighbour_weights_sum (row col : Z) (f g : Q) :
  0 <= f → f < 1 → 0 <= g → g < 1 →
  Qsum (snd <$> neighbour_weights row col f g) == 1.
Proof.
  intros Hf0 Hf1 Hg0 Hg1.
  pose proof (shares_sum f Hf0 Hf1) as Hf. pose proof (shares_sum g Hg0 Hg1) as Hg.
  assert ((share_centre f + share_before f + share_after f)
          * (share_centre g + share_before g + share_after g) == 1) as <-.
  { rewrite Hf, Hg. ring. }
  unfold neighbour_weights. simpl. ring.
Qed.

(** What a sequence of guarded additions to channel [d] does. *)
Lemma additions_spec (rows cols depth : nat) (d : nat) (ws : list (Z * Z * Q)) (v : view) :
  has_shape rows cols depth v → (0 < rows)%nat → (d < depth)%nat →
  Forall (λ rcw, 0 <= rcw.2) ws →
  let v' := fold_left (λ v rcw, add_if_valid v rcw.1.1 rcw.1.2 d rcw.2) ws v in
  has_shape rows cols depth v' ∧ (nonneg_view v → nonneg_view v') ∧
  ∀ d', channel_sum v' d'
        == channel_sum v d'
           + (if bool_decide (d' = d)
              then Qsum ((λ rcw, if valid v rcw.1.1 rcw.1.2 then rcw.2 else 0) <$> ws)
              else 0).
Proof.
  intros Hv Hpos Hd Hws. revert v Hv.
  induction Hws as [|[[r c] w] ws Hw _ IH]; intros v Hv;
    cbv zeta in *; cbn [fold_left fst snd] in *.
  - split_and!; [done..|]. intros d'. rewrite fmap_nil.
    change (Qsum []) with 0. case_bool_decide; ring.
  - pose proof (add_if_valid_shape _ _ _ v r c d w Hv) as Hv1.
    destruct (IH _ Hv1) as (Hshape & Hnonneg & Hsum). split_and!; [done|..].
    + intros Hv0. by apply Hnonneg, add_if_valid_nonneg.
    + intros d'. rewrite Hsum.
      rewrite (add_if_valid_channel_sum rows cols depth) by done.
      assert (Qsum ((λ rcw, if valid (add_if_valid v r c d w) rcw.1.1 rcw.1.2
                            then rcw.2 else 0) <$> ws)
              = Qsum ((λ rcw, if valid v rcw.1.1 rcw.1.2 then rcw.2 else 0) <$> ws))
        as ->.
      { f_equal. apply list_fmap_ext. intros _ [[r' c'] w'] _. simpl.
        by rewrite (valid_shape _ _ _ _ _ _ Hv1 Hpos), (valid_shape _ _ _ _ _ _ Hv Hpos). }
      rewrite fmap_cons, Qsum_cons. cbn [fst snd].
      case_bool_decide; destruct (valid v r c); simpl andb; cbv iota; ring.
Qed.

Lemma guarded_sum_bounds (v : view) (ws : list (Z * Z * Q)) :
  Forall (λ rcw, 0 <= rcw.2) ws →
  0 <= Qsum ((λ rcw, if valid v rcw.1.1 rcw.1.2 then rcw.2 else 0) <$> ws)
  ∧ Qsum ((λ rcw, if valid v rcw.1.1 rcw.1.2 then rcw.2 else 0) <$> ws)
    <= Qsum (snd <$> ws).
Proof.
  induction 1 as [|[[r c] w] ws Hw _ [IH0 IH1]].
  - rewrite !fmap_nil. change (Qsum []) with 0. lra.
  - rewrite !fmap_cons, !Qsum_cons. cbn [fst snd] in *.
    destruct (valid v r c); lra.
Qed.

Lemma guarded_sum_all_valid (v : view) (ws : list (Z * Z * Q)) :
  Forall (λ rcw, valid v rcw.1.1 rcw.1.2 = true) ws →
  Qsum ((λ rcw, if valid v rcw.1.1 rcw.1.2 then rcw.2 else 0) <$> ws)
  == Qsum (snd <$> ws).
Proof.
  induction 1 as [|[[r c] w] ws Hw _ IH]; [reflexivity|].
  rewrite !fmap_cons, !Qsum_cons. cbn [fst snd] in *.
  rewrite Hw, IH. reflexivity.
Qed.

(** One call of [update_view] keeps the shape and the sign of the entries,
    adds at most one to the sum of its channel and leaves the sums of the
    other channels alone. *)
Lemma update_view_at_spec (rows cols depth : nat) (v : view) (row0 col0 : Q) (d : nat) :
  has_shape rows cols depth v → (0 < rows)%nat → (d < depth)%nat →
  let v' := update_view_at v row0 col0 d in
  has_shape rows cols depth v' ∧ (nonneg_view v → nonneg_view v') ∧
  channel_sum v d <= channel_sum v' d ∧ channel_sum v' d <= channel_sum v d + 1 ∧
  ∀ d', d' ≠ d → channel_sum v' d' == channel_sum v d'.
Proof.
  intros Hv Hpos Hd. cbv zeta. rewrite update_view_at_fold.
  destruct (py_mod1_range row0) as [Hr0 Hr1], (py_mod1_range col0) as [Hc0 Hc1].
  pose proof (neighbour_weights_nonneg (py_int row0) (py_int col0) _ _ Hr0 Hr1 Hc0 Hc1) as Hws.
  pose proof (neighbour_weights_sum (py_int row0) (py_int col0) _ _ Hr0 Hr1 Hc0 Hc1) as Hone.
  destruct (additions_spec rows cols depth d _ v Hv Hpos Hd Hws) as (Hshape & Hnonneg & Hsum).
  destruct (guarded_sum_bounds v _ Hws) as [Hlo Hhi].
  split_and!; [done|done|..].
  - rewrite (Hsum d), bool_decide_true by done. lra.
  - rewrite (Hsum d), bool_decide_true by done. lra.
  - intros d' Hne. rewrite (Hsum d'), bool_decide_false by done. ring.
Qed.
End update_view.

Section top_down_view_bounds.
Context {U : MazeEnvUtils} {E Info : Type} {PE : PhysicsEngine E Info}.
Context {G : Type} {RNG : Random G}.
Local Open Scope Q_scope.

Lemma count_nil {A} : count (@nil A) = 0.
Proof. reflexivity. Qed.

Lemma count_cons {A} (x : A) (l : list A) : count (x :: l) == count l + 1.
Proof.
  unfold count. cbn [length]. rewrite Nat2Z.inj_succ, <- Z.add_1_r, inject_Z_plus.
  reflexivity.
Qed.

Lemma view_bounded_weaken (b0 b1 b2 b0' b1' b2' : Q) (v : view) :
  b0 <= b0' → b1 <= b1' → b2 <= b2' →
  view_bounded b0 b1 b2 v → view_bounded b0' b1' b2' v.
Proof.
  intros H0 H1 H2 (Hshape & Hnonneg & Hc0 & Hc1 & Hc2).
  split_and!; [done..| | |]; lra.
Qed.

Lemma initial_view_bounded : view_bounded 0 0 0 initial_view.
Proof.
  split_and!.
  - split; [done|]. repeat constructor.
  - repeat constructor; done.
  - by vm_compute.
  - by vm_compute.
  - by vm_compute.
Qed.

Lemma update_view_bounded_0 (s rx ry x y b0 b1 b2 : Q) (v : view) :
  view_bounded b0 b1 b2 v → view_bounded (b0 + 1) b1 b2 (update_view s rx ry v x y 0).
Proof.
  intros (Hshape & Hnonneg & Hc0 & Hc1 & Hc2). unfold update_view. cbv zeta.
  destruct (update_view_at_spec 5 5 3 v (_xy_to_rowcol s (x - rx) (y - ry)).1
              (_xy_to_rowcol s (x - rx) (y - ry)).2 0 Hshape)
    as (Hshape' & Hnonneg' & _ & Hhi & Hother); [lia..|].
  split_and!; [done|by apply Hnonneg'|..].
  - lra.
  - by rewrite (Hother 1%nat).
  - by rewrite (Hother 2%nat).
Qed.

Lemma update_view_bounded_1 (s rx ry x y b0 b1 b2 : Q) (v : view) :
  view_bounded b0 b1 b2 v → view_bounded b0 (b1 + 1) b2 (update_view s rx ry v x y 1).
Proof.
  intros (Hshape & Hnonneg & Hc0 & Hc1 & Hc2). unfold update_view. cbv zeta.
  destruct (update_view_at_spec 5 5 3 v (_xy_to_rowcol s (x - rx) (y - ry)).1
              (_xy_to_rowcol s (x - rx) (y - ry)).2 1 Hshape)
    as (Hshape' & Hnonneg' & _ & Hhi & Hother); [lia..|].
  split_and!; [done|by apply Hnonneg'|..].
  - by rewrite (Hother 0%nat).
  - lra.
  - by rewrite (Hother 2%nat).
Qed.

Lemma update_view_bounded_2 (s rx ry x y b0 b1 b2 : Q) (v : view) :
  view_bounded b0 b1 b2 v → view_bounded b0 b1 (b2 + 1) (update_view s rx ry v x y 2).
Proof.
  intros (Hshape & Hnonneg & Hc0 & Hc1 & Hc2). unfold update_view. cbv zeta.
  destruct (update_view_at_spec 5 5 3 v (_xy_to_rowcol s (x - rx) (y - ry)).1
              (_xy_to_rowcol s (x - rx) (y - ry)).2 2 Hshape)
    as (Hshape' & Hnonneg' & _ & Hhi & Hother); [lia..|].
  split_and!; [done|by apply Hnonneg'|..].
  - by rewrite (Hother 0%nat).
  - by rewrite (Hother 1%nat).
  - lra.
Qed.

Lemma draw_cell_bounded (self : AntMazeEnv E) (rx ry : Q) (ij : nat * nat)
    (c : value) (b0 b1 b2 : Q) (v : view) :
  cell (MAZE_STRUCTURE self) ij.1 ij.2 = Ok c → view_bounded b0 b1 b2 v →
  ∃ v', draw_cell self rx ry ij v = Ok v' ∧
        view_bounded (b0 + (if py_eq c WALL then 1 else 0))
                     (b1 + (if py_eq c CHASM then 1 else 0)) b2 v'.
Proof.
  intros Hc Hv. unfold draw_cell. rewrite Hc, bind_Ok_l. cbv zeta.
  eexists. split; [done|].
  destruct (py_eq c WALL), (py_eq c CHASM).
  - by apply update_view_bounded_1, update_view_bounded_0.
  - apply (view_bounded_weaken (b0 + 1) b1 b2); [lra..|].
    by apply update_view_bounded_0.
  - apply (view_bounded_weaken b0 (b1 + 1) b2); [lra..|].
    by apply update_view_bounded_1.
  - apply (view_bounded_weaken b0 b1 b2); [lra..|done].
Qed.

Lemma draw_cells_bounded (self : AntMazeEnv E) (rx ry : Q) (cells : list (nat * nat))
    (b0 b1 b2 : Q) (v : view) :
  Forall (λ ij, ∃ c, cell (MAZE_STRUCTURE self) ij.1 ij.2 = Ok c) cells →
  view_bounded b0 b1 b2 v →
  ∃ v', for_each (draw_cell self rx ry) cells v = Ok v' ∧
        view_bounded
          (b0 + count (filter (λ ij, cell (MAZE_STRUCTURE self) ij.1 ij.2 = Ok WALL) cells))
          (b1 + count (filter (λ ij, cell (MAZE_STRUCTURE self) ij.1 ij.2 = Ok CHASM) cells))
          b2 v'.
Proof.
  intros Hcells. revert b0 b1 b2 v.
  induction Hcells as [|ij cells [c Hc] _ IH]; intros b0 b1 b2 v Hv.
  - exists v. split; [done|]. apply (view_bounded_weaken b0 b1 b2); [ | | |done];
      rewrite ?filter_nil, ?count_nil; lra.
  - destruct (draw_cell_bounded self rx ry ij c b0 b1 b2 v Hc Hv) as (v1 & Hv1 & Hb1).
    destruct (IH _ _ _ _ Hb1) as (v' & Hv' & Hb').
    exists v'. rewrite for_each_cons, Hv1, bind_Ok_l. split; [done|].
    revert Hb'. apply view_bounded_weaken; [| |lra].
    + rewrite filter_cons. destruct (decide _) as [Heq|Hne].
      * rewrite count_cons. rewrite Hc in Heq. injection Heq as ->.
        rewrite (proj2 (py_eq_true WALL WALL)) by done. lra.
      * rewrite Hc in Hne. rewrite (proj2 (py_eq_false c WALL)) by congruence. lra.
    + rewrite filter_cons. destruct (decide _) as [Heq|Hne].
      * rewrite count_cons. rewrite Hc in Heq. injection Heq as ->.
        rewrite (proj2 (py_eq_true CHASM CHASM)) by done. lra.
      * rewrite Hc in Hne. rewrite (proj2 (py_eq_false c CHASM)) by congruence. lra.
Qed.

Lemma draw_blocks_bounded (self : AntMazeEnv E) (rx ry : Q)
    (blocks : list (string * value)) (b0 b1 b2 : Q) (v : view) :
  view_bounded b0 b1 b2 v →
  view_bounded b0 b1 (b2 + count blocks) (fold_left (draw_block self rx ry) blocks v).
Proof.
  revert b2 v. induction blocks as [|block blocks IH]; intros b2 v Hv.
  - apply (view_bounded_weaken b0 b1 b2); [ | | |done]; rewrite ?count_nil; lra.
  - cbn [fold_left].
    assert (view_bounded b0 b1 (b2 + 1) (draw_block self rx ry v block)) as Hv1.
    { unfold draw_block. destruct (get_body_com _ _) as [[block_x block_y] ?].
      by apply update_view_bounded_2. }
    generalize (IH _ _ Hv1). apply view_bounded_weaken; [lra..|].
    rewrite count_cons. lra.
Qed.

(** X14. In every environment built by the constructor and driven by
    [reset] and [step], with a nonzero scaling (so that the division of
    [_xy_to_rowcol] is defined), [get_top_down_view] returns: a 5 x 5 x 3
    array without negative entries in which channel 0 sums to at most the
    number of wall cells, channel 1 to at most the number of chasm cells
    and channel 2 to at most the number of recorded movable blocks. *)
Theorem top_down_view_bounds (self : AntMazeEnv E) :
  reachable (G:=G) self → ¬ MAZE_SIZE_SCALING self == 0 →
  ∃ v, get_top_down_view self = Ok v ∧
       has_shape 5 5 3 v ∧ nonneg_view v ∧
       channel_sum v 0
       <= count (filter (λ ij, cell (MAZE_STRUCTURE self) ij.1 ij.2 = Ok WALL)
                   (cell_range (MAZE_STRUCTURE self))) ∧
       channel_sum v 1
       <= count (filter (λ ij, cell (MAZE_STRUCTURE self) ij.1 ij.2 = Ok CHASM)
                   (cell_range (MAZE_STRUCTURE self))) ∧
       channel_sum v 2 <= count (movable_blocks self).
Proof.
  intros Hself _. destruct (reachable_consistent self Hself) as (Hcells & _).
  unfold get_top_down_view. cbv zeta.
  destruct (get_body_com _ _) as [[robot_x robot_y] ?].
  destruct (draw_cells_bounded self robot_x robot_y _ 0 0 0 _ Hcells initial_view_bounded)
    as (v1 & -> & Hv1).
  rewrite bind_Ok_l. eexists. split; [done|].
  destruct (draw_blocks_bounded self robot_x robot_y (movable_blocks self) _ _ _ _ Hv1)
    as (Hshape & Hnonneg & Hc0 & Hc1 & Hc2).
  split_and!; [done|done|lra..].
Qed.

(** X15. One call of the inner [update_view] whose 3 x 3 neighbourhood
    lies inside the array adds exactly one to the sum of its channel: the
    nine weights it distributes add up to one. *)
Theorem update_view_conserves_mass (rows cols depth : nat) (v : view)
    (row0 col0 : Q) (d : nat) :
  has_shape rows cols depth v → (d < depth)%nat →
  (1 <= py_int row0 < Z.of_nat rows - 1)%Z →
  (1 <= py_int col0 < Z.of_nat cols - 1)%Z →
  channel_sum (update_view_at v row0 col0 d) d == channel_sum v d + 1.
Proof.
  intros Hv Hd Hrow Hcol. assert (0 < rows)%nat as Hpos by lia.
  rewrite update_view_at_fold.
  destruct (py_mod1_range row0) as [Hr0 Hr1], (py_mod1_range col0) as [Hc0 Hc1].
  pose proof (neighbour_weights_nonneg (py_int row0) (py_int col0) _ _ Hr0 Hr1 Hc0 Hc1) as Hws.
  pose proof (neighbour_weights_sum (py_int row0) (py_int col0) _ _ Hr0 Hr1 Hc0 Hc1) as Hone.
  destruct (additions_spec rows cols depth d _ v Hv Hpos Hd Hws) as (_ & _ & Hsum).
  rewrite (Hsum d), bool_decide_true by done.
  rewrite guarded_sum_all_valid; [by rewrite Hone|].
  unfold neighbour_weights.
  repeat constructor; cbn [fst snd];
    rewrite (valid_shape _ _ _ _ _ _ Hv Hpos); lia.
Qed.
End top_down_view_bounds.

Lemma top_down_view_bounds_witness :
  ∃ self : AntMazeEnv point,
    __init__ (U:=Reference.utils [[ROBOT; Reference.MoveXYZ; WALL]])
      (Reference.kw true false 1) Reference.torso = Ok self ∧
    ∃ v, get_top_down_view self = Ok v ∧
         has_shape 5 5 3 v ∧ nonneg_view v ∧
         (channel_sum v 0
          <= count (filter (λ ij, cell (MAZE_STRUCTURE self) ij.1 ij.2 = Ok WALL)
                      (cell_range (MAZE_STRUCTURE self))))%Q ∧
         (channel_sum v 1
          <= count (filter (λ ij, cell (MAZE_STRUCTURE self) ij.1 ij.2 = Ok CHASM)
                      (cell_range (MAZE_STRUCTURE self))))%Q ∧
         (channel_sum v 2 <= count (movable_blocks self))%Q.
Proof.
  eexists. split; [vm_compute; reflexivity|].
  match goal with
  | |- ∃ v, get_top_down_view ?s = Ok v ∧ _ =>
      apply (top_down_view_bounds
               (U:=Reference.utils [[ROBOT; Reference.MoveXYZ; WALL]]) (G:=nat) s)
  end.
  - eapply (reachable_init (Reference.kw true false 1) Reference.torso).
    vm_compute. reflexivity.
  - intros Hzero. vm_compute in Hzero. discriminate Hzero.
Defined.

Lemma update_view_conserves_mass_witness :
  (channel_sum (update_view_at initial_view (5 # 2) (3 # 2) 0) 0
   == channel_sum initial_view 0 + 1)%Q.
Proof.
  apply (update_view_conserves_mass 5 5 3).
  - split; [reflexivity|]. repeat constructor.
  - lia.
  - change (py_int (5 # 2)) with 2%Z. lia.
  - change (py_int (3 # 2)) with 1%Z. lia.
Defined.

Section view_entries.
Local Open Scope Q_scope.

Lemma entry_view_add (rows cols depth : nat) (v : view) (row col : Z)
    (d : nat) (w : Q) (r c d' : nat) :
  has_shape rows cols depth v →
  (Z.to_nat row < rows)%nat → (Z.to_nat col < cols)%nat → (d < depth)%nat →
  entry (view_add v row col d w) r c d'
  == entry v r c d'
     + (if bool_decide (r = Z.to_nat row ∧ c = Z.to_nat col ∧ d' = d) then w else 0).
Proof.
  intros Hv Hrow Hcol Hd.
  destruct (has_shape_lookup _ _ _ v _ _ Hv Hrow Hcol) as (vr & px & Hr & Hpx & Hlen).
  unfold entry, view_add, view in *.
  destruct (decide (r = Z.to_nat row)) as [->|Hner].
  - rewrite list_lookup_alter_eq, Hr. simpl.
    destruct (decide (c = Z.to_nat col)) as [->|Hnec].
    + rewrite list_lookup_alter_eq, Hpx. simpl.
      rewrite pixel_alter by lia.
      case_bool_decide as Hhit; destruct (decide (d' = d)) as [Hd'|Hd'];
        try reflexivity; [by destruct Hhit as (_ & _ & ?)|by destruct Hhit].
    + rewrite list_lookup_alter_ne by done.
      rewrite bool_decide_false by (by intros (? & ? & ?)). ring.
  - rewrite list_lookup_alter_ne by done.
    rewrite bool_decide_false by (by intros (? & ? & ?)). ring.
Qed.

Lemma entry_add_if_valid (rows cols depth : nat) (v : view) (row col : Z)
    (d : nat) (w : Q) (r c d' : nat) :
  has_shape rows cols depth v → (0 < rows)%nat → (d < depth)%nat →
  entry (add_if_valid v row col d w) r c d'
  == entry v r c d'
     + (if valid v row col
           && bool_decide (r = Z.to_nat row ∧ c = Z.to_nat col ∧ d' = d)
        then w else 0).
Proof.
  intros Hv Hpos Hd. unfold add_if_valid.
  destruct (valid v row col) eqn:Hvalid; [|simpl; ring].
  rewrite (valid_shape _ _ _ _ _ _ Hv Hpos) in Hvalid.
  rewrite (entry_view_add rows cols depth) by (done || lia). reflexivity.
Qed.

(** What a sequence of guarded additions to channel [d] does to one entry. *)
Lemma additions_entry (rows cols depth : nat) (d : nat) (ws : list (Z * Z * Q))
    (v : view) (r c d' : nat) :
  has_shape rows cols depth v → (0 < rows)%nat → (d < depth)%nat →
  entry (fold_left (λ v rcw, add_if_valid v rcw.1.1 rcw.1.2 d rcw.2) ws v) r c d'
  == entry v r c d'
     + Qsum ((λ rcw, if valid v rcw.1.1 rcw.1.2
                        && bool_decide (r = Z.to_nat rcw.1.1 ∧ c = Z.to_nat rcw.1.2 ∧ d' = d)
                     then rcw.2 else 0) <$> ws).
Proof.
  intros Hv Hpos Hd. revert v Hv.
  induction ws as [|[[row col] w] ws IH]; intros v Hv; cbn [fold_left fst snd].
  - rewrite fmap_nil. change (Qsum []) with 0. ring.
  - pose proof (add_if_valid_shape _ _ _ v row col d w Hv) as Hv1.
    rewrite (IH _ Hv1), (entry_add_if_valid rows cols depth) by done.
    rewrite fmap_cons, Qsum_cons. cbn [fst snd].
    assert (Qsum ((λ rcw, if valid (add_if_valid v row col d w) rcw.1.1 rcw.1.2
                             && bool_decide (r = Z.to_nat rcw.1.1 ∧ c = Z.to_nat rcw.1.2 ∧ d' = d)
                          then rcw.2 else 0) <$> ws)
            = Qsum ((λ rcw, if valid v rcw.1.1 rcw.1.2
                               && bool_decide (r = Z.to_nat rcw.1.1 ∧ c = Z.to_nat rcw.1.2 ∧ d' = d)
                            then rcw.2 else 0) <$> ws))
      as ->.
    { f_equal. apply list_fmap_ext. intros _ [[r' c'] w'] _. cbn [fst snd].
      by rewrite (valid_shape _ _ _ _ _ _ Hv1 Hpos), (valid_shape _ _ _ _ _ _ Hv Hpos). }
    ring.
Qed.

(** Guarded sums only depend on the weights up to equality of rationals. *)
Lemma guarded_sum_equiv (guard : Z → Z → bool) (ws ws' : list (Z * Z * Q)) :
  Forall2 (λ a b, a.1 = b.1 ∧ a.2 == b.2) ws ws' →
  Qsum ((λ rcw, if guard rcw.1.1 rcw.1.2 then rcw.2 else 0) <$> ws)
  == Qsum ((λ rcw, if guard rcw.1.1 rcw.1.2 then rcw.2 else 0) <$> ws').
Proof.
  induction 1 as [|[[r c] w] [[r' c'] w'] ws ws' [Hrc Hw] _ IH]; [reflexivity|].
  rewrite !fmap_cons, !Qsum_cons. cbn [fst snd] in *. injection Hrc as <- <-.
  rewrite IH. destruct (guard r c); [by rewrite Hw|reflexivity].
Qed.

Lemma neighbour_weights_equiv (row col : Z) (a b c a' b' c' f g : Q) :
  share_centre f == a → share_before f == b → share_after f == c →
  share_centre g == a' → share_before g == b' → share_after g == c' →
  Forall2 (λ x y, x.1 = y.1 ∧ x.2 == y.2) (neighbour_weights row col f g)
    [(row, col, a * a'); ((row - 1)%Z, col, b * a'); ((row + 1)%Z, col, c * a');
     (row, (col - 1)%Z, a * b'); (row, (col + 1)%Z, a * c');
     ((row - 1)%Z, (col - 1)%Z, b * b'); ((row - 1)%Z, (col + 1)%Z, b * c');
     ((row + 1)%Z, (col + 1)%Z, c * c'); ((row + 1)%Z, (col - 1)%Z, c * b')].
Proof.
  intros Ha Hb Hc Ha' Hb' Hc'. unfold neighbour_weights.
  repeat constructor; cbn [fst snd]; by rewrite ?Ha, ?Hb, ?Hc, ?Ha', ?Hb', ?Hc'.
Qed.

Lemma Qfloor_unique (q : Q) (n : Z) :
  inject_Z n <= q → q < inject_Z (n + 1) → Qfloor q = n.
Proof.
  intros Hle Hlt. pose proof (Qfloor_le q) as Hfl. pose proof (Qlt_floor q) as Hlf.
  assert (inject_Z n < inject_Z (Qfloor q + 1)) as H1 by lra.
  assert (inject_Z (Qfloor q) < inject_Z (n + 1)) as H2 by lra.
  rewrite <- Zlt_Qlt in H1, H2. lia.
Qed.

Lemma Qceiling_unique (q : Q) (n : Z) :
  inject_Z (n - 1) < q → q <= inject_Z n → Qceiling q = n.
Proof.
  intros Hlt Hle. unfold Qceiling.
  rewrite (Qfloor_unique (- q) (- n)); [lia| |].
  - rewrite inject_Z_opp. lra.
  - replace (- n + 1)%Z with (- (n - 1))%Z by lia. rewrite inject_Z_opp. lra.
Qed.

Lemma shares_half (f : Q) :
  f == 1 # 2 → share_centre f == 1 ∧ share_before f == 0 ∧ share_after f == 0.
Proof.
  intros Hf. unfold share_centre, share_before, share_after.
  destruct (py_min_cases 1.0 (f + 0.5)) as [[? ->]|[? ->]],
           (py_max_cases 0.0 (f - 0.5)) as [[? ->]|[? ->]],
           (py_max_cases 0.0 (0.5 - f)) as [[? ->]|[? ->]];
    repeat split; lra.
Qed.

Lemma shares_equiv (f g : Q) :
  f == g →
  share_centre f == share_centre g ∧ share_before f == share_before g
  ∧ share_after f == share_after g.
Proof.
  intros Hfg. unfold share_centre, share_before, share_after.
  destruct (py_min_cases 1.0 (f + 0.5)) as [[? ->]|[? ->]],
           (py_max_cases 0.0 (f - 0.5)) as [[? ->]|[? ->]],
           (py_max_cases 0.0 (0.5 - f)) as [[? ->]|[? ->]],
           (py_min_cases 1.0 (g + 0.5)) as [[? ->]|[? ->]],
           (py_max_cases 0.0 (g - 0.5)) as [[? ->]|[? ->]],
           (py_max_cases 0.0 (0.5 - g)) as [[? ->]|[? ->]];
    repeat split; lra.
Qed.

(** A coordinate that is a whole number of cells plus a half. *)
Lemma coordinate_of_aligned (s delta : Q) (k : Z) :
  ¬ s == 0 → delta == inject_Z k * s → (-2 <= k)%Z →
  py_int (2 + (delta + s / 2) / s) = (2 + k)%Z
  ∧ py_mod1 (2 + (delta + s / 2) / s) == 1 # 2.
Proof.
  intros Hs Hdelta Hk.
  assert (2 + (delta + s / 2) / s == inject_Z (2 + k) + (1 # 2)) as Hq.
  { rewrite Hdelta, inject_Z_plus. change (inject_Z 2) with 2. by field. }
  assert (0 <= inject_Z (2 + k)) as Hpos.
  { change 0 with (inject_Z 0). rewrite <- Zle_Qle. lia. }
  assert (Qfloor (2 + (delta + s / 2) / s) = (2 + k)%Z) as Hfloor.
  { apply Qfloor_unique; [lra|]. rewrite inject_Z_plus. change (inject_Z 1) with 1. lra. }
  split.
  - unfold py_int. rewrite (proj2 (Qle_bool_iff _ _)) by lra. done.
  - unfold py_mod1. rewrite Hfloor. lra.
Qed.
End view_entries.

Section view_pixels.
Local Open Scope Q_scope.

Lemma guarded_zero (b : bool) (w : Q) : w == 0 → (if b then w else 0) == 0.
Proof. intros Hw. destruct b; [done|reflexivity]. Qed.

Lemma valid_true (rows cols depth : nat) (v : view) (row col : Z) :
  has_shape rows cols depth v →
  (0 <= row < Z.of_nat rows)%Z → (0 <= col < Z.of_nat cols)%Z →
  valid v row col = true.
Proof.
  intros Hv Hrow Hcol. rewrite (valid_shape _ _ _ _ _ _ Hv) by lia.
  rewrite !andb_true_iff, !Z.ltb_lt, !Z.leb_le. lia.
Qed.

Lemma valid_false (rows cols depth : nat) (v : view) (row col : Z) :
  has_shape rows cols depth v → (0 < rows)%nat →
  (row < 0 ∨ Z.of_nat rows <= row ∨ col < 0 ∨ Z.of_nat cols <= col)%Z →
  valid v row col = false.
Proof.
  intros Hv Hpos Hout. rewrite (valid_shape _ _ _ _ _ _ Hv) by lia.
  apply not_true_is_false. rewrite !andb_true_iff, !Z.ltb_lt, !Z.leb_le. lia.
Qed.

Lemma additions_none_valid (d : nat) (ws : list (Z * Z * Q)) (v : view) :
  Forall (λ rcw, valid v rcw.1.1 rcw.1.2 = false) ws →
  fold_left (λ v rcw, add_if_valid v rcw.1.1 rcw.1.2 d rcw.2) ws v = v.
Proof.
  induction 1 as [|[[r c] w] ws Hw _ IH]; [done|].
  cbn [fold_left fst snd] in *. unfold add_if_valid at 2. by rewrite Hw.
Qed.

Lemma neighbour_weights_proper (row col : Z) (f f' g g' : Q) :
  f == f' → g == g' →
  Forall2 (λ x y, x.1 = y.1 ∧ x.2 == y.2)
    (neighbour_weights row col f g) (neighbour_weights row col f' g').
Proof.
  intros Hf Hg.
  destruct (shares_equiv f f' Hf) as (Ha & Hb & Hc).
  destruct (shares_equiv g g' Hg) as (Ha' & Hb' & Hc').
  by apply neighbour_weights_equiv.
Qed.

(** Two coordinate pairs with the same integer parts and equal fractional
    parts are drawn alike. *)
Lemma update_view_at_equiv (rows cols depth : nat) (v : view)
    (row0 col0 row1 col1 : Q) (d : nat) (r c d' : nat) :
  has_shape rows cols depth v → (0 < rows)%nat → (d < depth)%nat →
  py_int row0 = py_int row1 → py_int col0 = py_int col1 →
  py_mod1 row0 == py_mod1 row1 → py_mod1 col0 == py_mod1 col1 →
  entry (update_view_at v row0 col0 d) r c d'
  == entry (update_view_at v row1 col1 d) r c d'.
Proof.
  intros Hv Hpos Hd Hrow Hcol Hrf Hcf.
  rewrite !update_view_at_fold, !(additions_entry rows cols depth) by done.
  apply Qplus_comp; [reflexivity|]. rewrite Hrow, Hcol.
  pose (guard := λ r' c' : Z,
          valid v r' c' && bool_decide (r = Z.to_nat r' ∧ c = Z.to_nat c' ∧ d' = d)).
  apply (guarded_sum_equiv guard). by apply neighbour_weights_proper.
Qed.

Lemma coordinate_above_edge (q : Q) :
  -1 < q → q < 0 →
  py_int q = py_int (q + 1) ∧ py_mod1 q == py_mod1 (q + 1).
Proof.
  intros Hlo Hhi.
  assert (Qfloor q = (-1)%Z) as Hfloor.
  { apply Qfloor_unique; [change (inject_Z (-1)) with (-1)|change (inject_Z (-1 + 1)) with 0]; lra. }
  assert (Qceiling q = 0%Z) as Hceil.
  { apply Qceiling_unique; [change (inject_Z (0 - 1)) with (-1)|change (inject_Z 0) with 0]; lra. }
  assert (Qfloor (q + 1) = 0%Z) as Hfloor1.
  { apply Qfloor_unique; [change (inject_Z 0) with 0|change (inject_Z (0 + 1)) with 1]; lra. }
  split.
  - unfold py_int.
    assert (Qle_bool 0 q = false) as ->
      by (apply not_true_is_false; rewrite Qle_bool_iff; lra).
    rewrite (proj2 (Qle_bool_iff 0 (q + 1))) by lra. congruence.
  - unfold py_mod1. rewrite Hfloor, Hfloor1.
    change (inject_Z (-1)) with (-1). change (inject_Z 0) with 0. lra.
Qed.

(** X16. The view is centred on the robot, rows following y and columns
    following x: for a nonzero scaling, an object whose offset from the
    robot is a whole number of cells [(kx, ky)], at most two either way,
    is drawn by [update_view] wholly in the entry [(2 + ky, 2 + kx)] of its
    channel, which grows by one; every other entry keeps its value. *)
Theorem aligned_object_fills_one_pixel (s rx ry x y : Q) (kx ky : Z)
    (v : view) (d : nat) (r c d' : nat) :
  has_shape 5 5 3 v → (d < 3)%nat → ¬ s == 0 →
  x - rx == inject_Z kx * s → y - ry == inject_Z ky * s →
  (-2 <= kx <= 2)%Z → (-2 <= ky <= 2)%Z →
  entry (update_view s rx ry v x y d) r c d'
  == entry v r c d'
     + (if bool_decide (r = Z.to_nat (2 + ky) ∧ c = Z.to_nat (2 + kx) ∧ d' = d)
        then 1 else 0).
Proof.
  intros Hv Hd Hs Hx Hy Hkx Hky.
  unfold update_view, _xy_to_rowcol. cbv zeta. cbn [fst snd].
  destruct (coordinate_of_aligned s (y - ry) ky Hs Hy) as [Hrow Hrf]; [lia|].
  destruct (coordinate_of_aligned s (x - rx) kx Hs Hx) as [Hcol Hcf]; [lia|].
  destruct (shares_half _ Hrf) as (Ha & Hb & Hc).
  destruct (shares_half _ Hcf) as (Ha' & Hb' & Hc').
  rewrite update_view_at_fold, (additions_entry 5 5 3) by (done || lia).
  apply Qplus_comp; [reflexivity|]. rewrite Hrow, Hcol.
  pose (guard := λ r' c' : Z,
          valid v r' c' && bool_decide (r = Z.to_nat r' ∧ c = Z.to_nat c' ∧ d' = d)).
  etrans.
  { apply (guarded_sum_equiv guard).
    by apply (neighbour_weights_equiv _ _ 1 0 0 1 0 0). }
  subst guard.
  rewrite !fmap_cons, fmap_nil, !Qsum_cons. cbn [fst snd].
  rewrite (valid_true 5 5 3 v (2 + ky) (2 + kx)) by (done || lia).
  rewrite andb_true_l. change (Qsum []) with 0.
  case_bool_decide; rewrite !guarded_zero by ring; ring.
Qed.

(** X17. [int] truncates towards zero while [% 1] takes the fractional
    part downwards, so a row coordinate strictly between -1 and 0 is given
    row 0: [update_view] draws the object exactly as it draws one a whole
    row further down; and alike for a column coordinate between -1 and 0. *)
Theorem coordinate_above_edge_is_shifted (rows cols depth : nat) (v : view)
    (row0 col0 : Q) (d : nat) (r c d' : nat) :
  has_shape rows cols depth v → (0 < rows)%nat → (d < depth)%nat →
  (-1 < row0 → row0 < 0 →
   entry (update_view_at v row0 col0 d) r c d'
   == entry (update_view_at v (row0 + 1) col0 d) r c d')
  ∧ (-1 < col0 → col0 < 0 →
     entry (update_view_at v row0 col0 d) r c d'
     == entry (update_view_at v row0 (col0 + 1) d) r c d').
Proof.
  intros Hv Hpos Hd. split; intros Hlo Hhi.
  - destruct (coordinate_above_edge row0 Hlo Hhi) as [Hint Hfrac].
    by apply (update_view_at_equiv rows cols depth).
  - destruct (coordinate_above_edge col0 Hlo Hhi) as [Hint Hfrac].
    by apply (update_view_at_equiv rows cols depth).
Qed.

(** X18. An object whose integer row or column lies more than one step
    outside the array is not drawn: [update_view] returns the array as it
    got it. *)
Theorem far_object_not_drawn (rows cols depth : nat) (v : view)
    (row0 col0 : Q) (d : nat) :
  has_shape rows cols depth v → (0 < rows)%nat →
  (py_int row0 < -1 ∨ Z.of_nat rows < py_int row0
   ∨ py_int col0 < -1 ∨ Z.of_nat cols < py_int col0)%Z →
  update_view_at v row0 col0 d = v.
Proof.
  intros Hv Hpos Hfar. rewrite update_view_at_fold.
  apply additions_none_valid. unfold neighbour_weights.
  repeat constructor; cbn [fst snd];
    apply (valid_false rows cols depth); done || lia.
Qed.
End view_pixels.

Lemma aligned_object_fills_one_pixel_witness :
  (entry (update_view 8 0 0 initial_view 8 (-8) 2) 1 3 2
   == entry initial_view 1 3 2 + 1)%Q.
Proof.
  apply (aligned_object_fills_one_pixel 8 0 0 8 (-8) 1 (-1) initial_view 2 1 3 2).
  - split; [reflexivity|]. repeat constructor.
  - lia.
  - intros Hzero. vm_compute in Hzero. discriminate Hzero.
  - reflexivity.
  - reflexivity.
  - lia.
  - lia.
Defined.

Lemma coordinate_above_edge_is_shifted_witness :
  (entry (update_view_at initial_view (-1 # 2) (3 # 2) 0) 0 1 0
   == entry (update_view_at initial_view (1 # 2) (3 # 2) 0) 0 1 0)%Q.
Proof.
  apply (coordinate_above_edge_is_shifted 5 5 3 initial_view (-1 # 2) (3 # 2) 0 0 1 0).
  - split; [reflexivity|]. repeat constructor.
  - lia.
  - lia.
  - reflexivity.
  - reflexivity.
Defined.

Lemma far_object_not_drawn_witness :
  update_view_at initial_view (-5 # 2) (3 # 2) 1 = initial_view.
Proof.
  apply (far_object_not_drawn 5 5 3).
  - split; [reflexivity|]. repeat constructor.
  - lia.
  - left. change (py_int (-5 # 2)) with (-2)%Z. lia.
Defined.
